(** * asv result-file migrations

    A shallow embedding of [asv/migrations.py]: the migration registry and
    executor, the [AddBenchParam] operation, and the two converters between
    the column-oriented result layout and the record-oriented one.

    Python dictionaries whose iteration order the code relies on (the
    per-benchmark tables, [asv_results], [asv_params]) are insertion-ordered
    association lists.  The dictionaries held by one result record are only
    ever read and written by key; they are finite maps.  Exceptions are
    values of type [error], threaded through an error monad. *)

From stdpp Require Import gmap strings list fin_maps sorting pretty.
From Stdlib Require Import ZArith Lia Ascii.

Set Warnings "-register-all".
Set Default Proof Using "Type".
Set Warnings "-clear-no-such-hyp".
Open Scope string_scope.
Open Scope list_scope.
Open Scope nat_scope.

(** ** Exceptions *)

Inductive neighbor : Type := InsertAfter | InsertBefore.

(** The messages of [UserError], one constructor per format string. *)
Inductive user_error : Type :=
| ConflictingIndex (conflict name : string)
| NonContiguousIndex (last_index index : Z)
| ValuesNotUnique
| WrongDefault
| NotAdjacent (name insert_after insert_before : string)
| ParamNotFound (name : string) (which : neighbor) (param : string)
| EmptyOctobusResults.

Inductive error : Type :=
| NotReadyForMigrationsError
| NoMigrationFilesFound
| MigrationDoesNotExist (index : Z)
| UnknownTarget (target : string)
| UserError (e : user_error)
| KeyError (key : string)
| IndexError
| ValueError (literal : string)
| AssertionError
| AttributeError
| TypeError.

Inductive res (A : Type) : Type :=
| Ok (a : A)
| Err (e : error).
Arguments Ok {A} a.
Arguments Err {A} e.

#[global] Instance res_ret : MRet res := λ A a, Ok a.
#[global] Instance res_bind : MBind res := λ A B f m,
  match m with
  | Ok a => f a
  | Err e => Err e
  end.

Definition or_raise {A} (e : error) (o : option A) : res A :=
  match o with
  | Some a => Ok a
  | None => Err e
  end.

Definition assert (b : bool) : res unit :=
  if b then Ok () else Err AssertionError.

(** A [for] loop over [l] that threads the loop state and stops at the first
    exception. *)
Fixpoint foldlM {A B} (f : B → A → res B) (l : list A) (b : B) : res B :=
  match l with
  | [] => Ok b
  | x :: l' => b' ← f b x; foldlM f l' b'
  end.

(** ** Insertion-ordered dictionaries *)

Abbreviation odict A := (list (string * A)).

Fixpoint od_get {A} (k : string) (d : odict A) : option A :=
  match d with
  | [] => None
  | (k', v) :: d' => if decide (k' = k) then Some v else od_get k d'
  end.

(** [d[k] = v]: an existing key keeps its position. *)
Fixpoint od_set {A} (k : string) (v : A) (d : odict A) : odict A :=
  match d with
  | [] => [(k, v)]
  | (k', v') :: d' =>
      if decide (k' = k) then (k', v) :: d' else (k', v') :: od_set k v d'
  end.

Definition od_setdefault {A} (k : string) (v : A) (d : odict A) : odict A :=
  match od_get k d with
  | Some _ => d
  | None => od_set k v d
  end.

Definition od_keys {A} (d : odict A) : list string := d.*1.
Definition od_values {A} (d : odict A) : list A := d.*2.

(** [OrderedDict(pairs)] *)
Definition OrderedDict {A} (pairs : list (string * A)) : odict A :=
  foldl (λ d p, od_set p.1 p.2 d) [] pairs.

(** [d[k].append(x)], for a [defaultdict(list)] or after [setdefault(k, [])]. *)
Definition od_append {A} (k : string) (x : A) (d : odict (list A)) : odict (list A) :=
  od_set k (default [] (od_get k d) ++ [x]) d.

(** An ordered set, kept as the keys of an [OrderedDict] in the source. *)
Definition oset_add (x : string) (s : list string) : list string :=
  if decide (x ∈ s) then s else s ++ [x].

(** ** JSON values, records and file states *)

Inductive value : Type :=
| VNone
| VBool (b : bool)
| VNum (n : Z)
| VStr (s : string)
| VList (l : list value)
| VDict (d : gmap string value).

(** One entry of [octobus_results[benchmark]]: the dictionary under its
    ['params'] key, from parameter name to the [repr] of the value, and the
    other keys of the entry. *)
Record bench_result : Type := BenchResult {
  params : gmap string string;
  fields : gmap string value;
}.

(** [result.get(column)] is [None] (here [VNone] by [default]) on a miss,
    [result[column]] raises [KeyError]. *)
Definition result_get (result : bench_result) (column : string) : option value :=
  if decide (column = "params") then Some (VDict (VStr <$> params result))
  else fields result !! column.

(** The keys of a result file that the migrations read or write.  The other
    keys of the file are copied along untouched and are left out. *)
Record state : Type := State {
  results : option (odict (list value));
  result_columns : option (list string);
  octobus_results : option (odict (list bench_result));
  bench_param_names : option (odict (list string));
  octobus_migration_version : option string;
}.

Definition set_results (v : odict (list value)) (s : state) : state :=
  State (Some v) (result_columns s) (octobus_results s)
        (bench_param_names s) (octobus_migration_version s).
Definition set_octobus_results (v : odict (list bench_result)) (s : state) : state :=
  State (results s) (result_columns s) (Some v)
        (bench_param_names s) (octobus_migration_version s).
Definition set_bench_param_names (v : odict (list string)) (s : state) : state :=
  State (results s) (result_columns s) (octobus_results s)
        (Some v) (octobus_migration_version s).
Definition set_migration_version (v : string) (s : state) : state :=
  State (results s) (result_columns s) (octobus_results s)
        (bench_param_names s) (Some v).

Definition NO_MIGRATION_INDEX : string := "0000".
Definition INITIAL_MIGRATION_INDEX : string := "0001".
Definition INITIAL_MIGRATION : string := INITIAL_MIGRATION_INDEX +:+ "_initial".

(** ** The [AddBenchParam] operation *)

(** The Python values that migration files pass as [values] and [default]
    (floats are not modelled). *)
Inductive pyval : Type :=
| PNone
| PBool (b : bool)
| PInt (n : Z)
| PStr (s : string).

(** Python's [==] on these values: [True == 1] and [False == 0]. *)
Definition py_eqb (a b : pyval) : bool :=
  match a, b with
  | PNone, PNone => true
  | PBool x, PBool y => bool_decide (x = y)
  | PInt x, PInt y => bool_decide (x = y)
  | PBool x, PInt y | PInt y, PBool x => bool_decide ((if x then 1 else 0)%Z = y)
  | PStr x, PStr y => bool_decide (x = y)
  | _, _ => false
  end.

Definition py_in (a : pyval) (l : list pyval) : bool := existsb (py_eqb a) l.

(** [set(values)], as the list of the first occurrences. *)
Definition py_set (l : list pyval) : list pyval :=
  foldl (λ s a, if py_in a s then s else s ++ [a]) [] l.

Module AddBenchParam.

Record t : Type := Make {
  name : string;
  values : list string;
  default : string;
  (** [self.targets.match]: whether the compiled pattern matches a prefix
      of the benchmark name. *)
  targets : string → bool;
  insert_after : option string;
  insert_before : option string;
}.

Section Init.
(** [asv.benchmark._repr_no_address], [repr] with memory addresses
    stripped; it lives outside [migrations.py]. *)
Variable _repr_no_address : pyval → string.

Definition __init__ (name : string) (values : list pyval)
    (default : pyval) (targets : string → bool)
    (insert_after insert_before : option string) : res t :=
  if bool_decide (length (py_set values) < length values)
  then Err (UserError ValuesNotUnique)
  else if negb (py_eqb default PNone) && negb (py_in default values)
  then Err (UserError WrongDefault)
  else Ok (Make name (_repr_no_address <$> values)
                (_repr_no_address default) targets
                insert_after insert_before).
End Init.

Definition is_benchmark_targeted (self : t) (benchmark_name : string) : bool :=
  targets self benchmark_name.

(** An optional neighbor as the conditions of [update_param_names] see
    it: [None] and [''] are both false. *)
Definition given (o : option string) : option string :=
  match o with
  | Some s => if decide (s = "") then None else Some s
  | None => None
  end.

(** The loop of the branch taken when both neighbors are given. *)
Fixpoint insert_between (name insert_after insert_before : string)
    (bench_param_names : list string) : res (list string) :=
  match bench_param_names with
  | [] => Err (UserError (ParamNotFound name InsertAfter insert_after))
  | param_name :: rest =>
      if decide (param_name = name) then Ok bench_param_names
      else if decide (param_name = insert_after) then
        match rest with
        | [] => Err IndexError
        | next :: _ =>
            if decide (next = insert_before)
            then Ok (param_name :: name :: rest)
            else Err (UserError (NotAdjacent name insert_after insert_before))
        end
      else rest' ← insert_between name insert_after insert_before rest;
           mret (param_name :: rest')
  end.

(** The loop of the branch taken when only [insert_after] is given. *)
Fixpoint insert_behind (name insert_after : string)
    (bench_param_names : list string) : res (list string) :=
  match bench_param_names with
  | [] => Err (UserError (ParamNotFound name InsertAfter insert_after))
  | param_name :: rest =>
      if decide (param_name = name) then Ok bench_param_names
      else if decide (param_name = insert_after)
      then Ok (param_name :: name :: rest)
      else rest' ← insert_behind name insert_after rest;
           mret (param_name :: rest')
  end.

(** The loop of the branch taken when only [insert_before] is given. *)
Fixpoint insert_ahead (name insert_before : string)
    (bench_param_names : list string) : res (list string) :=
  match bench_param_names with
  | [] => Err (UserError (ParamNotFound name InsertBefore insert_before))
  | param_name :: rest =>
      if decide (param_name = name) then Ok bench_param_names
      else if decide (param_name = insert_before)
      then Ok (name :: param_name :: rest)
      else rest' ← insert_ahead name insert_before rest;
           mret (param_name :: rest')
  end.

(** The list is mutated in place in the source; the new contents are
    returned here.  The four branches of the [if]/[elif] chain are the
    four cases of which neighbors are given. *)
Definition update_param_names (self : t) (bench_param_names : list string)
    : res (list string) :=
  match given (insert_after self), given (insert_before self) with
  | None, None =>
      if decide (name self ∈ bench_param_names) then Ok bench_param_names
      else Ok (bench_param_names ++ [name self])
  | Some after, Some before =>
      insert_between (name self) after before bench_param_names
  | Some after, None => insert_behind (name self) after bench_param_names
  | None, Some before => insert_ahead (name self) before bench_param_names
  end.

Definition useless_columns : list string :=
  [ "stats_ci_99_a"; "stats_ci_99_b"; "stats_q_25"; "stats_q_75";
    "stats_number"; "stats_repeat"; "samples"; "profile" ].

(** [d.setdefault(k, v)] on a finite map. *)
Definition setdefault {A} (k : string) (v : A) (d : gmap string A) : gmap string A :=
  match d !! k with
  | Some _ => d
  | None => <[k := v]> d
  end.

(** The body of the loop over [self.values]: the record appended for one
    original [result] and one candidate [value]. *)
Definition new_result (self : t) (result : bench_result) (value : string)
    : bench_result :=
  let new_result :=
    if decide (value = default self) then
      BenchResult (setdefault (name self) (default self) (params result))
                  (fields result)
    else
      BenchResult (<[name self := value]> (params result))
                  (foldl (λ f column, delete column f)
                         (<["result" := VNone]> (fields result))
                         useless_columns) in
  BenchResult (params new_result) (<["version" := VNone]> (fields new_result)).

(** One iteration of the loop over [octobus_results.items()]; the loop
    state is [(param_names, new_octobus_results)]. *)
Definition forwards_bench (self : t)
    (acc : odict (list string) * odict (list bench_result))
    (item : string * list bench_result)
    : res (odict (list string) * odict (list bench_result)) :=
  let '(param_names, new_octobus_results) := acc in
  let '(name, bench) := item in
  if negb (is_benchmark_targeted self name)
  then Ok (param_names, od_set name bench new_octobus_results)
  else
    let param_names := od_setdefault name [] param_names in
    bench_param_names ← update_param_names self (from_option id [] (od_get name param_names));
    let param_names := od_set name bench_param_names param_names in
    let new_octobus_results := od_setdefault name [] new_octobus_results in
    mret (param_names,
          foldl (λ new result,
                   foldl (λ new value, od_append name (new_result self result value) new)
                         new (values self))
                new_octobus_results bench).

Definition forwards (self : t) (st : state) : res state :=
  param_names ← or_raise (KeyError "bench_param_names") (bench_param_names st);
  octobus_results ← or_raise (KeyError "octobus_results") (octobus_results st);
  acc ← foldlM (forwards_bench self) octobus_results (param_names, []);
  mret (set_octobus_results acc.2 (set_bench_param_names acc.1 st)).

End AddBenchParam.

(** ** Migrations *)

Module Migration.
Record t : Type := Make {
  name : string;
  operations : list AddBenchParam.t;
}.

Definition apply (self : t) (st : state) : res state :=
  foldlM (λ st operation, AddBenchParam.forwards operation st) (operations self) st.
End Migration.

(** ** Converters *)

(** [itertools.product] of the dimensions: the last one varies fastest. *)
Fixpoint product {A} (dims : list (list A)) : list (list A) :=
  match dims with
  | [] => [[]]
  | dim :: dims' => x ← dim; (x ::.) <$> product dims'
  end.

(** The ['params'] entry of a benchmark's result lines is read as one list
    of [repr] strings per parameter; anything else is rejected. *)
Definition param_value (v : value) : res string :=
  match v with
  | VStr s => Ok s
  | _ => Err TypeError
  end.

Definition param_values (v : value) : res (list string) :=
  match v with
  | VList l => mapM param_value l
  | _ => Err TypeError
  end.

Definition params_column (dims : list (list string)) : value :=
  VList ((λ dim, VList (VStr <$> dim)) <$> dims).

(** [benchmarks.json], reduced to the ['param_names'] of each benchmark. *)
Abbreviation catalog := (gmap string (list string)).

(** The loop over [result_columns] that fills the record of combination
    number [index]. *)
Definition matched_fields (result_columns : list string)
    (results_as_object : odict value) (index : nat) : gmap string value :=
  foldl (λ new_result field,
           if decide (field = "params") then new_result
           else match od_get field results_as_object with
                | None => new_result
                | Some (VList corresponding_values) =>
                    <[field := default VNone (corresponding_values !! index)]> new_result
                | Some corresponding_values =>
                    <[field := corresponding_values]> new_result
                end)
        ∅ result_columns.

(** The records of one benchmark: one per combination of parameter values. *)
Definition explode (result_columns : list string) (param_names : list string)
    (result_lines : list value) : res (list bench_result) :=
  _ ← assert (bool_decide (length result_lines ≤ length result_columns)%nat);
  let results_as_object := OrderedDict (zip result_columns result_lines) in
  raw_params ← or_raise (KeyError "params") (od_get "params" results_as_object);
  match raw_params with
  | VList raw_dims =>
      _ ← assert (bool_decide (length raw_dims ≤ length param_names)%nat);
      dims ← mapM param_values raw_dims;
      let params := OrderedDict (zip param_names dims) in
      let explosion :=
        (λ x, list_to_map (zip (od_keys params) x)) <$> product (od_values params) in
      mret (imap (λ index combo,
                    BenchResult combo
                      (matched_fields result_columns results_as_object index))
                 explosion)
  | _ => Err TypeError
  end.

(** One iteration of the loop over [results.items()]; the loop state is
    [(new["bench_param_names"], new["octobus_results"])]. *)
Definition to_octobus_bench (all_benchmarks_data : option catalog)
    (old_format_data : state)
    (acc : odict (list string) * odict (list bench_result))
    (item : string * list value)
    : res (odict (list string) * odict (list bench_result)) :=
  let '(bench_name, result_lines) := item in
  benchmarks ← or_raise TypeError all_benchmarks_data;
  match benchmarks !! bench_name with
  | None => Ok acc
  | Some param_names =>
      result_columns ← or_raise (KeyError "result_columns")
                                (result_columns old_format_data);
      new_results ← explode result_columns param_names result_lines;
      mret (od_set bench_name param_names acc.1,
            foldl (λ octobus new_result, od_append bench_name new_result octobus)
                  acc.2 new_results)
  end.

Definition to_octobus_results (all_benchmarks_data : option catalog)
    (old_format_data : state) : res state :=
  let new := set_octobus_results [] old_format_data in
  match results old_format_data with
  | None => Ok new
  | Some results =>
      acc ← foldlM (to_octobus_bench all_benchmarks_data old_format_data)
                   results ([], []);
      mret (set_octobus_results acc.2 (set_bench_param_names acc.1 new))
  end.

Definition SCALAR_COLUMNS : list string := ["version"; "started_at"; "duration"].

(** [asv_results.setdefault(column, []); asv_results[column].append(v)] *)
Definition column_append (column : string) (v : value) (asv_results : odict value)
    : res (odict value) :=
  match od_get column asv_results with
  | None => Ok (od_set column (VList [v]) asv_results)
  | Some (VList l) => Ok (od_set column (VList (l ++ [v])) asv_results)
  | Some _ => Err AttributeError
  end.

(** The loop over [bench_param_names[benchmark]] run at the ['params']
    column. *)
Definition collect_params (result : bench_result) (param_names : list string)
    (asv_params : odict (list string)) : res (odict (list string)) :=
  foldlM (λ asv_params name,
            let asv_params := od_setdefault name [] asv_params in
            param_value ← or_raise (KeyError name) (params result !! name);
            mret (od_set name (oset_add param_value (default [] (od_get name asv_params)))
                         asv_params))
         param_names asv_params.

(** The loop over [result_columns] for one record; falling out of the
    recursion without a recursive call is the [break]. *)
Fixpoint scan_columns (param_names : res (list string)) (result : bench_result)
    (columns : list string) (acc : odict value * odict (list string))
    : res (odict value * odict (list string)) :=
  match columns with
  | [] => Ok acc
  | column :: columns' =>
      asv_params ←
        (if decide (column = "params")
         then names ← param_names; collect_params result names acc.2
         else Ok acc.2);
      if decide (column ∈ SCALAR_COLUMNS)
      then scan_columns param_names result columns'
             (od_set column (default VNone (result_get result column)) acc.1, asv_params)
      else match result_get result column with
           | None => Ok (acc.1, asv_params)
           | Some corresponding_value =>
               asv_results ← column_append column corresponding_value acc.1;
               scan_columns param_names result columns' (asv_results, asv_params)
           end
  end.

(** [asv_results] once the loop over the records of one benchmark is over
    and its ['params'] entry is set. *)
Definition collect_columns (result_columns : list string)
    (param_names : res (list string)) (results : list bench_result)
    : res (odict value) :=
  acc ← foldlM (λ acc result, scan_columns param_names result result_columns acc)
               results ([], []);
  mret (od_set "params" (params_column (od_values acc.2)) acc.1).

(** The result lines of one benchmark, [list(asv_results.values())]. *)
Definition implode (result_columns : list string) (param_names : res (list string))
    (results : list bench_result) : res (list value) :=
  asv_results ← collect_columns result_columns param_names results;
  mret (od_values asv_results).

(** One iteration of the loop over [octobus_results.items()]; the loop
    state is [out_data['results']]. *)
Definition to_asv_bench (result_columns : list string)
    (bench_param_names : odict (list string)) (out : odict (list value))
    (item : string * list bench_result) : res (odict (list value)) :=
  let '(benchmark, results) := item in
  lines ← implode result_columns
            (or_raise (KeyError benchmark) (od_get benchmark bench_param_names))
            results;
  mret (od_set benchmark lines out).

Definition octobus_results_to_asv_results (data : state) : res state :=
  match octobus_results data with
  | None | Some [] => Err (UserError EmptyOctobusResults)
  | Some octobus_results =>
      result_columns ← or_raise (KeyError "result_columns") (result_columns data);
      bench_param_names ← or_raise (KeyError "bench_param_names") (bench_param_names data);
      out ← foldlM (to_asv_bench result_columns bench_param_names) octobus_results [];
      mret (set_results out data)
  end.

(** ** Migration indexes *)

Definition is_space (c : ascii) : bool :=
  let n := Ascii.N_of_ascii c in
  bool_decide (n = 32%N) || bool_decide (9 ≤ n ≤ 13)%N.

Fixpoint lstrip (s : list ascii) : list ascii :=
  match s with
  | [] => []
  | c :: s' => if is_space c then lstrip s' else s
  end.

(** [s.strip()] on the characters of [s] *)
Definition strip (s : list ascii) : list ascii :=
  reverse (lstrip (reverse (lstrip s))).

Definition digit (c : ascii) : option Z :=
  let n := Z.of_N (Ascii.N_of_ascii c) in
  if bool_decide (48 ≤ n ≤ 57)%Z then Some (n - 48)%Z else None.

Fixpoint digits (acc : Z) (s : list ascii) : option Z :=
  match s with
  | [] => Some acc
  | c :: s' => d ← digit c; digits (10 * acc + d) s'
  end.

(** [int(s)] for a decimal literal: surrounding ASCII whitespace, an optional
    sign and at least one ASCII digit; [None] stands for [ValueError]. *)
Definition int (s : string) : option Z :=
  match strip (String.list_ascii_of_string s) with
  | [] => None
  | c :: s' =>
      if decide (c = "+"%char) then (if s' is [] then None else digits 0 s')
      else if decide (c = "-"%char)
      then (if s' is [] then None else Z.opp <$> digits 0 s')
      else digits 0 (c :: s')
  end.

(** [s.split('_')[0]] *)
Fixpoint split_head (s : string) : string :=
  match s with
  | EmptyString => EmptyString
  | String c s' => if decide (c = "_"%char) then EmptyString else String c (split_head s')
  end.

Definition get_migration_index (migration_name : string) : res Z :=
  let literal := split_head migration_name in
  or_raise (ValueError literal) (int literal).

Definition get_file_migration_index (data : state) : res Z :=
  get_migration_index (default NO_MIGRATION_INDEX (octobus_migration_version data)).

(** ** Paths and the version check *)

(** Whether ['/'] occurs in [p]. *)
Fixpoint has_slash (p : string) : bool :=
  match p with
  | EmptyString => false
  | String c p' => bool_decide (c = "/"%char) || has_slash p'
  end.

(** [os.path.basename(p)]: what follows the last ['/'], all of [p] when there
    is none. *)
Fixpoint basename (p : string) : string :=
  match p with
  | EmptyString => EmptyString
  | String c p' =>
      if bool_decide (c = "/"%char) || has_slash p' then basename p' else p
  end.

Definition get_migration_index_from_path (migration_path : string) : res Z :=
  get_migration_index (basename migration_path).

(** What [check_migration_version] does: it returns the pair of indexes,
    raises [UserError] with one of its two messages, or lets the exception
    of [get_file_migration_index] through. *)
Inductive version_check : Type :=
| Checked (current_migration_idx file_migration_index : Z)
| NeedsMigration (path : string) (file_migration_index current_migration_idx : Z)
| NewerMigration (path : string) (file_migration_index current_migration_idx : Z)
| Raised (e : error).

Definition check_migration_version (current_migration_idx : Z) (path : string)
    (data : state) (is_update : bool) : version_check :=
  match get_file_migration_index data with
  | Err e => Raised e
  | Ok file_migration_index =>
      if negb is_update && bool_decide (file_migration_index < current_migration_idx)%Z
      then NeedsMigration path file_migration_index current_migration_idx
      else if bool_decide (file_migration_index > current_migration_idx)%Z
      then NewerMigration path file_migration_index current_migration_idx
      else Checked current_migration_idx file_migration_index
  end.

(** ** The executor *)

(** [sorted(pairs, key=...)] is stable: an element goes in front of the
    elements already placed whose key is not smaller. *)
Fixpoint insert_sorted (x : Z * string) (l : list (Z * string)) : list (Z * string) :=
  match l with
  | [] => [x]
  | y :: l' => if bool_decide (x.1 ≤ y.1)%Z then x :: l else y :: insert_sorted x l'
  end.

Definition sorted (l : list (Z * string)) : list (Z * string) :=
  foldr insert_sorted [] l.

Module Executor.

(** [all_migrations] holds the keys of the source's [OrderedDict] (the
    file paths it maps them to only serve to load the modules);
    [migrations_modules] gives the [operations] of the [Migration] class
    that loading the file of that name yields. *)
Record t : Type := Make {
  all_migrations : list string;
  target : string;
  all_benchmarks_data : option catalog;
  migrations_modules : string → list AddBenchParam.t;
}.

(** The loop of [__init__] that checks for conflicting indexes. *)
Fixpoint check_indexes (seen : gmap Z string) (last_index : Z)
    (names : list string) : res unit :=
  match names with
  | [] => Ok ()
  | name :: names' =>
      index ← get_migration_index name;
      match seen !! index with
      | Some conflict => Err (UserError (ConflictingIndex conflict name))
      | None =>
          if decide (last_index ≠ index - 1)%Z
          then Err (UserError (NonContiguousIndex last_index index))
          else check_indexes (<[index := name]> seen) index names'
      end
  end.

(** The keys of [OrderedDict(sorted(..., key=...))] for the module names
    found in the migrations folder, in the order [glob] lists them. *)
Definition sorted_names (found : list string) : res (list string) :=
  keyed ← mapM (λ name, index ← get_migration_index name; mret (index, name)) found;
  mret (od_keys (OrderedDict ((λ p : Z * string, (p.2, ())) <$> sorted keyed))).

Definition __init__ (found : list string) (modules : string → list AddBenchParam.t)
    (all_benchmarks_data : option catalog) (target : option string) : res t :=
  all_migrations ← sorted_names found;
  match last all_migrations with
  | None => Err NoMigrationFilesFound
  | Some latest =>
      target ← match target with
               | None => Ok latest
               | Some target =>
                   if decide (target ∈ all_migrations) then Ok target
                   else Err (UnknownTarget target)
               end;
      _ ← check_indexes ∅ 0 all_migrations;
      mret (Make all_migrations target all_benchmarks_data modules)
  end.

Definition all_migrations_indexes (self : t) : res (list Z) :=
  mapM get_migration_index (all_migrations self).

Definition get_migration_instance (self : t) (name : string) : Migration.t :=
  Migration.Make name (migrations_modules self name).

Definition get_pending_migrations_names (self : t) (file_contents : state)
    : res (list string) :=
  file_migration_idx ← get_file_migration_index file_contents;
  if decide (file_migration_idx = 0)%Z then Err NotReadyForMigrationsError
  else
    indexes ← all_migrations_indexes self;
    if decide (file_migration_idx ∉ indexes)
    then Err (MigrationDoesNotExist file_migration_idx)
    else
      target_index ← get_migration_index (target self);
      foldlM (λ (pending : list string) (migration : string),
                index ← get_migration_index migration;
                if decide (file_migration_idx < index ≤ target_index)%Z
                then mret (pending ++ [migration])
                else mret pending)
             (all_migrations self) [].

Definition get_pending_migrations (self : t) (file_contents : state)
    : res (list Migration.t) :=
  pending_names ← get_pending_migrations_names self file_contents;
  mret (get_migration_instance self <$> (pending_names : list string)).

Definition migrate_file (self : t) (file_contents : state) : res state :=
  ready ←
    match get_pending_migrations self file_contents with
    | Err NotReadyForMigrationsError =>
        file_contents ← to_octobus_results (all_benchmarks_data self) file_contents;
        let file_contents := set_migration_version INITIAL_MIGRATION file_contents in
        pending ← get_pending_migrations self file_contents;
        mret (file_contents, pending)
    | Err e => Err e
    | Ok pending => Ok (file_contents, pending)
    end;
  let '(file_contents, pending) := (ready : state * list Migration.t) in
  if decide (length pending = 0) then Ok file_contents
  else
    file_contents ← foldlM (λ st migration, Migration.apply migration st)
                           pending file_contents;
    let file_contents := set_migration_version (target self) file_contents in
    octobus_results_to_asv_results file_contents.

(** The last key of the registry, or the integer [int(NO_MIGRATION_INDEX)]
    when the registry is empty. *)
Definition current_migration_name (self : t) : res (Z + string) :=
  match last (all_migrations self) with
  | None =>
      index ← or_raise (ValueError NO_MIGRATION_INDEX) (int NO_MIGRATION_INDEX);
      mret (inl index)
  | Some name => mret (inr name)
  end.

(** [os.path.basename] raises [TypeError] on the integer. *)
Definition current_migration_index (self : t) : res Z :=
  name ← current_migration_name self;
  match name with
  | inl _ => Err TypeError
  | inr name => get_migration_index_from_path name
  end.

End Executor.

(** * Vocabulary of the properties

    The definitions below are not part of the program: they name what the
    properties talk about. *)

(** Whether the index of a migration name lies in [(lo, hi]]. *)
Definition index_within (lo hi : Z) (name : string) : Prop :=
  match get_migration_index name with
  | Ok index => (lo < index ≤ hi)%Z
  | Err _ => False
  end.

#[global] Instance index_within_dec lo hi name : Decision (index_within lo hi name) :=
  match get_migration_index name as r
        return Decision (match r with
                         | Ok index => (lo < index ≤ hi)%Z
                         | Err _ => False
                         end)
  with
  | Ok index => decide (lo < index ≤ hi)%Z
  | Err _ => right (λ H : False, H)
  end.

(** Ascending order on migration names is the order of their indexes. *)
Definition index_lt (a b : string) : Prop :=
  ∃ i j, get_migration_index a = Ok i ∧ get_migration_index b = Ok j ∧ (i < j)%Z.

(** The record list an operation leaves for a targeted benchmark. *)
Definition expand (self : AddBenchParam.t) (bench : list bench_result) : list bench_result :=
  result ← bench; AddBenchParam.new_result self result <$> AddBenchParam.values self.

(** The record list [forwards] leaves for the benchmark [name]. *)
Definition forwards_entry (self : AddBenchParam.t) (name : string)
    (bench : list bench_result) : list bench_result :=
  if AddBenchParam.is_benchmark_targeted self name then expand self bench else bench.

(** Whether the scan of [columns] for [result] gets as far as [column]: no
    non-scalar column in front of it is missing from the record. *)
Fixpoint reaches (result : bench_result) (column : string) (columns : list string) : bool :=
  match columns with
  | [] => false
  | c :: columns' =>
      if decide (c = column) then true
      else if decide (c ∈ SCALAR_COLUMNS) then reaches result column columns'
      else if result_get result c is Some _ then reaches result column columns'
      else false
  end.

(** [result.get(column)], null when the record lacks the column. *)
Definition column_value (result : bench_result) (column : string) : value :=
  default VNone (result_get result column).

(** The values a list-valued entry of [asv_results] holds so far. *)
Definition collected (old : option value) : list value :=
  match old with
  | Some (VList l) => l
  | _ => []
  end.

(** The entry of [asv_results] for [column] once [result] is scanned, from
    the entry [old] it had before. *)
Definition next_column (result : bench_result) (column : string) (old : option value) : value :=
  if decide (column ∈ SCALAR_COLUMNS) then column_value result column
  else VList (collected old ++ [column_value result column]).

(** The entry of [asv_params] for [name] once [result] is scanned. *)
Definition next_param (result : bench_result) (name : string)
    (old : option (list string)) : list string :=
  oset_add (default "" (params result !! name)) (default [] old).

(** [d[k] = f(k, d.get(k))] *)
Definition od_update {A} (f : string → option A → A) (d : odict A) (k : string) : odict A :=
  od_set k (f k (od_get k d)) d.

(** Order-preserving removal of duplicates. *)
Definition oset_of (l : list string) : list string :=
  foldl (λ s x, oset_add x s) [] l.

(** [asv_results] after the scan of the records [results], all of which
    hold the columns [present]. *)
Definition columns_of (present : list string) (results : list bench_result) : odict value :=
  (λ c, (c, if decide (c ∈ SCALAR_COLUMNS)
            then from_option (λ result, column_value result c) VNone (last results)
            else VList ((λ result, column_value result c) <$> results)))
  <$> present.

(** [asv_params] after the scan of the records [results]. *)
Definition params_of (names : list string) (results : list bench_result)
    : odict (list string) :=
  (λ name, (name, oset_of ((λ result, default "" (params result !! name)) <$> results)))
  <$> names.

(** A record the scan of which runs through the columns [present] and stops
    at the head of [rest], if any. *)
Definition scannable (names present rest : list string) (result : bench_result) : Prop :=
  (∀ c, c ∈ present → c ∉ SCALAR_COLUMNS → is_Some (result_get result c))
  ∧ (∀ name, name ∈ names → is_Some (params result !! name))
  ∧ match rest with
    | [] => True
    | c :: _ => (c ≠ "params") ∧ (c ∉ SCALAR_COLUMNS) ∧ (result_get result c = None)
    end.

(** What [matched_fields] puts under one key. *)
Definition matched (results_as_object : odict value) (index : nat) (field : string)
    : option value :=
  match od_get field results_as_object with
  | Some (VList corresponding_values) => Some (default VNone (corresponding_values !! index))
  | other => other
  end.

(** The result lines of one benchmark that a full cartesian expansion over
    the value lists [dims] of its parameters [param_names] accounts for. *)
Record expanded (result_columns param_names : list string)
    (dims : list (list string)) (result_lines : list value) : Prop := Expanded {
  expanded_columns : NoDup result_columns;
  expanded_length : length result_lines ≤ length result_columns;
  expanded_params :
    ∃ i, i < length result_lines ∧ result_columns !! i = Some "params";
  expanded_stop :
    ∀ column, result_columns !! length result_lines = Some column →
              column ∉ SCALAR_COLUMNS;
  expanded_names : NoDup param_names ∧ length param_names = length dims;
  expanded_dims : Forall (λ dim, dim ≠ [] ∧ NoDup dim) dims;
  expanded_lines :
    ∀ i column line,
      result_columns !! i = Some column → result_lines !! i = Some line →
      if decide (column = "params") then line = params_column dims
      else if decide (column ∈ SCALAR_COLUMNS) then ∀ l, line ≠ VList l
      else ∃ l, line = VList l ∧ length l = length (product dims);
}.

(** The records of that expansion. *)
Definition records_of (result_columns param_names : list string)
    (dims : list (list string)) (result_lines : list value) : list bench_result :=
  imap (λ index x,
          BenchResult (list_to_map (zip param_names x))
                      (matched_fields result_columns (zip result_columns result_lines) index))
       (product dims).

(** A benchmark of the column form that the catalog knows and whose lines
    are a full expansion over the catalog's parameter names. *)
Definition expanded_entry (benchmarks : catalog) (result_columns : list string)
    (item : string * list value) : Prop :=
  ∃ param_names dims,
    benchmarks !! item.1 = Some param_names
    ∧ expanded result_columns param_names dims item.2.

(** What the object form holds for such a benchmark. *)
Definition exploded_entry (benchmarks : catalog) (result_columns : list string)
    (item : string * list value) (entry : string * list bench_result) : Prop :=
  entry.1 = item.1
  ∧ ∃ param_names dims,
      benchmarks !! item.1 = Some param_names
      ∧ expanded result_columns param_names dims item.2
      ∧ entry.2 = records_of result_columns param_names dims item.2.

(** ** Kinds of exceptions *)

(** The exceptions that come from the contents of a file or from the
    operations of a migration, as opposed to those about the registry. *)
Definition data_error (e : error) : Prop :=
  match e with
  | NotReadyForMigrationsError | NoMigrationFilesFound
  | MigrationDoesNotExist _ | UnknownTarget _ => False
  | _ => True
  end.

(** ** Sample registries, operations and result files *)

(** The registry of the test suite, its latest migration as target. *)
Definition three_migrations : Executor.t :=
  Executor.Make ["0001_initial"; "0002_whatever"; "0003_whatever"] "0003_whatever"
                None (λ _, []).

(** A registry of two migrations with the first one as target. *)
Definition back_to_initial : Executor.t :=
  Executor.Make ["0001_initial"; "0002_whatever"] "0001_initial" None (λ _, []).

Definition after_a_before_d : AddBenchParam.t :=
  AddBenchParam.Make "b" ["None"] "None" (λ _, true) (Some "a") (Some "d").

Definition add_max_worker_count : AddBenchParam.t :=
  AddBenchParam.Make "max_worker_count" ["1"; "2"] "1"
                     (λ name, bool_decide (name = "status.mard.track")) None None.

(** The same registry with the second one as target; it adds a parameter. *)
Definition forward_to_second : Executor.t :=
  Executor.Make ["0001_initial"; "0002_whatever"] "0002_whatever" None
                (λ name, if decide (name = "0002_whatever")
                         then [add_max_worker_count] else []).

(** [repr] on the modelled values, for strings without quotes or
    backslashes. *)
Definition repr_plain (v : pyval) : string :=
  match v with
  | PNone => "None"
  | PBool true => "True"
  | PBool false => "False"
  | PInt n => pretty n
  | PStr s => "'" +:+ s +:+ "'"
  end.

(** A record with a measured result and one statistics field. *)
Definition measured (result : Z) (repo : string) : bench_result :=
  BenchResult {[ "repo" := repo ]}
              {[ "result" := VNum result; "stats_q_25" := VNum 6 ]}.

Definition versioned (result : Z) (version : string) : bench_result :=
  BenchResult ∅ {[ "result" := VNum result; "version" := VStr version ]}.

Definition two_benchmarks : state :=
  State None (Some ["result"; "params"; "version"])
        (Some [("status.mard.track", [measured 1 "'test'"; measured 2 "'test2'"]);
               ("other", [measured 3 "'test'"])])
        (Some [("status.mard.track", ["repo"]); ("other", ["repo"])])
        (Some "0001_initial").

Definition at_second_migration : state :=
  State None (Some ["result"; "params"; "version"])
        (Some [("status.mard.track", [versioned 1 "a"])])
        (Some [("status.mard.track", [])])
        (Some "0002_whatever").

(** Two parameters of two values each; four results, two of them measured. *)
Definition two_by_two : state :=
  State (Some [("time_bench",
                [VList [VNum 1; VNone; VNum 10; VNone];
                 params_column [["'zlib'"; "'zstd'"]; ["1"; "2"]];
                 VStr "version"; VNum 2; VNum 3;
                 VList [VNum 4; VNone; VNum 40; VNone]])])
        (Some ["result"; "params"; "version"; "started_at"; "duration";
               "stats_ci_99_a"; "stats_ci_99_b"])
        None None None.

Definition two_by_two_catalog : catalog :=
  {[ "time_bench" := ["compression"; "max_worker_count"] ]}.

(** Result lines that end before the declared [version] field. *)
Definition trimmed : state :=
  State (Some [("bench", [VList [VNum 1]; params_column [["'a'"]]])])
        (Some ["result"; "params"; "version"])
        None None None.

(** * Properties *)

(** ** The error monad *)

Lemma bind_Ok {A B} (m : res A) (f : A → res B) (b : B) :
  m ≫= f = Ok b ↔ ∃ a, m = Ok a ∧ f a = Ok b.
Proof.
  destruct m as [a|e]; simpl; split.
  - intros H. by exists a.
  - by intros (a' & [= ->] & H).
  - discriminate.
  - by intros (a' & [=] & _).
Qed.

Lemma bind_Err {A B} (m : res A) (f : A → res B) (e : error) :
  m ≫= f = Err e ↔ m = Err e ∨ ∃ a, m = Ok a ∧ f a = Err e.
Proof.
  destruct m as [a|e']; simpl; split.
  - intros H. right. by exists a.
  - intros [[=]|(a' & [= ->] & H)]. done.
  - intros [= ->]. by left.
  - intros [[= ->]|(a' & [=] & _)]. done.
Qed.

Lemma mapM_res_cons {A B} (f : A → res B) (x : A) (l : list A) :
  mapM f (x :: l) = y ← f x; k ← mapM f l; mret (y :: k).
Proof. done. Qed.

Lemma mapM_res_Ok_lookup {A B} (f : A → res B) (l : list A) (k : list B) :
  mapM f l = Ok k ↔ Forall2 (λ x y, f x = Ok y) l k.
Proof.
  revert k. induction l as [|x l IH]; intros k.
  - split.
    + intros [= <-]. constructor.
    + intros ->%Forall2_nil_inv_l. done.
  - rewrite mapM_res_cons, bind_Ok. split.
    + intros (y & Hy & (k' & Hk' & [= <-])%bind_Ok).
      constructor; [done|]. by apply IH.
    + intros (y & k' & Hy & Hk' & ->)%Forall2_cons_inv_l.
      exists y. split; [done|]. apply bind_Ok. exists k'. split; [|done]. by apply IH.
Qed.

(** ** Insertion-ordered dictionaries *)

Section odict.
Context {A : Type}.
Implicit Types (d : odict A) (k : string) (v : A).

Lemma od_get_None d k : od_get k d = None ↔ k ∉ od_keys d.
Proof.
  unfold od_keys. induction d as [|[k' v'] d IH]; simpl.
  - split; [set_solver|done].
  - destruct (decide (k' = k)) as [->|]; [set_solver|].
    rewrite IH. set_solver.
Qed.

Lemma od_get_Some_keys d k v : od_get k d = Some v → k ∈ od_keys d.
Proof.
  intros Hget. destruct (decide (k ∈ od_keys d)) as [|Hk]; [done|].
  apply od_get_None in Hk. congruence.
Qed.

Lemma od_get_app d d' k :
  od_get k (d ++ d') = match od_get k d with Some v => Some v | None => od_get k d' end.
Proof.
  induction d as [|[k' v'] d IH]; simpl; [done|]. by destruct (decide _).
Qed.

Lemma od_set_app_fresh d d' k v :
  k ∉ od_keys d → od_set k v (d ++ d') = d ++ od_set k v d'.
Proof.
  unfold od_keys. induction d as [|[k' v'] d IH]; simpl; [done|]. intros Hk.
  rewrite decide_False by set_solver. rewrite IH by set_solver. done.
Qed.

Lemma od_set_fresh d k v : k ∉ od_keys d → od_set k v d = d ++ [(k, v)].
Proof.
  intros Hk. rewrite <-(app_nil_r d) at 1. by rewrite od_set_app_fresh.
Qed.

Lemma od_get_set d k k' v :
  od_get k (od_set k' v d) = if decide (k' = k) then Some v else od_get k d.
Proof.
  induction d as [|[k'' v''] d IH]; simpl.
  - by destruct (decide _).
  - destruct (decide (k'' = k')) as [->|]; simpl.
    + by destruct (decide _).
    + rewrite IH. destruct (decide (k'' = k)) as [->|]; [|done].
      by rewrite decide_False by done.
Qed.

Lemma od_keys_set d k v :
  od_keys (od_set k v d) = if decide (k ∈ od_keys d) then od_keys d else od_keys d ++ [k].
Proof.
  unfold od_keys. induction d as [|[k' v'] d IH]; [done|].
  cbn [od_set]. destruct (decide (k' = k)) as [->|].
  - rewrite !fmap_cons. cbn [fst]. by rewrite decide_True by set_solver.
  - rewrite !fmap_cons, IH. cbn [fst]. destruct (decide (k ∈ d.*1)).
    + by rewrite decide_True by set_solver.
    + by rewrite decide_False by set_solver.
Qed.

Lemma od_get_fmap {B} (g : string → A → B) d k :
  od_get k ((λ p, (p.1, g p.1 p.2)) <$> d) = g k <$> od_get k d.
Proof.
  induction d as [|[k' v'] d IH]; simpl; [done|].
  destruct (decide (k' = k)) as [->|]; [done|]. apply IH.
Qed.
End odict.

(** ** The registry *)

Lemma get_migration_index_Err (name : string) (e : error) :
  get_migration_index name = Err e → ∃ literal, e = ValueError literal.
Proof.
  unfold get_migration_index. destruct (int _); simpl; [done|].
  intros [= <-]. eauto.
Qed.

Lemma mapM_index_Err (names : list string) (e : error) :
  mapM get_migration_index names = Err e → ∃ literal, e = ValueError literal.
Proof.
  induction names as [|name names IH]; [done|].
  rewrite mapM_res_cons. intros [H|(i & _ & H)]%bind_Err.
  - by eapply get_migration_index_Err.
  - apply bind_Err in H as [H|(k & _ & [=])]. by apply IH.
Qed.

(** A successful run of the checking loop leaves no choice for the indexes:
    they count up from the index last seen. *)
Lemma check_indexes_Ok (names : list string) (seen : gmap Z string) (last_index : Z) :
  Executor.check_indexes seen last_index names = Ok () →
  mapM get_migration_index names = Ok (seqZ (last_index + 1) (Z.of_nat (length names))).
Proof.
  revert seen last_index.
  induction names as [|name names IH]; intros seen last_index; [done|].
  simpl Executor.check_indexes. intros (index & Hindex & H)%bind_Ok.
  destruct (seen !! index); [done|].
  destruct (decide _) as [|Heq%dec_stable]; [done|].
  apply IH in H. rewrite mapM_res_cons, Hindex. simpl. rewrite H. simpl.
  rewrite (seqZ_cons (last_index + 1)) by (simpl length; lia).
  do 3 f_equal; simpl length; lia.
Qed.

Lemma init_Ok found modules benchmarks target (self : Executor.t) :
  Executor.__init__ found modules benchmarks target = Ok self →
  Executor.sorted_names found = Ok (Executor.all_migrations self)
  ∧ Executor.all_migrations self ≠ []
  ∧ Executor.target self ∈ Executor.all_migrations self
  ∧ Executor.check_indexes ∅ 0 (Executor.all_migrations self) = Ok ().
Proof.
  unfold Executor.__init__. intros (names & Hnames & H)%bind_Ok.
  destruct (last names) as [latest|] eqn:Hlast; [|done].
  apply bind_Ok in H as (tgt & Htgt & (u & Hcheck & [= <-])%bind_Ok).
  simpl. destruct u. repeat split; try done.
  - by intros ->.
  - destruct target as [t|].
    + destruct (decide _); by simplify_eq.
    + simplify_eq. apply last_Some in Hlast as [l' ->]. set_solver.
Qed.

Lemma init_indexes found modules benchmarks target (self : Executor.t) :
  Executor.__init__ found modules benchmarks target = Ok self →
  Executor.all_migrations_indexes self
    = Ok (seqZ 1 (Z.of_nat (length (Executor.all_migrations self)))).
Proof.
  intros (_ & _ & _ & H)%init_Ok. by apply check_indexes_Ok in H.
Qed.

Lemma pending_loop (lo hi : Z) (names pending : list string) (indexes : list Z) :
  mapM get_migration_index names = Ok indexes →
  foldlM (λ (pending : list string) (migration : string),
            index ← get_migration_index migration;
            if decide (lo < index ≤ hi)%Z
            then mret (pending ++ [migration]) else mret pending)
         names pending
  = Ok (pending ++ filter (index_within lo hi) names).
Proof.
  revert pending indexes.
  induction names as [|name names IH]; intros pending indexes.
  - intros _. simpl. by rewrite app_nil_r.
  - rewrite mapM_res_cons.
    intros (index & Hindex & (k & Hk & _)%bind_Ok)%bind_Ok.
    simpl foldlM. rewrite Hindex. simpl. rewrite filter_cons.
    destruct (decide (lo < index ≤ hi)%Z) as [Hin|Hout]; simpl.
    + rewrite (IH _ _ Hk). rewrite decide_True.
      * by rewrite <-app_assoc.
      * unfold index_within. by rewrite Hindex.
    + rewrite (IH _ _ Hk). rewrite decide_False; [done|].
      unfold index_within. by rewrite Hindex.
Qed.

Lemma StronglySorted_seqZ (m : Z) (n : nat) : StronglySorted Z.lt (seqZ m (Z.of_nat n)).
Proof.
  induction n as [|n IH]; [constructor|].
  rewrite seqZ_S. apply StronglySorted_app; split_and!.
  - intros i j Hi%elem_of_seqZ ->%list_elem_of_singleton. lia.
  - done.
  - repeat constructor.
Qed.

Lemma StronglySorted_by_index (names : list string) (indexes : list Z) :
  mapM get_migration_index names = Ok indexes →
  StronglySorted Z.lt indexes → StronglySorted index_lt names.
Proof.
  rewrite mapM_res_Ok_lookup. induction 1 as [|name i names indexes Hi Hrest IH].
  - constructor.
  - intros [Hall Hsorted]%StronglySorted_cons. constructor; [by apply IH|].
    apply Forall_forall. intros name' Hname'.
    apply list_elem_of_lookup in Hname' as [n Hn].
    destruct (Forall2_lookup_l _ _ _ _ _ Hrest Hn) as (j & Hj & Hij).
    exists i, j. split_and!; [done..|].
    eapply Forall_forall in Hall; [done|]. by eapply list_elem_of_lookup_2.
Qed.

Lemma StronglySorted_filter {A} (R : relation A) (P : A → Prop)
    `{!∀ x, Decision (P x)} (l : list A) :
  StronglySorted R l → StronglySorted R (filter P l).
Proof.
  induction 1 as [|x l Hl IH Hx]; [constructor|].
  rewrite filter_cons. destruct (decide (P x)); [|done].
  constructor; [done|]. apply Forall_forall. intros y [_ Hy]%list_elem_of_filter.
  by eapply Forall_forall in Hx.
Qed.

Lemma index_of_member (names : list string) (indexes : list Z) (name : string) :
  mapM get_migration_index names = Ok indexes → name ∈ names →
  ∃ index, get_migration_index name = Ok index ∧ index ∈ indexes.
Proof.
  rewrite mapM_res_Ok_lookup. intros Hall [n Hn]%list_elem_of_lookup.
  destruct (Forall2_lookup_l _ _ _ _ _ Hall Hn) as (j & Hj & Hij).
  exists j. split; [done|]. by eapply list_elem_of_lookup_2.
Qed.

(** The loop passes over a gap-free, duplicate-free prefix and remembers
    every name of it under its index. *)
Lemma check_indexes_prefix (pre rest : list string) (seen : gmap Z string) (last_index : Z) :
  mapM get_migration_index pre = Ok (seqZ (last_index + 1) (Z.of_nat (length pre))) →
  (∀ j, (last_index < j)%Z → seen !! j = None) →
  ∃ seen',
    Executor.check_indexes seen last_index (pre ++ rest)
      = Executor.check_indexes seen' (last_index + Z.of_nat (length pre)) rest
    ∧ (∀ j, (last_index + Z.of_nat (length pre) < j)%Z → seen' !! j = None)
    ∧ (∀ j, (j ≤ last_index)%Z → seen' !! j = seen !! j)
    ∧ (∀ j, (last_index < j ≤ last_index + Z.of_nat (length pre))%Z →
         ∃ name, name ∈ pre ∧ get_migration_index name = Ok j ∧ seen' !! j = Some name).
Proof.
  revert seen last_index. induction pre as [|name pre IH]; intros seen last_index Hpre Hseen.
  - exists seen. simpl. rewrite Z.add_0_r. split_and!; [done..|]. intros j ?. lia.
  - rewrite mapM_res_cons in Hpre.
    apply bind_Ok in Hpre as (index & Hindex & (k & Hk & [= Heq])%bind_Ok).
    rewrite (seqZ_cons (last_index + 1)) in Heq by (simpl length; lia).
    injection Heq as -> ->.
    replace (Z.pred (Z.of_nat (S (length pre)))) with (Z.of_nat (length pre)) in Hk by lia.
    replace (Z.succ (last_index + 1)) with ((last_index + 1) + 1)%Z in Hk by lia.
    destruct (IH (<[(last_index + 1)%Z := name]> seen) (last_index + 1)%Z Hk)
      as (seen' & Hrun & Habove & Hbelow & Hin).
    { intros j Hj. rewrite lookup_insert_ne by lia. apply Hseen. lia. }
    exists seen'. split_and!.
    + simpl. rewrite Hindex. simpl. rewrite Hseen by lia.
      rewrite decide_False by lia. rewrite Hrun. f_equal. lia.
    + intros j Hj. apply Habove. simpl in Hj. lia.
    + intros j Hj. rewrite Hbelow by lia. rewrite lookup_insert_ne by lia. done.
    + intros j Hj. simpl in Hj. destruct (decide (j = last_index + 1)%Z) as [->|].
      * exists name. split_and!; [set_solver|done|].
        rewrite Hbelow by lia. by rewrite lookup_insert_eq.
      * destruct (Hin j) as (name' & ? & ? & ?); [lia|].
        exists name'. split_and!; [set_solver|done..].
Qed.

(** C9: computing the pending migrations raises [MigrationDoesNotExist]
    exactly when the index recorded in the file is not the never-migrated
    index 0 and is not among the indexes of the registry; in particular no
    such error is raised when the recorded index is in the registry. *)
Theorem unknown_marker_iff (self : Executor.t) (file_contents : state) (index : Z) :
  Executor.get_pending_migrations_names self file_contents
    = Err (MigrationDoesNotExist index)
  ↔ get_file_migration_index file_contents = Ok index
    ∧ index ≠ 0%Z
    ∧ ∃ indexes, Executor.all_migrations_indexes self = Ok indexes ∧ index ∉ indexes.
Proof.
  unfold Executor.get_pending_migrations_names. split.
  - intros [H|(file_index & Hfile & H)]%bind_Err.
    { by apply get_migration_index_Err in H as [? ?]. }
    destruct (decide (file_index = 0%Z)); [done|].
    apply bind_Err in H as [H|(indexes & Hindexes & H)].
    { by apply mapM_index_Err in H as [? ?]. }
    destruct (decide (file_index ∉ indexes)) as [Hnotin|].
    + injection H as ->. eauto.
    + apply bind_Err in H as [H|(target_index & _ & H)].
      { by apply get_migration_index_Err in H as [? ?]. }
      unfold Executor.all_migrations_indexes in Hindexes.
      erewrite pending_loop in H by done. done.
  - intros (-> & Hindex & indexes & -> & Hnotin). simpl.
    rewrite decide_False by done. by rewrite decide_True.
Qed.

(** C3: for a registry that passed construction and a file whose recorded
    index is the index of a registered migration, the pending migrations
    are exactly the registered ones with
    [file_index < index ≤ target_index], in ascending order of index; there
    are none when [target_index ≤ file_index]. *)
Theorem pending_migrations_in_range found modules benchmarks target
    (self : Executor.t) (file_contents : state) (file_index : Z) :
  Executor.__init__ found modules benchmarks target = Ok self →
  get_file_migration_index file_contents = Ok file_index →
  (∃ name, name ∈ Executor.all_migrations self
           ∧ get_migration_index name = Ok file_index) →
  ∃ target_index pending,
    get_migration_index (Executor.target self) = Ok target_index
    ∧ Executor.get_pending_migrations_names self file_contents = Ok pending
    ∧ pending = filter (index_within file_index target_index)
                       (Executor.all_migrations self)
    ∧ StronglySorted index_lt pending
    ∧ ((target_index ≤ file_index)%Z → pending = []).
Proof.
  intros Hinit Hfile (name & Hname & Hindex).
  pose proof (init_indexes _ _ _ _ _ Hinit) as Hindexes.
  destruct (init_Ok _ _ _ _ _ Hinit) as (_ & _ & Htarget & _).
  unfold Executor.all_migrations_indexes in Hindexes.
  destruct (index_of_member _ _ _ Hindexes Htarget) as (target_index & Htidx & _).
  destruct (index_of_member _ _ _ Hindexes Hname) as (i & Hi & Hin).
  rewrite Hindex in Hi. injection Hi as <-.
  apply elem_of_seqZ in Hin.
  exists target_index, (filter (index_within file_index target_index)
                               (Executor.all_migrations self)).
  split_and!; [done| |done| |].
  - unfold Executor.get_pending_migrations_names, Executor.all_migrations_indexes.
    rewrite Hfile. simpl. rewrite decide_False by lia.
    rewrite Hindexes. simpl. rewrite decide_False.
    2:{ intros Hnot. apply Hnot, elem_of_seqZ. lia. }
    rewrite Htidx. simpl. by erewrite pending_loop.
  - apply StronglySorted_filter. eapply StronglySorted_by_index; [done|].
    apply StronglySorted_seqZ.
  - intros Hle. apply elem_of_nil_inv.
    intros x [Hx _]%list_elem_of_filter. unfold index_within in Hx.
    destruct (get_migration_index x); [lia|done].
Qed.

Lemma pending_migrations_in_range_witness :
  ∃ target_index pending,
    get_migration_index (Executor.target three_migrations) = Ok target_index
    ∧ Executor.get_pending_migrations_names three_migrations
        (State None None None None (Some "0001_initial")) = Ok pending
    ∧ pending = filter (index_within 1 target_index)
                       (Executor.all_migrations three_migrations)
    ∧ StronglySorted index_lt pending
    ∧ ((target_index ≤ 1)%Z → pending = []).
Proof.
  apply (pending_migrations_in_range
           ["0003_whatever"; "0001_initial"; "0002_whatever"] (λ _, []) None None).
  - reflexivity.
  - reflexivity.
  - exists "0001_initial". split; [|reflexivity]. repeat constructor.
Defined.

Lemma unknown_marker_iff_witness :
  Executor.get_pending_migrations_names three_migrations
    (State None None None None (Some "0007_whatever"))
  = Err (MigrationDoesNotExist 7).
Proof.
  apply unknown_marker_iff. split_and!.
  - reflexivity.
  - discriminate.
  - exists [1; 2; 3]%Z. split; [reflexivity|].
    apply (bool_decide_unpack _). reflexivity.
Defined.

(** C8, as the code has it: construction succeeds only when the indexes are
    exactly [1..N] with [N ≥ 1]; an empty collection fails with
    [NoMigrationFilesFound]; and, once the target is resolved, the first
    name in sorted order that breaks the run [1..k] of the names before it
    decides the error: [ConflictingIndex] when its index repeats one of
    [1..k], [NonContiguousIndex] when its index is neither one of those nor
    [k + 1]. *)
Theorem init_validates_indexes found modules benchmarks target :
  (∀ self, Executor.__init__ found modules benchmarks target = Ok self →
     Executor.all_migrations self ≠ []
     ∧ Executor.all_migrations_indexes self
       = Ok (seqZ 1 (Z.of_nat (length (Executor.all_migrations self)))))
  ∧ (found = [] →
     Executor.__init__ found modules benchmarks target = Err NoMigrationFilesFound)
  ∧ (∀ pre name rest index,
       Executor.sorted_names found = Ok (pre ++ name :: rest) →
       (∀ t, target = Some t → t ∈ pre ++ name :: rest) →
       mapM get_migration_index pre = Ok (seqZ 1 (Z.of_nat (length pre))) →
       get_migration_index name = Ok index →
       (index ∈ seqZ 1 (Z.of_nat (length pre)) →
          ∃ conflict, conflict ∈ pre ∧ get_migration_index conflict = Ok index
            ∧ Executor.__init__ found modules benchmarks target
              = Err (UserError (ConflictingIndex conflict name)))
       ∧ (index ∉ seqZ 1 (Z.of_nat (length pre) + 1) →
          Executor.__init__ found modules benchmarks target
          = Err (UserError (NonContiguousIndex (Z.of_nat (length pre)) index)))).
Proof.
  split_and!.
  - intros self Hinit. split; [by apply init_Ok in Hinit as (_ & ? & _)|].
    by eapply init_indexes.
  - intros ->. done.
  - intros pre name rest index Hsorted Htarget Hpre Hindex.
    destruct (check_indexes_prefix pre (name :: rest) ∅ 0 Hpre)
      as (seen & Hrun & Habove & Hbelow & Hin); [done|].
    assert (∃ latest, last (pre ++ name :: rest) = Some latest) as [latest Hlast].
    { apply last_is_Some. by destruct pre. }
    assert (∀ e, Executor.check_indexes ∅ 0 (pre ++ name :: rest) = Err e →
                 Executor.__init__ found modules benchmarks target = Err e) as Hfail.
    { intros e He. unfold Executor.__init__. rewrite Hsorted. simpl. rewrite Hlast.
      destruct target as [t|]; simpl.
      - rewrite decide_True by eauto. simpl. by rewrite He.
      - by rewrite He. }
    rewrite Z.add_0_l in Hrun, Habove, Hin. split.
    + intros Hrange%elem_of_seqZ.
      destruct (Hin index) as (conflict & ? & ? & Hseen); [lia|].
      exists conflict. split_and!; [done..|]. apply Hfail.
      rewrite Hrun. simpl. rewrite Hindex. simpl. by rewrite Hseen.
    + intros Hrange. apply Hfail. rewrite Hrun. simpl. rewrite Hindex. simpl.
      assert (¬ (1 ≤ index < 1 + (Z.of_nat (length pre) + 1))%Z) as Hout
        by (by rewrite <-elem_of_seqZ).
      assert (seen !! index = None) as ->.
      { destruct (decide (Z.of_nat (length pre) < index)%Z); [by apply Habove|].
        rewrite Hbelow by lia. done. }
      rewrite decide_True by lia. done.
Qed.

Lemma init_validates_indexes_witness :
  ∃ conflict,
    conflict ∈ ["0001_initial"; "0002_whatever"]
    ∧ get_migration_index conflict = Ok 2%Z
    ∧ Executor.__init__ ["0001_initial"; "0002_whatever"; "0002_conflict"]
                        (λ _, []) None None
      = Err (UserError (ConflictingIndex conflict "0002_conflict")).
Proof.
  destruct (init_validates_indexes
              ["0001_initial"; "0002_whatever"; "0002_conflict"] (λ _, []) None None)
    as (_ & _ & H).
  destruct (H ["0001_initial"; "0002_whatever"] "0002_conflict" [] 2%Z)
    as [Hconflict _]; [reflexivity|discriminate|reflexivity|reflexivity|].
  apply Hconflict. apply (bool_decide_unpack _). reflexivity.
Defined.

(** Two names share index 3, yet construction fails on the gap in front of
    them, not on the conflict. *)
Lemma init_conflict_counterexample :
  get_migration_index "0003_b" = Ok 3%Z
  ∧ get_migration_index "0003_c" = Ok 3%Z
  ∧ Executor.__init__ ["0001_a"; "0003_b"; "0003_c"] (λ _, []) None None
    = Err (UserError (NonContiguousIndex 1 3))
  ∧ ∀ conflict name,
      Executor.__init__ ["0001_a"; "0003_b"; "0003_c"] (λ _, []) None None
      ≠ Err (UserError (ConflictingIndex conflict name)).
Proof. done. Qed.

(** ** Position of the new parameter *)

Section UpdateParamNames.
Context (name : string).

Lemma insert_between_fresh (a b : string) (pre rest : list string) :
  name ∉ pre → a ∉ pre →
  AddBenchParam.insert_between name a b (pre ++ rest)
  = rest' ← AddBenchParam.insert_between name a b rest; mret (pre ++ rest').
Proof.
  intros Hname Ha. induction pre as [|p pre IH]; simpl.
  - by destruct (AddBenchParam.insert_between _ _ _ _).
  - rewrite decide_False by set_solver. rewrite decide_False by set_solver.
    rewrite IH by set_solver.
    by destruct (AddBenchParam.insert_between _ _ _ rest).
Qed.

Lemma insert_behind_fresh (a : string) (pre rest : list string) :
  name ∉ pre → a ∉ pre →
  AddBenchParam.insert_behind name a (pre ++ rest)
  = rest' ← AddBenchParam.insert_behind name a rest; mret (pre ++ rest').
Proof.
  intros Hname Ha. induction pre as [|p pre IH]; simpl.
  - by destruct (AddBenchParam.insert_behind _ _ _).
  - rewrite decide_False by set_solver. rewrite decide_False by set_solver.
    rewrite IH by set_solver.
    by destruct (AddBenchParam.insert_behind _ _ rest).
Qed.

Lemma insert_ahead_fresh (b : string) (pre rest : list string) :
  name ∉ pre → b ∉ pre →
  AddBenchParam.insert_ahead name b (pre ++ rest)
  = rest' ← AddBenchParam.insert_ahead name b rest; mret (pre ++ rest').
Proof.
  intros Hname Hb. induction pre as [|p pre IH]; simpl.
  - by destruct (AddBenchParam.insert_ahead _ _ _).
  - rewrite decide_False by set_solver. rewrite decide_False by set_solver.
    rewrite IH by set_solver.
    by destruct (AddBenchParam.insert_ahead _ _ rest).
Qed.
End UpdateParamNames.



(** C7 at its failing inputs: a list that already holds [name] behind
    [insert_after] gets a second copy of [name], or the call fails. *)
Theorem update_param_names_repeated :
  AddBenchParam.update_param_names
    (AddBenchParam.Make "b" ["None"] "None" (λ _, true) (Some "a") None) ["a"; "b"]
  = Ok ["a"; "b"; "b"]
  ∧ AddBenchParam.update_param_names
      (AddBenchParam.Make "b" ["None"] "None" (λ _, true) None (Some "d")) ["d"; "b"]
    = Ok ["b"; "d"; "b"]
  ∧ AddBenchParam.update_param_names after_a_before_d ["a"; "b"; "d"]
    = Err (UserError (NotAdjacent "b" "a" "d")).
Proof. done. Qed.

(** ** Expansion of the records *)

Lemma foldl_delete_lookup {A} (columns : list string) (d : gmap string A) (k : string) :
  foldl (λ f column, delete column f) d columns !! k
  = if decide (k ∈ columns) then None else d !! k.
Proof.
  revert d. induction columns as [|c columns IH]; intros d; simpl; [done|].
  rewrite IH. destruct (decide (k = c)) as [->|].
  - rewrite lookup_delete_eq. rewrite (decide_True (P := c ∈ c :: columns)) by set_solver.
    by destruct (decide _).
  - rewrite lookup_delete_ne by done.
    destruct (decide (k ∈ columns)).
    + by rewrite decide_True by set_solver.
    + by rewrite decide_False by set_solver.
Qed.

(** The two kinds of replica, in the words of the operation's description. *)
Lemma new_result_default (self : AddBenchParam.t) (result : bench_result) :
  AddBenchParam.new_result self result (AddBenchParam.default self)
  = BenchResult
      (if decide (is_Some (params result !! AddBenchParam.name self))
       then params result
       else <[AddBenchParam.name self := AddBenchParam.default self]> (params result))
      (<["version" := VNone]> (fields result)).
Proof.
  unfold AddBenchParam.new_result. rewrite decide_True by done. simpl.
  unfold AddBenchParam.setdefault.
  destruct (params result !! AddBenchParam.name self) eqn:Hget.
  - by rewrite decide_True by eauto.
  - rewrite decide_False; [done|]. by intros [? ?].
Qed.

Lemma new_result_other (self : AddBenchParam.t) (result : bench_result) (value : string) :
  value ≠ AddBenchParam.default self →
  params (AddBenchParam.new_result self result value)
  = <[AddBenchParam.name self := value]> (params result)
  ∧ ∀ column,
      fields (AddBenchParam.new_result self result value) !! column
      = if decide (column = "version" ∨ column = "result") then Some VNone
        else if decide (column ∈ ["stats_ci_99_a"; "stats_ci_99_b"; "stats_q_25";
                                  "stats_q_75"; "stats_number"; "stats_repeat";
                                  "samples"; "profile"])
        then None
        else fields result !! column.
Proof.
  intros Hvalue. unfold AddBenchParam.new_result. rewrite decide_False by done.
  cbn [params fields]. split; [done|]. intros column.
  destruct (decide (column = "version")) as [->|Hversion].
  { by rewrite lookup_insert_eq. }
  rewrite lookup_insert_ne by done. rewrite foldl_delete_lookup.
  destruct (decide (column = "result")) as [->|Hresult].
  { by rewrite lookup_insert_eq. }
  rewrite lookup_insert_ne by done.
  rewrite (decide_False (P := _ ∨ _)) by (by intros [?|?]). done.
Qed.

Lemma length_expand (self : AddBenchParam.t) (bench : list bench_result) :
  length (expand self bench) = length bench * length (AddBenchParam.values self).
Proof.
  induction bench as [|result bench IH]; [done|].
  unfold expand in *. rewrite bind_cons, length_app, length_fmap, IH. done.
Qed.

Lemma append_replicas (self : AddBenchParam.t) (name : string)
    (new_octobus_results : odict (list bench_result)) (done_so_far bench : list bench_result) :
  name ∉ od_keys new_octobus_results →
  foldl (λ new result,
           foldl (λ new value,
                    od_append name (AddBenchParam.new_result self result value) new)
                 new (AddBenchParam.values self))
        (new_octobus_results ++ [(name, done_so_far)]) bench
  = new_octobus_results ++ [(name, done_so_far ++ expand self bench)].
Proof.
  intros Hname. revert done_so_far.
  induction bench as [|result bench IH]; intros done_so_far; cbn [foldl].
  { unfold expand. simpl. by rewrite app_nil_r. }
  assert (∀ values done_so_far,
    foldl (λ new value,
             od_append name (AddBenchParam.new_result self result value) new)
          (new_octobus_results ++ [(name, done_so_far)]) values
    = new_octobus_results
        ++ [(name, done_so_far ++ (AddBenchParam.new_result self result <$> values))])
    as Hinner.
  { clear IH done_so_far. induction values as [|value values IH]; intros done_so_far; simpl.
    { by rewrite app_nil_r. }
    unfold od_append at 2. rewrite od_get_app.
    apply od_get_None in Hname as Hget. rewrite Hget. simpl.
    rewrite decide_True by done. simpl.
    rewrite od_set_app_fresh by done. simpl. rewrite decide_True by done.
    rewrite IH. by rewrite <-app_assoc. }
  rewrite Hinner, IH. unfold expand. by rewrite bind_cons, app_assoc.
Qed.

Lemma forwards_bench_Ok (self : AddBenchParam.t) param_names new name bench param_names' new' :
  AddBenchParam.forwards_bench self (param_names, new) (name, bench)
    = Ok (param_names', new') →
  name ∉ od_keys new →
  new' = new ++ [(name, forwards_entry self name bench)].
Proof.
  unfold AddBenchParam.forwards_bench, forwards_entry. intros H Hname.
  destruct (AddBenchParam.is_benchmark_targeted self name); simpl in H.
  - apply bind_Ok in H as (names & _ & [= _ <-]).
    unfold od_setdefault. apply od_get_None in Hname as Hget. rewrite Hget.
    rewrite od_set_fresh by done. by rewrite append_replicas.
  - injection H as _ <-. by apply od_set_fresh.
Qed.

Lemma forwards_loop_Ok (self : AddBenchParam.t) octobus param_names new param_names' new' :
  foldlM (AddBenchParam.forwards_bench self) octobus (param_names, new)
    = Ok (param_names', new') →
  NoDup (od_keys new ++ od_keys octobus) →
  new' = new ++ ((λ p, (p.1, forwards_entry self p.1 p.2)) <$> octobus).
Proof.
  revert param_names new. induction octobus as [|[name bench] octobus IH];
    intros param_names new; simpl.
  - intros [= _ <-] _. by rewrite app_nil_r.
  - intros ([pn1 new1] & Hstep & Hrest)%bind_Ok Hnodup.
    apply NoDup_app in Hnodup as (Hnew & Hdisj & [Hname Hoct]%NoDup_cons).
    apply forwards_bench_Ok in Hstep as ->.
    2:{ intros Hin. apply (Hdisj _ Hin). set_solver. }
    apply IH in Hrest as ->.
    + by rewrite <-app_assoc.
    + unfold od_keys in *. rewrite fmap_app. simpl.
      apply NoDup_app. split_and!; [|set_solver|done].
      apply NoDup_app. split_and!; [done| |apply NoDup_singleton].
      intros k Hk ->%list_elem_of_singleton. apply (Hdisj _ Hk). set_solver.
Qed.

(** C1: when [forwards] goes through, a targeted benchmark's record list
    becomes, for each original record and each candidate in [values] order,
    one record: a copy whose [version] is null and which, for the default
    candidate, gets [params[name]] only if absent and keeps every other
    field; for another candidate, has [params[name]] set to it, a null
    [result], none of the eight statistics fields [stats_ci_99_a],
    [stats_ci_99_b], [stats_q_25], [stats_q_75], [stats_number],
    [stats_repeat], [samples] and [profile], and every other field of the
    original.  The count is [original_count × len(values)]; other benchmarks
    keep their lists. *)
Theorem forwards_expands_records (self : AddBenchParam.t) (st st' : state)
    (octobus : odict (list bench_result)) :
  octobus_results st = Some octobus →
  NoDup (od_keys octobus) →
  AddBenchParam.forwards self st = Ok st' →
  ∃ octobus',
    octobus_results st' = Some octobus'
    ∧ od_keys octobus' = od_keys octobus
    ∧ (∀ name bench, od_get name octobus = Some bench →
         if AddBenchParam.is_benchmark_targeted self name
         then od_get name octobus'
              = Some (result ← bench;
                      AddBenchParam.new_result self result <$> AddBenchParam.values self)
              ∧ ∃ bench', od_get name octobus' = Some bench'
                  ∧ length bench' = length bench * length (AddBenchParam.values self)
         else od_get name octobus' = Some bench)
    ∧ (∀ result,
         AddBenchParam.new_result self result (AddBenchParam.default self)
         = BenchResult
             (if decide (is_Some (params result !! AddBenchParam.name self))
              then params result
              else <[AddBenchParam.name self := AddBenchParam.default self]>
                     (params result))
             (<["version" := VNone]> (fields result)))
    ∧ (∀ result value, value ≠ AddBenchParam.default self →
         params (AddBenchParam.new_result self result value)
         = <[AddBenchParam.name self := value]> (params result)
         ∧ ∀ column,
             fields (AddBenchParam.new_result self result value) !! column
             = if decide (column = "version" ∨ column = "result") then Some VNone
               else if decide (column ∈ ["stats_ci_99_a"; "stats_ci_99_b"; "stats_q_25";
                                         "stats_q_75"; "stats_number"; "stats_repeat";
                                         "samples"; "profile"])
               then None
               else fields result !! column).
Proof.
  intros Hoctobus Hnodup. unfold AddBenchParam.forwards. rewrite Hoctobus.
  intros (param_names & _ & H)%bind_Ok. simpl in H.
  apply bind_Ok in H as ([param_names' new] & Hloop & [= <-]).
  apply forwards_loop_Ok in Hloop as ->; [|done]. simpl.
  eexists. split_and!; [done| | |apply new_result_default|apply new_result_other].
  - unfold od_keys. rewrite <-list_fmap_compose. done.
  - intros name bench Hget.
    pose proof (od_get_fmap (forwards_entry self) octobus name) as Hnew.
    rewrite Hget in Hnew. simpl in Hnew. unfold forwards_entry in Hnew.
    destruct (AddBenchParam.is_benchmark_targeted self name); [|done].
    split; [done|]. eexists. split; [done|]. apply length_expand.
Qed.

Lemma forwards_expands_records_witness :
  ∃ st', AddBenchParam.forwards add_max_worker_count two_benchmarks = Ok st'
    ∧ ∃ octobus',
        octobus_results st' = Some octobus'
        ∧ od_get "other" octobus' = Some [measured 3 "'test'"]
        ∧ od_get "status.mard.track" octobus'
          = Some [AddBenchParam.new_result add_max_worker_count (measured 1 "'test'") "1";
                  AddBenchParam.new_result add_max_worker_count (measured 1 "'test'") "2";
                  AddBenchParam.new_result add_max_worker_count (measured 2 "'test2'") "1";
                  AddBenchParam.new_result add_max_worker_count (measured 2 "'test2'") "2"]
        ∧ AddBenchParam.new_result add_max_worker_count (measured 1 "'test'") "1"
          = BenchResult {[ "max_worker_count" := "1"; "repo" := "'test'" ]}
              {[ "version" := VNone; "result" := VNum 1; "stats_q_25" := VNum 6 ]}
        ∧ params (AddBenchParam.new_result add_max_worker_count (measured 1 "'test'") "2")
          = {[ "max_worker_count" := "2"; "repo" := "'test'" ]}
        ∧ fields (AddBenchParam.new_result add_max_worker_count (measured 1 "'test'") "2")
            !! "result" = Some VNone
        ∧ fields (AddBenchParam.new_result add_max_worker_count (measured 1 "'test'") "2")
            !! "version" = Some VNone
        ∧ fields (AddBenchParam.new_result add_max_worker_count (measured 1 "'test'") "2")
            !! "stats_q_25" = None.
Proof.
  destruct (AddBenchParam.forwards add_max_worker_count two_benchmarks)
    as [st'|e] eqn:Hrun; [|vm_compute in Hrun; discriminate Hrun].
  exists st'. split; [done|].
  assert (NoDup (od_keys [("status.mard.track",
                           [measured 1 "'test'"; measured 2 "'test2'"]);
                          ("other", [measured 3 "'test'"])])) as Hnodup.
  { apply (bool_decide_unpack _). reflexivity. }
  destruct (forwards_expands_records add_max_worker_count two_benchmarks st' _
              eq_refl Hnodup Hrun)
    as (octobus' & Hget & _ & Hbench & Hdefault & Hother).
  assert ("2" ≠ AddBenchParam.default add_max_worker_count) as Hvalue by discriminate.
  destruct (Hother (measured 1 "'test'") "2" Hvalue) as [Hparams Hfields].
  exists octobus'. split_and!.
  - exact Hget.
  - exact (Hbench "other" _ eq_refl).
  - exact (proj1 (Hbench "status.mard.track" _ eq_refl)).
  - pose proof (Hdefault (measured 1 "'test'")) as Hreplica.
    change (AddBenchParam.default add_max_worker_count) with "1" in Hreplica.
    rewrite Hreplica. vm_compute. reflexivity.
  - rewrite Hparams. vm_compute. reflexivity.
  - rewrite (Hfields "result"). reflexivity.
  - rewrite (Hfields "version"). reflexivity.
  - rewrite (Hfields "stats_q_25"). reflexivity.
Defined.

(** C10: an operation built without a default, whose candidates include
    [None], stores ["None"] both as its default and as that candidate; the
    replica it makes for that candidate is the original record with
    [params[name]] filled in if absent and [version] reset to null, the
    [result] and the statistics fields being those of the original. *)
Theorem none_candidate_is_default (_repr_no_address : pyval → string)
    (name : string) (values : list pyval) (targets : string → bool)
    (insert_after insert_before : option string)
    (self : AddBenchParam.t) (result : bench_result) :
  _repr_no_address PNone = "None" →
  AddBenchParam.__init__ _repr_no_address name values PNone targets
                         insert_after insert_before = Ok self →
  PNone ∈ values →
  AddBenchParam.default self = "None"
  ∧ "None" ∈ AddBenchParam.values self
  ∧ AddBenchParam.new_result self result "None"
    = BenchResult (AddBenchParam.setdefault name "None" (params result))
                  (<["version" := VNone]> (fields result))
  ∧ ∀ column, column ≠ "version" →
      fields (AddBenchParam.new_result self result "None") !! column
      = fields result !! column.
Proof.
  intros Hrepr Hinit Hin. unfold AddBenchParam.__init__ in Hinit.
  destruct (bool_decide _); [done|]. simpl in Hinit. injection Hinit as <-.
  cbn [AddBenchParam.default AddBenchParam.values]. rewrite Hrepr.
  assert (AddBenchParam.new_result
            (AddBenchParam.Make name (_repr_no_address <$> values) "None" targets
                                insert_after insert_before) result "None"
          = BenchResult (AddBenchParam.setdefault name "None" (params result))
                        (<["version" := VNone]> (fields result))) as Hnew.
  { unfold AddBenchParam.new_result. by rewrite decide_True. }
  split_and!; [done| |done|].
  - rewrite <-Hrepr. by apply list_elem_of_fmap_2.
  - intros column Hcolumn. rewrite Hnew. cbn [fields]. by rewrite lookup_insert_ne.
Qed.

Lemma none_candidate_is_default_witness :
  ∃ self,
    AddBenchParam.__init__ repr_plain "benchparam2" [PNone] PNone (λ _, true) None None
    = Ok self
    ∧ AddBenchParam.default self = "None"
    ∧ "None" ∈ AddBenchParam.values self
    ∧ AddBenchParam.new_result self (measured 1 "'test'") "None"
      = BenchResult (AddBenchParam.setdefault "benchparam2" "None"
                                              (params (measured 1 "'test'")))
                    (<["version" := VNone]> (fields (measured 1 "'test'")))
    ∧ ∀ column, column ≠ "version" →
        fields (AddBenchParam.new_result self (measured 1 "'test'") "None") !! column
        = fields (measured 1 "'test'") !! column.
Proof.
  eexists. split; [reflexivity|].
  apply (none_candidate_is_default repr_plain "benchparam2" [PNone] (λ _, true) None None).
  - reflexivity.
  - reflexivity.
  - repeat constructor.
Defined.

(** ** Object form to column form *)

Lemma foldlM_app {A B} (f : B → A → res B) (l1 l2 : list A) (b : B) :
  foldlM f (l1 ++ l2) b = b' ← foldlM f l1 b; foldlM f l2 b'.
Proof.
  revert b. induction l1 as [|x l1 IH]; intros b; simpl; [done|].
  destruct (f b x); simpl; [apply IH|done].
Qed.

Lemma column_append_get (column k : string) (v : value) (asv_results asv_results' : odict value) :
  column_append column v asv_results = Ok asv_results' →
  column ≠ k → od_get k asv_results' = od_get k asv_results.
Proof.
  unfold column_append. intros H Hne.
  destruct (od_get column asv_results) as [[]|]; simplify_eq;
    by rewrite od_get_set, decide_False.
Qed.

Section ScalarColumn.
Context (column : string) (Hscalar : column ∈ SCALAR_COLUMNS).
Context (param_names : res (list string)).

Lemma scan_columns_keeps (result : bench_result) (columns : list string)
    (acc acc' : odict value * odict (list string)) :
  scan_columns param_names result columns acc = Ok acc' →
  od_get column acc.1 = Some (default VNone (result_get result column)) →
  od_get column acc'.1 = Some (default VNone (result_get result column)).
Proof using Hscalar.
  revert acc. induction columns as [|c columns IH]; intros acc; simpl.
  { by intros [= <-]. }
  intros (asv_params & _ & H)%bind_Ok Hget.
  destruct (decide (c ∈ SCALAR_COLUMNS)) as [Hc|Hc].
  - apply IH in H; [done|]. simpl. rewrite od_get_set.
    destruct (decide (c = column)) as [->|]; done.
  - destruct (result_get result c) as [v|]; [|by simplify_eq].
    apply bind_Ok in H as (asv_results & Happend & H).
    apply IH in H; [done|]. simpl.
    erewrite column_append_get; [done..|]. by intros ->.
Qed.

Lemma scan_columns_scalar (result : bench_result) (columns : list string)
    (acc acc' : odict value * odict (list string)) :
  scan_columns param_names result columns acc = Ok acc' →
  od_get column acc'.1
  = if reaches result column columns
    then Some (default VNone (result_get result column))
    else od_get column acc.1.
Proof using Hscalar.
  revert acc. induction columns as [|c columns IH]; intros acc; simpl.
  { by intros [= <-]. }
  intros (asv_params & _ & H)%bind_Ok.
  destruct (decide (c = column)) as [->|Hne].
  - rewrite decide_True in H by done.
    eapply scan_columns_keeps; [done|]. simpl. by rewrite od_get_set, decide_True.
  - destruct (decide (c ∈ SCALAR_COLUMNS)) as [Hc|Hc].
    + apply IH in H as ->. simpl. by rewrite od_get_set, decide_False.
    + destruct (result_get result c) as [v|]; [|by simplify_eq].
      apply bind_Ok in H as (asv_results & Happend & H).
      apply IH in H as ->. simpl. by erewrite column_append_get.
Qed.

Lemma scan_records_scalar (columns : list string) (results : list bench_result)
    (acc acc' : odict value * odict (list string)) :
  foldlM (λ acc result, scan_columns param_names result columns acc) results acc
    = Ok acc' →
  od_get column acc'.1
  = match last (filter (λ result, reaches result column columns) results) with
    | Some result => Some (default VNone (result_get result column))
    | None => od_get column acc.1
    end.
Proof using Hscalar.
  revert acc'. induction results as [|result results IH] using rev_ind; intros acc'.
  { by intros [= <-]. }
  rewrite foldlM_app. intros (acc1 & Hfront & Hlast)%bind_Ok.
  simpl in Hlast. apply bind_Ok in Hlast as (acc2 & Hscan & [= <-]).
  apply scan_columns_scalar in Hscan as ->.
  rewrite filter_app, filter_cons, filter_nil.
  destruct (reaches result column columns) eqn:Hreach.
  - rewrite decide_True by done. by rewrite last_snoc.
  - rewrite decide_False by (by intros []). rewrite app_nil_r. by apply IH.
Qed.
End ScalarColumn.

(** C5, as the code has it: the value emitted for a scalar column is the one
    read, with [get], from the last record whose scan gets as far as that
    column; every such record overwrites what the earlier ones left. *)
Theorem scalar_column_last_wins (result_columns : list string)
    (param_names : res (list string)) (results : list bench_result)
    (asv_results : odict value) (column : string) :
  column ∈ SCALAR_COLUMNS →
  collect_columns result_columns param_names results = Ok asv_results →
  od_get column asv_results
  = (λ result, default VNone (fields result !! column))
    <$> last (filter (λ result, reaches result column result_columns) results).
Proof.
  intros Hscalar. unfold collect_columns.
  intros (acc & Hloop & [= <-])%bind_Ok.
  rewrite od_get_set, decide_False by (intros <-; set_solver).
  erewrite scan_records_scalar by done.
  assert (column ≠ "params") as Hne by (intros ->; set_solver).
  destruct (last _) as [result|]; [|done]. simpl.
  unfold result_get. by rewrite decide_False.
Qed.

Lemma scalar_column_last_wins_witness :
  od_get "version"
         [("result", VList [VNum 1; VNum 2]); ("params", VList []); ("version", VStr "b")]
  = (λ result, default VNone (fields result !! "version"))
    <$> last (filter (λ result, reaches result "version" ["result"; "params"; "version"])
                     [versioned 1 "a"; versioned 2 "b"]).
Proof.
  apply (scalar_column_last_wins ["result"; "params"; "version"] (Ok [])).
  - apply (bool_decide_unpack _). reflexivity.
  - reflexivity.
Defined.

(** Two records carry the versions ["a"] and ["b"]: the version written out
    is ["b"], that of the later record. *)
Lemma scalar_column_counterexample :
  fields (versioned 1 "a") !! "version" = Some (VStr "a")
  ∧ implode ["result"; "params"; "version"] (Ok [])
            [versioned 1 "a"; versioned 2 "b"]
    = Ok [VList [VNum 1; VNum 2]; VList []; VStr "b"].
Proof. done. Qed.

(** *** What one record adds to the accumulated columns *)

Section od_update.
Context {A : Type} (f : string → option A → A).

Lemma od_update_fresh (ks : list string) (d : odict A) :
  NoDup ks → (∀ k, k ∈ ks → k ∉ od_keys d) →
  foldl (od_update f) d ks = d ++ ((λ k, (k, f k None)) <$> ks).
Proof.
  revert d. induction ks as [|k ks IH]; intros d Hnodup Hfresh; simpl.
  { by rewrite app_nil_r. }
  apply NoDup_cons in Hnodup as [Hk Hks].
  assert (k ∉ od_keys d) as Hkd by (apply Hfresh; set_solver).
  unfold od_update at 2. rewrite (proj2 (od_get_None d k)) by done.
  rewrite od_set_fresh by done. rewrite IH; [by rewrite <-app_assoc|done|].
  intros k' Hk'. unfold od_keys. rewrite fmap_app. simpl.
  intros [?| ->%list_elem_of_singleton]%elem_of_app; [|done].
  apply (Hfresh k'); [set_solver|done].
Qed.

Lemma od_update_present (pre d : odict A) :
  NoDup (od_keys pre ++ od_keys d) →
  foldl (od_update f) (pre ++ d) (od_keys d)
  = pre ++ ((λ p, (p.1, f p.1 (Some p.2))) <$> d).
Proof.
  revert pre. induction d as [|[k v] d IH]; intros pre Hnodup; [done|].
  cbn [od_keys fmap list_fmap fst foldl]. unfold od_keys in *.
  rewrite fmap_cons in Hnodup. cbn [fst] in Hnodup.
  apply NoDup_app in Hnodup as Hparts. destruct Hparts as (Hpre & Hdisj & Hkd).
  assert (k ∉ pre.*1) as Hk by (intros Hin; apply (Hdisj _ Hin); set_solver).
  unfold od_update at 2. rewrite od_get_app, (proj2 (od_get_None pre k)) by done.
  simpl. rewrite decide_True by done.
  rewrite od_set_app_fresh by done. simpl. rewrite decide_True by done.
  rewrite (cons_middle _ pre), app_assoc. rewrite IH.
  - by rewrite <-app_assoc.
  - rewrite fmap_app, <-app_assoc. done.
Qed.
End od_update.

Lemma od_set_setdefault {A} (k : string) (u v : A) (d : odict A) :
  od_set k v (od_setdefault k u d) = od_set k v d.
Proof.
  unfold od_setdefault. destruct (od_get k d) eqn:Hget; [done|].
  apply od_get_None in Hget. rewrite (od_set_fresh d k u) by done.
  rewrite od_set_app_fresh by done. simpl. rewrite decide_True by done.
  by rewrite od_set_fresh.
Qed.

Lemma od_get_setdefault {A} (k : string) (u : A) (d : odict A) :
  od_get k (od_setdefault k u d) = Some (default u (od_get k d)).
Proof.
  unfold od_setdefault. destruct (od_get k d) eqn:Hget; [done|].
  by rewrite od_get_set, decide_True.
Qed.

Lemma collect_params_pure (result : bench_result) (names : list string)
    (asv_params : odict (list string)) :
  (∀ name, name ∈ names → is_Some (params result !! name)) →
  collect_params result names asv_params
  = Ok (foldl (od_update (next_param result)) asv_params names).
Proof.
  unfold collect_params. revert asv_params.
  induction names as [|name names IH]; intros asv_params Hnames; [done|].
  destruct (Hnames name) as [v Hv]; [set_solver|].
  cbn [foldlM foldl]. rewrite Hv. simpl.
  rewrite od_set_setdefault, od_get_setdefault. simpl.
  rewrite IH by set_solver. do 2 f_equal.
  unfold od_update, next_param. rewrite Hv. simpl.
  by destruct (od_get name asv_params).
Qed.

Lemma scan_columns_pure (names : list string) (result : bench_result)
    (present rest : list string) (asv_results : odict value)
    (asv_params : odict (list string)) :
  NoDup present →
  (∀ c, c ∈ present → c ∉ SCALAR_COLUMNS → is_Some (result_get result c)) →
  (∀ c, c ∈ present → c ∉ SCALAR_COLUMNS →
        od_get c asv_results = None ∨ ∃ l, od_get c asv_results = Some (VList l)) →
  (∀ name, name ∈ names → is_Some (params result !! name)) →
  match rest with
  | [] => True
  | c :: _ => (c ≠ "params") ∧ (c ∉ SCALAR_COLUMNS) ∧ (result_get result c = None)
  end →
  scan_columns (Ok names) result (present ++ rest) (asv_results, asv_params)
  = Ok (foldl (od_update (next_column result)) asv_results present,
        if decide ("params" ∈ present)
        then foldl (od_update (next_param result)) asv_params names
        else asv_params).
Proof.
  intros Hnodup Hpresent Hold Hnames Hrest. revert asv_results asv_params Hold.
  induction present as [|c present IH]; intros asv_results asv_params Hold.
  - destruct rest as [|c rest]; [done|]. destruct Hrest as (Hparams & Hscalar & Hget).
    simpl. rewrite decide_False by done. simpl.
    rewrite decide_False by done. by rewrite Hget.
  - apply NoDup_cons in Hnodup as [Hc Hnodup].
    assert (∀ v c', c' ∈ present → c' ∉ SCALAR_COLUMNS →
              od_get c' (od_set c v asv_results) = None
              ∨ ∃ l, od_get c' (od_set c v asv_results) = Some (VList l)) as Hold'.
    { intros v c' Hc' Hscalar. rewrite od_get_set.
      rewrite decide_False by (intros ->; done). apply Hold; [set_solver|done]. }
    cbn [app scan_columns foldl].
    set (asv_params' := if decide ("params" ∈ c :: present)
                        then foldl (od_update (next_param result)) asv_params names
                        else asv_params).
    assert ((if decide (c = "params")
             then names0 ← Ok names; collect_params result names0 (asv_results, asv_params).2
             else Ok (asv_results, asv_params).2)
            = Ok (if decide (c = "params")
                  then foldl (od_update (next_param result)) asv_params names
                  else asv_params)) as ->.
    { destruct (decide (c = "params")); [|done]. simpl. by apply collect_params_pure. }
    cbn [mbind res_bind].
    assert ((if decide ("params" ∈ present)
             then foldl (od_update (next_param result))
                    (if decide (c = "params")
                     then foldl (od_update (next_param result)) asv_params names
                     else asv_params) names
             else (if decide (c = "params")
                   then foldl (od_update (next_param result)) asv_params names
                   else asv_params)) = asv_params') as Hparams.
    { unfold asv_params'. destruct (decide (c = "params")) as [->|Hne].
      - rewrite decide_False by done. by rewrite decide_True by set_solver.
      - destruct (decide ("params" ∈ present)).
        + by rewrite decide_True by set_solver.
        + by rewrite decide_False by set_solver. }
    destruct (decide (c ∈ SCALAR_COLUMNS)) as [Hscalar|Hscalar].
    + rewrite IH; [|done|set_solver|by apply Hold'].
      rewrite Hparams. do 2 f_equal.
      unfold od_update, next_column. by rewrite decide_True.
    + destruct (Hpresent c ltac:(set_solver) Hscalar) as [v Hv]. rewrite Hv.
      assert (column_append c v (asv_results, asv_params).1
              = Ok (od_update (next_column result) asv_results c)) as ->.
      { unfold column_append, od_update, next_column, column_value. simpl.
        rewrite decide_False by done. rewrite Hv. simpl.
        destruct (Hold c ltac:(set_solver) Hscalar) as [->|[l ->]]; done. }
      cbn [mbind res_bind]. rewrite IH; [|done|set_solver|by apply Hold'].
      by rewrite Hparams.
Qed.

(** *** What the records of one benchmark add up to *)

Lemma od_keys_fmap_key {A} (g : string → A) (ks : list string) :
  od_keys ((λ k, (k, g k)) <$> ks) = ks.
Proof.
  unfold od_keys. rewrite <-list_fmap_compose. apply list_fmap_id.
Qed.

Lemma od_get_fmap_key {A} (g : string → A) (ks : list string) (k : string) :
  od_get k ((λ k, (k, g k)) <$> ks) = if decide (k ∈ ks) then Some (g k) else None.
Proof.
  induction ks as [|k' ks IH]; [done|].
  rewrite fmap_cons. cbn [od_get]. destruct (decide (k' = k)) as [->|].
  - by rewrite decide_True by set_solver.
  - rewrite IH. destruct (decide (k ∈ ks)).
    + by rewrite decide_True by set_solver.
    + by rewrite decide_False by set_solver.
Qed.

Section Records.
Context (names present rest : list string).
Context (Hpresent : NoDup present) (Hnames : NoDup names).
Context (Hparams : "params" ∈ present).

Lemma scan_record_first (result : bench_result) :
  scannable names present rest result →
  scan_columns (Ok names) result (present ++ rest) ([], [])
  = Ok (columns_of present [result], params_of names [result]).
Proof using Hpresent Hnames Hparams.
  intros (Hcolumns & Hresult & Hrest).
  rewrite scan_columns_pure by (done || by left).
  rewrite decide_True by done.
  by rewrite !od_update_fresh by (done || set_solver).
Qed.

Lemma scan_record_next (result : bench_result) (results : list bench_result) :
  scannable names present rest result →
  scan_columns (Ok names) result (present ++ rest)
               (columns_of present results, params_of names results)
  = Ok (columns_of present (results ++ [result]),
        params_of names (results ++ [result])).
Proof using Hpresent Hnames Hparams.
  intros (Hcolumns & Hresult & Hrest).
  rewrite scan_columns_pure; [|done..| |done|done].
  2:{ intros c Hc Hscalar. right. unfold columns_of.
      rewrite od_get_fmap_key, decide_True by done.
      rewrite decide_False by done. eauto. }
  rewrite decide_True by done. f_equal.
  pose proof (od_update_present (next_column result) [] (columns_of present results)) as Hc.
  pose proof (od_update_present (next_param result) [] (params_of names results)) as Hn.
  unfold columns_of, params_of in *. rewrite !od_keys_fmap_key in *.
  simpl in Hc, Hn. rewrite Hc, Hn by done. clear Hc Hn.
  rewrite <-!list_fmap_compose. f_equal.
  - apply list_fmap_ext. intros _ c _. simpl. f_equal. unfold next_column.
    destruct (decide (c ∈ SCALAR_COLUMNS)).
    + by rewrite last_snoc.
    + simpl. by rewrite fmap_app.
  - apply list_fmap_ext. intros _ name _. simpl. f_equal.
    unfold next_param, oset_of. simpl. by rewrite fmap_app, foldl_app.
Qed.

Lemma scan_records (results done_so_far : list bench_result) :
  Forall (scannable names present rest) results →
  foldlM (λ acc result, scan_columns (Ok names) result (present ++ rest) acc)
         results
         (if done_so_far is [] then ([], [])
          else (columns_of present done_so_far, params_of names done_so_far))
  = Ok (if done_so_far ++ results is [] then ([], [])
        else (columns_of present (done_so_far ++ results),
              params_of names (done_so_far ++ results))).
Proof using Hpresent Hnames Hparams.
  revert done_so_far.
  induction results as [|result results IH]; intros done_so_far Hall.
  { by rewrite app_nil_r. }
  apply Forall_cons in Hall as [Hresult Hall]. cbn [foldlM].
  assert (scan_columns (Ok names) result (present ++ rest)
            (if done_so_far is [] then ([], [])
             else (columns_of present done_so_far, params_of names done_so_far))
          = Ok (columns_of present (done_so_far ++ [result]),
                params_of names (done_so_far ++ [result]))) as ->.
  { destruct done_so_far; [by apply scan_record_first|by apply scan_record_next]. }
  cbn [mbind res_bind]. specialize (IH (done_so_far ++ [result]) Hall).
  rewrite <-app_assoc in IH. simpl in IH. rewrite <-IH.
  by destruct done_so_far.
Qed.
End Records.

(** *** Ordered sets and the cartesian product *)

Lemma elem_of_oset_add (x y : string) (s : list string) :
  y ∈ oset_add x s ↔ y = x ∨ y ∈ s.
Proof. unfold oset_add. destruct (decide (x ∈ s)); set_solver. Qed.

Lemma elem_of_foldl_oset_add {A} (g : A → string) (l : list A) (s : list string) (y : string) :
  y ∈ foldl (λ s x, oset_add (g x) s) s l ↔ y ∈ s ∨ ∃ x, x ∈ l ∧ y = g x.
Proof.
  revert s. induction l as [|x l IH]; intros s; simpl.
  - set_solver.
  - rewrite IH, elem_of_oset_add. set_solver.
Qed.

Lemma foldl_oset_add_known {A} (g : A → string) (l : list A) (s : list string) :
  (∀ x, x ∈ l → g x ∈ s) → foldl (λ s x, oset_add (g x) s) s l = s.
Proof.
  induction l as [|x l IH]; intros Hknown; simpl; [done|].
  unfold oset_add at 2. rewrite decide_True by set_solver. apply IH. set_solver.
Qed.

Lemma foldl_oset_add_fresh (l s : list string) :
  NoDup (s ++ l) → foldl (λ s x, oset_add x s) s l = s ++ l.
Proof.
  revert s. induction l as [|x l IH]; intros s Hnodup; simpl.
  { by rewrite app_nil_r. }
  unfold oset_add at 2. rewrite decide_False.
  2:{ apply NoDup_app in Hnodup as (_ & Hdisj & _). intros Hx.
      apply (Hdisj _ Hx). set_solver. }
  rewrite IH; [by rewrite <-app_assoc|]. by rewrite <-app_assoc.
Qed.

Lemma foldl_ext {A B} (f g : B → A → B) (l : list A) (b : B) :
  (∀ b x, f b x = g b x) → foldl f b l = foldl g b l.
Proof.
  intros Hfg. revert b. induction l as [|x l IH]; intros b; simpl; [done|].
  by rewrite Hfg, IH.
Qed.

Lemma foldl_bind {A B C} (f : C → B → C) (g : A → list B) (l : list A) (c : C) :
  foldl f c (l ≫= g) = foldl (λ c x, foldl f c (g x)) c l.
Proof.
  revert c. induction l as [|x l IH]; intros c; [done|].
  rewrite bind_cons, foldl_app. apply IH.
Qed.

Lemma product_nonempty {A} (dims : list (list A)) :
  Forall (λ dim, dim ≠ []) dims → product dims ≠ [].
Proof.
  induction 1 as [|dim dims Hdim _ IH]; [done|]. simpl.
  destruct dim as [|x dim]; [done|]. rewrite bind_cons.
  destruct (product dims); [done|]. done.
Qed.

Lemma length_product_elem {A} (dims : list (list A)) (x : list A) :
  x ∈ product dims → length x = length dims.
Proof.
  revert x. induction dims as [|dim dims IH]; intros x; simpl.
  - by intros ->%list_elem_of_singleton.
  - intros (y & (x' & -> & Hx')%list_elem_of_fmap & _)%list_elem_of_bind.
    simpl. f_equal. by apply IH.
Qed.

(** The values met along dimension [d] of the product, in first-seen order,
    are the values of that dimension. *)
Lemma product_dimension (dims : list (list string)) (d : nat) (dim : list string) :
  Forall (λ dim, dim ≠ [] ∧ NoDup dim) dims →
  dims !! d = Some dim →
  oset_of ((λ x, default "" (x !! d)) <$> product dims) = dim.
Proof.
  unfold oset_of. intros Hdims. revert d.
  induction Hdims as [|dim0 dims [Hne Hnodup] Hdims IH]; intros d Hd; [done|].
  assert (product dims ≠ []) as Hprod.
  { apply product_nonempty. eapply Forall_impl; [done|]. by intros ? [? _]. }
  rewrite foldl_fmap. simpl product. rewrite foldl_bind.
  destruct d as [|d]; simpl in Hd.
  - injection Hd as <-.
    assert (∀ s x,
      foldl (λ s y, oset_add (default "" (y !! 0)) s) s ((x ::.) <$> product dims)
      = oset_add x s) as Hblock.
    { intros s x. rewrite foldl_fmap. simpl.
      destruct (product dims) as [|y ys]; [done|]. simpl.
      apply foldl_oset_add_known. intros _ _. apply elem_of_oset_add. by left. }
    erewrite foldl_ext; [|intros; apply Hblock].
    rewrite (foldl_oset_add_fresh dim0 []); done.
  - specialize (IH d Hd). rewrite foldl_fmap in IH.
    assert (∀ s x,
      foldl (λ s y, oset_add (default "" (y !! S d)) s) s ((x ::.) <$> product dims)
      = foldl (λ s y, oset_add (default "" (y !! d)) s) s (product dims)) as Hblock.
    { intros s x. by rewrite foldl_fmap. }
    erewrite foldl_ext; [|intros; apply Hblock].
    destruct dim0 as [|x dim0]; [done|]. simpl. rewrite IH.
    clear Hne Hnodup. induction dim0 as [|x' dim0 IH']; [done|]. simpl.
    rewrite foldl_oset_add_known; [done|].
    intros y Hy. rewrite <-IH. apply elem_of_foldl_oset_add. right. eauto.
Qed.

(** *** Column form to object form *)

Lemma od_get_zip {A} (ks : list string) (vs : list A) (k : string) (j : nat) :
  NoDup ks → ks !! j = Some k → od_get k (zip ks vs) = vs !! j.
Proof.
  intros Hnodup. revert vs j.
  induction Hnodup as [|k' ks Hk' Hnodup IH]; intros vs j Hj; [done|].
  destruct vs as [|v vs]; [done|]. simpl.
  destruct j as [|j]; simpl in Hj.
  - injection Hj as ->. by rewrite decide_True.
  - rewrite decide_False; [simpl; by apply IH|]. intros ->.
    apply Hk'. by eapply list_elem_of_lookup_2.
Qed.

Lemma od_get_zip_None {A} (ks : list string) (vs : list A) (k : string) :
  k ∉ take (length vs) ks → od_get k (zip ks vs) = None.
Proof.
  revert vs. induction ks as [|k' ks IH]; intros vs Hk; [done|].
  destruct vs as [|v vs]; [done|]. simpl in *.
  rewrite decide_False by set_solver. apply IH. set_solver.
Qed.

Lemma od_keys_zip {A} (ks : list string) (vs : list A) :
  od_keys (zip ks vs) = take (length vs) ks.
Proof.
  unfold od_keys. revert vs. induction ks as [|k ks IH]; intros [|v vs]; simpl; try done.
  f_equal. apply IH.
Qed.

Lemma OrderedDict_NoDup {A} (pairs : list (string * A)) :
  NoDup (od_keys pairs) → OrderedDict pairs = pairs.
Proof.
  unfold OrderedDict. intros Hnodup.
  assert (∀ d, NoDup (od_keys (d ++ pairs)) →
               foldl (λ d p, od_set p.1 p.2 d) d pairs = d ++ pairs) as Hfold.
  { clear Hnodup. unfold od_keys.
    induction pairs as [|[k v] pairs IH]; intros d Hnodup; simpl.
    { by rewrite app_nil_r. }
    rewrite fmap_app in Hnodup. simpl in Hnodup.
    rewrite od_set_fresh.
    2:{ apply NoDup_app in Hnodup as (_ & Hdisj & _). intros Hk.
        apply (Hdisj _ Hk). set_solver. }
    rewrite IH; [by rewrite <-app_assoc|].
    rewrite <-app_assoc, fmap_app. done. }
  by apply (Hfold []).
Qed.

Lemma NoDup_take {A} (n : nat) (l : list A) : NoDup l → NoDup (take n l).
Proof.
  intros Hnodup. rewrite <-(take_drop n l) in Hnodup.
  by apply NoDup_app in Hnodup as [? _].
Qed.

Lemma mapM_param_values (dims : list (list string)) :
  mapM param_values ((λ dim, VList (VStr <$> dim)) <$> dims) = Ok dims.
Proof.
  induction dims as [|dim dims IH]; [done|].
  rewrite fmap_cons, mapM_res_cons, IH.
  assert (param_values (VList (VStr <$> dim)) = Ok dim) as ->; [|done].
  simpl. induction dim as [|v dim IHdim]; [done|].
  by rewrite fmap_cons, mapM_res_cons, IHdim.
Qed.

Lemma list_to_map_zip_lookup {A} (ks : list string) (vs : list A) (k : string) (j : nat) :
  NoDup ks → ks !! j = Some k → length ks = length vs →
  (list_to_map (zip ks vs) : gmap string A) !! k = vs !! j.
Proof.
  intros Hnodup. revert vs j.
  induction Hnodup as [|k' ks Hk' Hnodup IH]; intros vs j Hj Hlen; [done|].
  destruct vs as [|v vs]; [done|]. simpl.
  destruct j as [|j]; simpl in Hj.
  - injection Hj as ->. by rewrite lookup_insert_eq.
  - rewrite lookup_insert_ne.
    + simpl. apply IH; [done|]. simpl in Hlen. lia.
    + intros ->. apply Hk'. by eapply list_elem_of_lookup_2.
Qed.

Lemma matched_fields_lookup (result_columns : list string)
    (results_as_object : odict value) (index : nat) (field : string) :
  matched_fields result_columns results_as_object index !! field
  = if decide (field ∈ result_columns ∧ field ≠ "params")
    then matched results_as_object index field else None.
Proof.
  unfold matched_fields.
  assert (∀ new_result : gmap string value,
    foldl (λ new_result field,
             if decide (field = "params") then new_result
             else match od_get field results_as_object with
                  | None => new_result
                  | Some (VList corresponding_values) =>
                      <[field := default VNone (corresponding_values !! index)]> new_result
                  | Some corresponding_values =>
                      <[field := corresponding_values]> new_result
                  end) new_result result_columns !! field
    = if decide (field ∈ result_columns ∧ field ≠ "params"
                 ∧ is_Some (od_get field results_as_object))
      then matched results_as_object index field else new_result !! field) as Hfold.
  { induction result_columns as [|c columns IH]; intros new_result; cbn [foldl].
    { rewrite decide_False; [done|]. set_solver. }
    rewrite IH. clear IH.
    destruct (decide (field ∈ columns ∧ field ≠ "params"
                      ∧ is_Some (od_get field results_as_object))) as [(? & ? & ?)|Hrest].
    { by rewrite decide_True by set_solver. }
    destruct (decide (c = field)) as [->|Hne].
    - destruct (decide (field = "params")).
      { rewrite decide_False; [done|]. by intros (_ & ? & _). }
      unfold matched. destruct (od_get field results_as_object) as [v|] eqn:Hget.
      + rewrite decide_True by (split; [set_solver|split; [done|eauto]]).
        destruct v; by rewrite lookup_insert_eq.
      + rewrite decide_False; [done|]. by intros (_ & _ & [? ?]).
    - destruct (decide (field ∈ c :: columns ∧ _)) as [(Hin & ? & ?)|_].
      { exfalso. apply Hrest. split_and!; [|done..].
        apply elem_of_cons in Hin as [->|]; done. }
      destruct (decide (c = "params")); [done|].
      destruct (od_get c results_as_object) as [[]|]; by rewrite ?lookup_insert_ne. }
  rewrite Hfold, lookup_empty. unfold matched.
  destruct (decide (field ∈ result_columns ∧ field ≠ "params")) as [[? ?]|Hout].
  - destruct (od_get field results_as_object) eqn:Hget.
    + by rewrite decide_True by eauto.
    + rewrite decide_False; [done|]. by intros (_ & _ & [? ?]).
  - rewrite decide_False; [done|]. intros (? & ? & _). by apply Hout.
Qed.

Lemma explode_expanded (result_columns param_names : list string)
    (dims : list (list string)) (result_lines : list value) :
  expanded result_columns param_names dims result_lines →
  explode result_columns param_names result_lines
  = Ok (records_of result_columns param_names dims result_lines).
Proof.
  intros [Hcolumns Hlength (i & Hi & Hparams) _ [Hnames Hdims] _ Hlines].
  unfold explode, records_of.
  rewrite bool_decide_eq_true_2 by done. simpl.
  rewrite OrderedDict_NoDup.
  2:{ rewrite od_keys_zip. by apply NoDup_take. }
  destruct (lookup_lt_is_Some_2 result_lines i Hi) as [line Hline].
  rewrite (od_get_zip _ _ _ i), Hline by done. simpl.
  specialize (Hlines i "params" line Hparams Hline). simpl in Hlines. subst line.
  unfold params_column. rewrite length_fmap.
  rewrite bool_decide_eq_true_2 by lia. simpl.
  rewrite mapM_param_values. simpl.
  rewrite OrderedDict_NoDup.
  2:{ rewrite od_keys_zip. rewrite take_ge by lia. done. }
  unfold od_values. rewrite od_keys_zip, take_ge by lia.
  rewrite snd_zip by lia. by rewrite imap_fmap.
Qed.

Lemma od_set_fmap_key {A} (g : string → A) (ks : list string) (k : string) (v : A) :
  NoDup ks → k ∈ ks →
  od_set k v ((λ k, (k, g k)) <$> ks)
  = (λ k', (k', if decide (k' = k) then v else g k')) <$> ks.
Proof.
  induction 1 as [|k' ks Hk' Hnodup IH]; intros Hk; [by apply elem_of_nil in Hk|].
  rewrite !fmap_cons. cbn [od_set]. destruct (decide (k' = k)) as [->|Hne].
  - f_equal. apply list_fmap_ext. intros i k' Hi. f_equal.
    destruct (decide (k' = k)) as [->|]; [|done].
    exfalso. apply Hk'. by eapply list_elem_of_lookup_2.
  - f_equal. apply IH. set_solver.
Qed.

(** The result lines that records with all of [present] and nothing of the
    head of [rest] add up to. *)
Lemma implode_scannable (names present rest : list string) (results : list bench_result) :
  NoDup present → NoDup names → "params" ∈ present → results ≠ [] →
  Forall (scannable names present rest) results →
  implode (present ++ rest) (Ok names) results
  = Ok ((λ c,
           if decide (c = "params")
           then params_column
                  ((λ name, oset_of ((λ result, default "" (params result !! name))
                                     <$> results)) <$> names)
           else if decide (c ∈ SCALAR_COLUMNS)
           then from_option (λ result, column_value result c) VNone (last results)
           else VList ((λ result, column_value result c) <$> results))
        <$> present).
Proof.
  intros Hpresent Hnames Hparams Hresults Hall. unfold implode, collect_columns.
  pose proof (scan_records names present rest Hpresent Hnames Hparams results [] Hall)
    as Hscan.
  cbn [app] in Hscan. rewrite Hscan. destruct results as [|result results]; [done|].
  cbn [mbind res_bind mret res_ret fst snd]. f_equal.
  unfold columns_of at 1. rewrite od_set_fmap_key by done.
  unfold od_values, params_of. rewrite <-!list_fmap_compose.
  apply list_fmap_ext. intros _ c _. simpl. by destruct (decide (c = "params")).
Qed.

Section Expanded.
Context (result_columns param_names : list string) (dims : list (list string)).
Context (result_lines : list value).
Context (Hexpanded : expanded result_columns param_names dims result_lines).

Local Abbreviation records := (records_of result_columns param_names dims result_lines).

Lemma records_lookup (k : nat) (result : bench_result) :
  records !! k = Some result →
  ∃ x, product dims !! k = Some x
    ∧ params result = list_to_map (zip param_names x)
    ∧ fields result
      = matched_fields result_columns (zip result_columns result_lines) k.
Proof.
  unfold records_of. rewrite list_lookup_imap.
  destruct (product dims !! k) as [x|]; [|done]. intros [= <-]. eauto.
Qed.

Lemma records_param (k d : nat) (result : bench_result) (name : string) :
  records !! k = Some result → param_names !! d = Some name →
  ∃ x v, product dims !! k = Some x ∧ x !! d = Some v
       ∧ params result !! name = Some v.
Proof using Hexpanded.
  destruct Hexpanded as [_ _ _ _ [Hnames Hlen] _ _].
  intros (x & Hx & -> & _)%records_lookup Hname.
  assert (length x = length dims) as Hlenx.
  { apply length_product_elem. by eapply list_elem_of_lookup_2. }
  destruct (lookup_lt_is_Some_2 x d) as [v Hv].
  { apply lookup_lt_Some in Hname. lia. }
  exists x, v. split_and!; [done..|].
  rewrite (list_to_map_zip_lookup _ _ _ d) by (done || lia). done.
Qed.

Lemma records_field (k j : nat) (result : bench_result) (column : string) :
  records !! k = Some result → result_columns !! j = Some column →
  column ≠ "params" →
  fields result !! column
  = match result_lines !! j with
    | Some (VList l) => Some (default VNone (l !! k))
    | other => other
    end.
Proof using Hexpanded.
  destruct Hexpanded as [Hcolumns _ _ _ _ _ _].
  intros (x & _ & _ & ->)%records_lookup Hcolumn Hne.
  rewrite matched_fields_lookup.
  rewrite decide_True by (split; [by eapply list_elem_of_lookup_2|done]).
  unfold matched. by rewrite (od_get_zip _ _ _ j).
Qed.

Lemma records_scannable :
  Forall (scannable param_names (take (length result_lines) result_columns)
                    (drop (length result_lines) result_columns)) records.
Proof using Hexpanded.
  apply Forall_forall. intros result [k Hk]%list_elem_of_lookup.
  pose proof Hexpanded as [Hcolumns Hlength (i & Hi & Hparams) Hstop _ _ Hlines].
  split_and!.
  - intros c [j [Hj Hlt]]%elem_of_take Hscalar. unfold result_get.
    destruct (decide (c = "params")); [done|].
    rewrite (records_field k j) by done.
    destruct (lookup_lt_is_Some_2 result_lines j Hlt) as [line ->].
    by destruct line.
  - intros name [d Hd]%list_elem_of_lookup.
    destruct (records_param k d result name) as (x & v & _ & _ & ->); done.
  - destruct (drop _ _) as [|c rest] eqn:Hdrop; [done|].
    assert (result_columns !! length result_lines = Some c) as Hc.
    { rewrite <-(Nat.add_0_r (length result_lines)), <-lookup_drop. by rewrite Hdrop. }
    assert (c ≠ "params") as Hne.
    { intros ->. pose proof (NoDup_lookup _ _ _ _ Hcolumns Hparams Hc). lia. }
    split_and!; [done|by apply Hstop|].
    unfold result_get. rewrite decide_False by done.
    rewrite (records_field k (length result_lines)) by done.
    by rewrite lookup_ge_None_2.
Qed.

Lemma implode_records_of :
  implode result_columns (Ok param_names) records = Ok result_lines.
Proof using Hexpanded.
  pose proof Hexpanded as [Hcolumns Hlength (i & Hi & Hparams) Hstop [Hnames Hlen]
                                    Hdims Hlines].
  assert (product dims ≠ []) as Hproduct.
  { apply product_nonempty. eapply Forall_impl; [done|]. by intros ? [? _]. }
  rewrite <-(take_drop (length result_lines) result_columns) at 1.
  rewrite implode_scannable; [|by apply NoDup_take|done| | |apply records_scannable].
  2:{ apply elem_of_take. eauto. }
  2:{ unfold records_of. intros Hnil%(f_equal length).
      rewrite length_imap in Hnil. by destruct (product dims). }
  f_equal. apply list_eq. intros j. rewrite list_lookup_fmap.
  destruct (decide (j < length result_lines)) as [Hj|Hj].
  2:{ rewrite lookup_take_ge by lia. by rewrite lookup_ge_None_2 by lia. }
  rewrite lookup_take_lt by done.
  destruct (lookup_lt_is_Some_2 result_columns j ltac:(lia)) as [c Hc].
  destruct (lookup_lt_is_Some_2 result_lines j Hj) as [line Hline].
  rewrite Hc, Hline. simpl. f_equal. specialize (Hlines j c line Hc Hline).
  destruct (decide (c = "params")) as [->|Hne].
  - subst line. unfold params_column. do 2 f_equal.
    apply list_eq. intros d. rewrite list_lookup_fmap.
    destruct (param_names !! d) as [name|] eqn:Hname; simpl.
    2:{ symmetry. apply lookup_ge_None. apply lookup_ge_None in Hname. lia. }
    destruct (lookup_lt_is_Some_2 dims d) as [dim Hdim].
    { apply lookup_lt_Some in Hname. lia. }
    rewrite Hdim. f_equal. rewrite <-(product_dimension dims d dim) by done.
    f_equal. apply list_eq. intros k. unfold records_of.
    rewrite !list_lookup_fmap, list_lookup_imap.
    destruct (product dims !! k) as [x|] eqn:Hx; [|done]. simpl. f_equal.
    assert (length x = length dims) as Hlenx.
    { apply length_product_elem. by eapply list_elem_of_lookup_2. }
    rewrite (list_to_map_zip_lookup _ _ _ d) by (done || lia). done.
  - destruct (decide (c ∈ SCALAR_COLUMNS)) as [Hscalar|Hscalar].
    + destruct (last records) as [result|] eqn:Hlast.
      2:{ apply last_None in Hlast. unfold records_of in Hlast.
          apply (f_equal length) in Hlast. rewrite length_imap in Hlast.
          by destruct (product dims). }
      rewrite last_lookup in Hlast. simpl. unfold column_value, result_get.
      rewrite decide_False by done.
      rewrite (records_field _ j) by done. rewrite Hline.
      destruct line; try done. by destruct (Hlines l).
    + destruct Hlines as (l & -> & Hl). f_equal.
      apply list_eq. intros k. rewrite list_lookup_fmap.
      destruct (records !! k) as [result|] eqn:Hk; simpl.
      * unfold column_value, result_get. rewrite decide_False by done.
        rewrite (records_field k j result) by done. rewrite Hline. simpl.
        apply lookup_lt_Some in Hk. unfold records_of in Hk.
        rewrite length_imap in Hk.
        destruct (lookup_lt_is_Some_2 l k ltac:(lia)) as [v ->]. done.
      * symmetry. apply lookup_ge_None. apply lookup_ge_None in Hk.
        unfold records_of in Hk. rewrite length_imap in Hk. lia.
Qed.
End Expanded.

(** *** The two converters, one after the other *)

Lemma od_append_all {A} (k : string) (d : odict (list A)) (x : A) (xs : list A) :
  k ∉ od_keys d →
  foldl (λ d x, od_append k x d) d (x :: xs) = d ++ [(k, x :: xs)].
Proof.
  intros Hk.
  assert (∀ l, foldl (λ d x, od_append k x d) (d ++ [(k, l)]) xs
               = d ++ [(k, l ++ xs)]) as Hrest.
  { induction xs as [|x' xs IH]; intros l; simpl.
    { by rewrite app_nil_r. }
    unfold od_append at 2. rewrite od_get_app, (proj2 (od_get_None d k)) by done.
    simpl. rewrite decide_True by done. simpl.
    rewrite od_set_app_fresh by done. simpl. rewrite decide_True by done.
    rewrite IH. by rewrite <-app_assoc. }
  simpl. unfold od_append at 2.
  rewrite (proj2 (od_get_None d k)) by done. simpl. rewrite od_set_fresh by done.
  apply Hrest.
Qed.

Section RoundTrip.
Context (benchmarks : catalog) (columns : list string).

Lemma to_octobus_loop (old_format_data : state) (results : odict (list value))
    (names : odict (list string)) (octobus : odict (list bench_result)) :
  result_columns old_format_data = Some columns →
  Forall (expanded_entry benchmarks columns) results →
  NoDup (od_keys octobus ++ od_keys results) →
  ∃ names' new,
    foldlM (to_octobus_bench (Some benchmarks) old_format_data) results (names, octobus)
      = Ok (names', octobus ++ new)
    ∧ Forall2 (exploded_entry benchmarks columns) results new
    ∧ ∀ bench, od_get bench names'
               = if decide (bench ∈ od_keys results) then benchmarks !! bench
                 else od_get bench names.
Proof.
  intros Hcolumns Hall. revert names octobus.
  induction Hall as [|[bench lines] results (param_names & dims & Hcat & Hexp) _ IH];
    intros names octobus Hnodup.
  { exists names, []. rewrite app_nil_r. split_and!; [done|constructor|done]. }
  simpl in Hcat, Hexp. unfold od_keys in Hnodup. rewrite fmap_cons in Hnodup.
  cbn [fst] in Hnodup.
  assert (bench ∉ od_keys octobus) as Hfresh.
  { apply NoDup_app in Hnodup as (_ & Hdisj & _). intros Hin.
    apply (Hdisj _ Hin). set_solver. }
  assert (bench ∉ od_keys results) as Hlater.
  { apply NoDup_app in Hnodup as (_ & _ & [? _]%NoDup_cons). done. }
  pose proof (explode_expanded _ _ _ _ Hexp) as Hexplode.
  assert (records_of columns param_names dims lines ≠ []) as Hrecords.
  { unfold records_of. intros Hnil%(f_equal length). rewrite length_imap in Hnil.
    destruct Hexp as [_ _ _ _ _ Hdims _].
    assert (product dims ≠ []) as Hproduct.
    { apply product_nonempty. eapply Forall_impl; [done|]. by intros ? [? _]. }
    by destruct (product dims). }
  destruct (records_of columns param_names dims lines) as [|record records] eqn:Hrecs;
    [done|].
  destruct (IH (od_set bench param_names names) (octobus ++ [(bench, record :: records)]))
    as (names' & new & Hloop & Hnew & Hnames).
  { unfold od_keys. rewrite fmap_app, <-app_assoc. done. }
  exists names', ((bench, record :: records) :: new). split_and!.
  - cbn [foldlM to_octobus_bench]. simpl or_raise. cbn [mbind res_bind].
    rewrite Hcat, Hcolumns. simpl or_raise. cbn [mbind res_bind].
    rewrite Hexplode. cbn [mbind res_bind mret res_ret fst snd].
    rewrite od_append_all by done. rewrite Hloop.
    by rewrite <-app_assoc.
  - constructor; [|done]. split; [done|]. exists param_names, dims.
    cbn [fst snd]. by rewrite Hrecs.
  - intros bench'. rewrite Hnames. rewrite od_get_set.
    unfold od_keys. rewrite fmap_cons. cbn [fst].
    destruct (decide (bench' ∈ results.*1)) as [Hin|Hnotin].
    + by rewrite decide_True by set_solver.
    + destruct (decide (bench = bench')) as [->|Hne].
      * by rewrite decide_True by set_solver.
      * by rewrite decide_False by set_solver.
Qed.

Lemma to_asv_loop (results out : odict (list value))
    (octobus : odict (list bench_result)) (names : odict (list string)) :
  Forall2 (exploded_entry benchmarks columns) results octobus →
  (∀ bench, bench ∈ od_keys results → od_get bench names = benchmarks !! bench) →
  NoDup (od_keys out ++ od_keys results) →
  foldlM (to_asv_bench columns names) octobus out = Ok (out ++ results).
Proof.
  intros Hall. revert out.
  induction Hall as [|[bench lines] [bench' records] results octobus Hentry _ IH];
    intros out Hnames Hnodup.
  { by rewrite app_nil_r. }
  destruct Hentry as [Hbench (param_names & dims & Hcat & Hexp & Hrecords)].
  simpl in Hbench, Hcat, Hexp, Hrecords. subst bench' records.
  unfold od_keys in Hnodup, Hnames. rewrite fmap_cons in Hnodup, Hnames.
  cbn [fst] in Hnodup, Hnames.
  cbn [foldlM to_asv_bench]. rewrite Hnames, Hcat by set_solver. simpl or_raise.
  rewrite implode_records_of by done. cbn [mbind res_bind mret res_ret].
  rewrite od_set_fresh.
  2:{ apply NoDup_app in Hnodup as (_ & Hdisj & _). intros Hin.
      apply (Hdisj _ Hin). set_solver. }
  rewrite IH.
  - by rewrite <-app_assoc.
  - intros b Hb. apply Hnames. set_solver.
  - unfold od_keys. rewrite fmap_app, <-app_assoc. done.
Qed.
End RoundTrip.

(** C2, as the code has it: converting a column-form state to object form
    and back gives the same [results] (and leaves the declared columns and
    the marker alone) when the state has at least one benchmark, each known
    to the catalog, and the lines of each are a full expansion. *)
Theorem converters_round_trip (benchmarks : catalog) (x : state)
    (columns : list string) (lines : odict (list value)) :
  results x = Some lines →
  result_columns x = Some columns →
  lines ≠ [] →
  NoDup (od_keys lines) →
  Forall (expanded_entry benchmarks columns) lines →
  ∃ object_form column_form,
    to_octobus_results (Some benchmarks) x = Ok object_form
    ∧ octobus_results_to_asv_results object_form = Ok column_form
    ∧ results column_form = results x
    ∧ result_columns column_form = result_columns x
    ∧ octobus_migration_version column_form = octobus_migration_version x.
Proof.
  intros Hresults Hcolumns Hnonempty Hnodup Hall.
  destruct (to_octobus_loop benchmarks columns x lines [] [] Hcolumns Hall)
    as (names & octobus & Hloop & Hentries & Hnames); [done|].
  unfold to_octobus_results. rewrite Hresults, Hloop.
  cbn [mbind res_bind mret res_ret fst snd app].
  eexists _, _. split; [done|].
  unfold octobus_results_to_asv_results. cbn [octobus_results set_octobus_results].
  destruct octobus as [|entry octobus].
  { apply Forall2_nil_inv_r in Hentries. done. }
  cbn [result_columns bench_param_names set_octobus_results set_bench_param_names].
  rewrite Hcolumns. simpl or_raise. cbn [mbind res_bind].
  rewrite (to_asv_loop benchmarks columns lines []); [|done| |done].
  2:{ intros bench Hbench. rewrite Hnames. by rewrite decide_True. }
  split; [reflexivity|]. by simpl.
Qed.

Lemma converters_round_trip_witness :
  ∃ object_form column_form,
    to_octobus_results (Some two_by_two_catalog) two_by_two = Ok object_form
    ∧ octobus_results_to_asv_results object_form = Ok column_form
    ∧ results column_form = results two_by_two
    ∧ result_columns column_form = result_columns two_by_two
    ∧ octobus_migration_version column_form = octobus_migration_version two_by_two.
Proof.
  eapply (converters_round_trip two_by_two_catalog two_by_two).
  - reflexivity.
  - reflexivity.
  - discriminate.
  - apply (bool_decide_unpack _). reflexivity.
  - constructor; [|constructor].
    exists ["compression"; "max_worker_count"], [["'zlib'"; "'zstd'"]; ["1"; "2"]].
    split; [reflexivity|]. constructor.
    + apply (bool_decide_unpack _). reflexivity.
    + simpl. lia.
    + exists 1. split; [simpl; lia|reflexivity].
    + intros column [= <-]. apply (bool_decide_unpack _). reflexivity.
    + split; [|reflexivity]. apply (bool_decide_unpack _). reflexivity.
    + repeat constructor; try discriminate; apply (bool_decide_unpack _); reflexivity.
    + intros i column line Hcolumn Hline.
      destruct i as [|[|[|[|[|[|i]]]]]]; simpl in Hcolumn, Hline;
        try discriminate Hline;
        injection Hcolumn as <-; injection Hline as <-; simpl;
        try discriminate; try reflexivity; eexists; split; reflexivity.
Defined.

(** One parameter with one value, one measured result, and result lines
    that stop before the trailing [version]: the round trip writes a null
    [version] that the original lines do not have. *)
Lemma converters_counterexample :
  length [VNum 1] = length (product [["'a'"]])
  ∧ ∃ object_form column_form,
      to_octobus_results (Some {[ "bench" := ["p"] ]}) trimmed = Ok object_form
      ∧ octobus_results_to_asv_results object_form = Ok column_form
      ∧ results column_form
        = Some [("bench", [VList [VNum 1]; params_column [["'a'"]]; VNone])]
      ∧ results column_form ≠ results trimmed.
Proof.
  split; [reflexivity|].
  destruct (to_octobus_results (Some {[ "bench" := ["p"] ]}) trimmed)
    as [object_form|e] eqn:Hobject; [|vm_compute in Hobject; discriminate Hobject].
  destruct (octobus_results_to_asv_results object_form) as [column_form|e] eqn:Hcolumn.
  2:{ vm_compute in Hobject. injection Hobject as <-.
      vm_compute in Hcolumn. discriminate Hcolumn. }
  exists object_form, column_form. split_and!; [reflexivity|exact Hcolumn| |].
  - vm_compute in Hobject. injection Hobject as <-.
    vm_compute in Hcolumn. injection Hcolumn as <-. reflexivity.
  - vm_compute in Hobject. injection Hobject as <-.
    vm_compute in Hcolumn. injection Hcolumn as <-. discriminate.
Qed.

(** ** Migrating one file *)

Lemma to_asv_results_keeps (data out : state) :
  octobus_results_to_asv_results data = Ok out →
  ∃ lines, out = set_results lines data.
Proof.
  unfold octobus_results_to_asv_results.
  destruct (octobus_results data) as [[|item octobus]|]; [done| |done].
  intros (columns & _ & (names & _ & (lines & _ & [= <-])%bind_Ok)%bind_Ok)%bind_Ok.
  by exists lines.
Qed.

(** C4, as the code has it: a successful call that finds at least one
    pending migration returns the column conversion of the state left by
    those migrations, its marker set to the target; a successful call that
    finds none returns the state it looked at, converted to object form and
    marked with the initial migration if it had no marker, untouched
    otherwise. *)
Theorem migrate_file_result (self : Executor.t) (file_contents out : state) :
  Executor.migrate_file self file_contents = Ok out →
  ∃ ready pending,
    ((ready = file_contents
      ∧ Executor.get_pending_migrations self file_contents = Ok pending)
     ∨ (Executor.get_pending_migrations self file_contents
          = Err NotReadyForMigrationsError
        ∧ ∃ new, to_octobus_results (Executor.all_benchmarks_data self) file_contents
                   = Ok new
            ∧ ready = set_migration_version INITIAL_MIGRATION new
            ∧ Executor.get_pending_migrations self ready = Ok pending))
    ∧ (pending = [] → out = ready)
    ∧ (pending ≠ [] →
       ∃ migrated lines,
         foldlM (λ st migration, Migration.apply migration st) pending ready
           = Ok migrated
         ∧ octobus_results_to_asv_results
             (set_migration_version (Executor.target self) migrated) = Ok out
         ∧ out = set_results lines
                   (set_migration_version (Executor.target self) migrated)
         ∧ octobus_migration_version out = Some (Executor.target self)
         ∧ results out = Some lines).
Proof.
  unfold Executor.migrate_file. intros ([ready pending] & Hready & H)%bind_Ok.
  exists ready, pending. split_and!.
  - destruct (Executor.get_pending_migrations self file_contents) as [p|e] eqn:Hp.
    + left. by simplify_eq.
    + right. destruct e; try done.
      apply bind_Ok in Hready as (new & Hnew & (p & Hp' & [= <- <-])%bind_Ok).
      eauto 10.
  - intros ->. simpl in H. by simplify_eq.
  - intros Hpending. rewrite decide_False in H by (by destruct pending).
    apply bind_Ok in H as (migrated & Hmigrated & Hout).
    destruct (to_asv_results_keeps _ _ Hout) as [lines ->].
    exists migrated, lines. split_and!; done.
Qed.

Lemma migrate_file_result_witness :
  ∃ out, Executor.migrate_file forward_to_second two_benchmarks = Ok out
    ∧ octobus_migration_version out = Some "0002_whatever"
    ∧ is_Some (results out).
Proof.
  destruct (Executor.migrate_file forward_to_second two_benchmarks) as [out|e] eqn:Hrun;
    [|vm_compute in Hrun; discriminate Hrun].
  exists out. split; [reflexivity|].
  destruct (migrate_file_result _ _ _ Hrun) as (ready & pending & Hready & _ & Hsome).
  destruct Hsome as (migrated & lines & _ & _ & _ & Hmarker & Hresults).
  { destruct Hready as [[_ Hpending]|[Hnot _]].
    - vm_compute in Hpending. injection Hpending as <-. discriminate.
    - vm_compute in Hnot. discriminate Hnot. }
  split; [exact Hmarker|]. exists lines. exact Hresults.
Defined.

(** A file marked with the second migration, a target that is the first:
    nothing is pending, and the state comes back as it went in, marker and
    all, with no [results] written. *)
Lemma migrate_file_counterexample :
  Executor.__init__ ["0001_initial"; "0002_whatever"] (λ _, []) None (Some "0001_initial")
    = Ok back_to_initial
  ∧ Executor.migrate_file back_to_initial at_second_migration = Ok at_second_migration
  ∧ octobus_migration_version at_second_migration = Some "0002_whatever"
  ∧ Executor.target back_to_initial = "0001_initial"
  ∧ results at_second_migration = None.
Proof. split_and!; vm_compute; reflexivity. Qed.

(** * Further properties *)

(** ** Errors and loops *)

Lemma foldlM_Err {A B} (f : B → A → res B) (l : list A) (b : B) (e : error) :
  foldlM f l b = Err e → ∃ b' x, x ∈ l ∧ f b' x = Err e.
Proof.
  revert b. induction l as [|x l IH]; intros b; simpl; [done|].
  intros [H|(b' & _ & H)]%bind_Err.
  - exists b, x. split; [apply list_elem_of_here|done].
  - destruct (IH _ H) as (b'' & y & Hy & Hf). exists b'', y.
    split; [by apply list_elem_of_further|done].
Qed.

Lemma mapM_res_Err {A B} (f : A → res B) (l : list A) (e : error) :
  mapM f l = Err e → ∃ x, x ∈ l ∧ f x = Err e.
Proof.
  induction l as [|x l IH]; [done|]. rewrite mapM_res_cons.
  intros [H|(y & _ & H)]%bind_Err.
  - exists x. split; [apply list_elem_of_here|done].
  - apply bind_Err in H as [H|(k & _ & [=])].
    destruct (IH H) as (z & Hz & Hf). exists z.
    split; [by apply list_elem_of_further|done].
Qed.

Lemma mapM_res_fmap_eq {A B} (f : A → res B) (g : A → B) (l : list A) :
  (∀ x, x ∈ l → f x = Ok (g x)) → mapM f l = Ok (g <$> l).
Proof.
  induction l as [|x l IH]; intros Hf; [done|].
  rewrite mapM_res_cons, Hf by apply list_elem_of_here. simpl.
  rewrite IH; [done|]. intros y Hy. apply Hf. by apply list_elem_of_further.
Qed.

(** ** Construction of the registry *)

Lemma insert_sorted_Permutation (x : Z * string) (l : list (Z * string)) :
  insert_sorted x l ≡ₚ x :: l.
Proof.
  induction l as [|y l IH]; simpl; [done|].
  destruct (bool_decide _); [done|]. rewrite IH. apply Permutation_swap.
Qed.

Lemma sorted_Permutation (l : list (Z * string)) : sorted l ≡ₚ l.
Proof.
  induction l as [|x l IH]; simpl; [done|].
  by rewrite insert_sorted_Permutation, IH.
Qed.

Lemma insert_sorted_StronglySorted (x : Z * string) (l : list (Z * string)) :
  StronglySorted (λ a b, (a.1 ≤ b.1)%Z) l →
  StronglySorted (λ a b, (a.1 ≤ b.1)%Z) (insert_sorted x l).
Proof.
  induction 1 as [|y l Hl IH Hy]; simpl; [repeat constructor|].
  destruct (bool_decide_reflect (x.1 ≤ y.1)%Z) as [Hle|Hgt].
  - constructor; [by constructor|]. constructor; [done|].
    eapply Forall_impl; [done|]. simpl. intros; lia.
  - constructor; [done|].
    rewrite insert_sorted_Permutation. constructor; [lia|done].
Qed.

Lemma sorted_StronglySorted (l : list (Z * string)) :
  StronglySorted (λ a b, (a.1 ≤ b.1)%Z) (sorted l).
Proof.
  induction l as [|x l IH]; simpl; [constructor|].
  by apply insert_sorted_StronglySorted.
Qed.

Lemma keyed_names (found : list string) (indexes : list Z) :
  mapM get_migration_index found = Ok indexes →
  ∃ keyed,
    mapM (λ name, index ← get_migration_index name; mret (index, name)) found = Ok keyed
    ∧ keyed.*1 = indexes ∧ keyed.*2 = found
    ∧ Forall (λ p, get_migration_index p.2 = Ok p.1) keyed.
Proof.
  revert indexes. induction found as [|name found IH]; intros indexes.
  - intros [= <-]. exists []. split_and!; [done..|constructor].
  - rewrite mapM_res_cons.
    intros (index & Hindex & (rest & Hrest & [= <-])%bind_Ok)%bind_Ok.
    destruct (IH _ Hrest) as (keyed & Hkeyed & H1 & H2 & Hall).
    exists ((index, name) :: keyed). rewrite mapM_res_cons, Hindex. simpl.
    rewrite Hkeyed. simpl. split_and!; [done|by f_equal..|by constructor].
Qed.

Lemma keyed_names_inv (found : list string) (keyed : list (Z * string)) :
  mapM (λ name, index ← get_migration_index name; mret (index, name)) found = Ok keyed →
  keyed.*2 = found ∧ mapM get_migration_index found = Ok keyed.*1.
Proof.
  revert keyed. induction found as [|name found IH]; intros keyed.
  - by intros [= <-].
  - rewrite mapM_res_cons.
    intros (p & (index & Hindex & [= <-])%bind_Ok
              & (rest & Hrest & [= <-])%bind_Ok)%bind_Ok.
    destruct (IH _ Hrest) as [H2 H1]. rewrite mapM_res_cons, Hindex. simpl.
    rewrite H1. simpl. split; [by f_equal|done].
Qed.

Lemma elem_of_OrderedDict {A} (pairs : list (string * A)) (k : string) :
  k ∈ od_keys (OrderedDict pairs) ↔ k ∈ pairs.*1.
Proof.
  unfold OrderedDict.
  assert (∀ d : odict A,
            k ∈ od_keys (foldl (λ d p, od_set p.1 p.2 d) d pairs)
            ↔ k ∈ od_keys d ∨ k ∈ pairs.*1) as Hfold.
  { induction pairs as [|[k' v] pairs IH]; intros d; simpl.
    { set_solver. }
    rewrite IH, od_keys_set. destruct (decide (k' ∈ od_keys d)); set_solver. }
  rewrite Hfold. set_solver.
Qed.

Lemma sorted_names_members (found names : list string) (name : string) :
  Executor.sorted_names found = Ok names → name ∈ names ↔ name ∈ found.
Proof.
  unfold Executor.sorted_names. intros (keyed & Hkeyed & [= <-])%bind_Ok.
  apply keyed_names_inv in Hkeyed as [<- _].
  rewrite elem_of_OrderedDict, <-list_fmap_compose.
  change (name ∈ (sorted keyed).*2 ↔ name ∈ keyed.*2).
  by rewrite sorted_Permutation.
Qed.

Lemma NoDup_by_index (names : list string) (indexes : list Z) :
  Forall2 (λ name index, get_migration_index name = Ok index) names indexes →
  NoDup indexes → NoDup names.
Proof.
  induction 1 as [|name index names indexes Hindex Hrest IH]; [constructor|].
  intros [Hnotin Hnodup]%NoDup_cons. constructor; [|by apply IH].
  intros [n Hn]%list_elem_of_lookup.
  destruct (Forall2_lookup_l _ _ _ _ _ Hrest Hn) as (j & Hj & Hij).
  rewrite Hindex in Hij. injection Hij as <-.
  apply Hnotin. by eapply list_elem_of_lookup_2.
Qed.

Lemma StronglySorted_le_seqZ (m : Z) (n : nat) : StronglySorted Z.le (seqZ m (Z.of_nat n)).
Proof.
  induction n as [|n IH]; [constructor|].
  rewrite seqZ_S. apply StronglySorted_app; split_and!.
  - intros i j Hi%elem_of_seqZ ->%list_elem_of_singleton. lia.
  - done.
  - repeat constructor.
Qed.

Lemma StronglySorted_fst (l : list (Z * string)) :
  StronglySorted (λ a b, (a.1 ≤ b.1)%Z) l → StronglySorted Z.le l.*1.
Proof.
  induction 1 as [|p l Hl IH Hp]; [constructor|].
  rewrite fmap_cons. constructor; [done|]. by apply Forall_fmap.
Qed.

Lemma Forall2_by_index (keyed : list (Z * string)) :
  Forall (λ p, get_migration_index p.2 = Ok p.1) keyed →
  Forall2 (λ name index, get_migration_index name = Ok index) keyed.*2 keyed.*1.
Proof.
  induction 1 as [|p l Hp Hl IH]; [constructor|].
  rewrite !fmap_cons. by constructor.
Qed.

(** Sorting names whose indexes are [1..N] in some order puts them in that
    order and drops none. *)
Lemma sorted_names_spec (found : list string) (indexes : list Z) (N : nat) :
  mapM get_migration_index found = Ok indexes →
  indexes ≡ₚ seqZ 1 (Z.of_nat N) →
  ∃ names,
    Executor.sorted_names found = Ok names
    ∧ names ≡ₚ found
    ∧ NoDup names
    ∧ mapM get_migration_index names = Ok (seqZ 1 (Z.of_nat N)).
Proof.
  intros Hindexes Hperm.
  destruct (keyed_names _ _ Hindexes) as (keyed & Hkeyed & H1 & H2 & Hall).
  pose proof (sorted_Permutation keyed) as Hsorted.
  assert ((sorted keyed).*1 = seqZ 1 (Z.of_nat N)) as Hkeys.
  { apply (StronglySorted_unique Z.le).
    - apply StronglySorted_fst, sorted_StronglySorted.
    - apply StronglySorted_le_seqZ.
    - by rewrite Hsorted, H1. }
  assert (Forall2 (λ name index, get_migration_index name = Ok index)
                  (sorted keyed).*2 (sorted keyed).*1) as Hpairs.
  { apply Forall2_by_index. by rewrite Hsorted. }
  assert (NoDup (sorted keyed).*2) as Hnodup.
  { eapply NoDup_by_index; [done|]. rewrite Hkeys. apply NoDup_seqZ. }
  exists (sorted keyed).*2. split_and!.
  - unfold Executor.sorted_names. rewrite Hkeyed. simpl. f_equal.
    rewrite OrderedDict_NoDup.
    + unfold od_keys. by rewrite <-list_fmap_compose.
    + unfold od_keys. by rewrite <-list_fmap_compose.
  - by rewrite Hsorted, H2.
  - done.
  - rewrite <-Hkeys. by apply mapM_res_Ok_lookup.
Qed.

(** ** The registry *)

Lemma check_indexes_contiguous (names : list string) :
  mapM get_migration_index names = Ok (seqZ 1 (Z.of_nat (length names))) →
  Executor.check_indexes ∅ 0 names = Ok ().
Proof.
  intros Hnames.
  destruct (check_indexes_prefix names [] ∅ 0 Hnames) as (seen' & Hrun & _); [done|].
  by rewrite app_nil_r in Hrun.
Qed.

Lemma mapM_res_last {A B} (f : A → res B) (l : list A) (k : list B) (x : A) :
  mapM f l = Ok k → last l = Some x → ∃ y, last k = Some y ∧ f x = Ok y.
Proof.
  intros Hall%mapM_res_Ok_lookup%Forall2_last Hlast. rewrite Hlast in Hall.
  inversion Hall; subst. eauto.
Qed.

Lemma mapM_res_length {A B} (f : A → res B) (l : list A) (k : list B) :
  mapM f l = Ok k → length k = length l.
Proof. intros Hall%mapM_res_Ok_lookup. symmetry. by eapply Forall2_length. Qed.

Lemma last_seqZ (m : Z) (n : nat) :
  0 < n → last (seqZ m (Z.of_nat n)) = Some (m + Z.of_nat n - 1)%Z.
Proof.
  destruct n as [|n]; [lia|]. intros _. rewrite seqZ_S, last_snoc. f_equal. lia.
Qed.

Lemma sorted_names_Err (found : list string) (e : error) :
  Executor.sorted_names found = Err e ↔ mapM get_migration_index found = Err e.
Proof.
  destruct (mapM get_migration_index found) as [indexes|e'] eqn:Hindexes.
  - destruct (keyed_names _ _ Hindexes) as (keyed & Hkeyed & _).
    unfold Executor.sorted_names. by rewrite Hkeyed.
  - unfold Executor.sorted_names.
    destruct (mapM (λ name, index ← get_migration_index name; mret (index, name)) found)
      as [keyed|e''] eqn:Hkeyed.
    + apply keyed_names_inv in Hkeyed as [_ Hkeyed]. congruence.
    + simpl. enough (e'' = e') by (split; congruence).
      clear e. revert e' e'' Hindexes Hkeyed.
      induction found as [|name found IH]; intros e' e''; [done|].
      rewrite !mapM_res_cons.
      destruct (get_migration_index name) as [index|e0]; simpl; [|congruence].
      destruct (mapM get_migration_index found) as [?|e1]; [done|].
      destruct (mapM (λ name, index ← get_migration_index name; mret (index, name)) found)
        as [?|e2]; simpl; [done|].
      intros [= <-] [= <-]. by apply IH.
Qed.

Lemma sorted_names_nil (found : list string) :
  Executor.sorted_names found = Ok [] → found = [].
Proof.
  intros Hnames. destruct found as [|name found]; [done|].
  pose proof (proj2 (sorted_names_members _ _ name Hnames)) as Hin.
  by apply elem_of_nil in Hin; [|left].
Qed.

Lemma check_indexes_Err (names : list string) (seen : gmap Z string)
    (last_index : Z) (e : error) :
  Executor.check_indexes seen last_index names = Err e →
  (∃ e', e = UserError e') ∨ ∃ name, name ∈ names ∧ get_migration_index name = Err e.
Proof.
  revert seen last_index. induction names as [|name names IH]; intros seen last_index.
  { done. }
  simpl. intros [Hindex|(index & Hindex & Hrun)]%bind_Err.
  - right. exists name. split; [left|done].
  - destruct (seen !! index); [left; injection Hrun as <-; eauto|].
    destruct (decide _); [left; injection Hrun as <-; eauto|].
    destruct (IH _ _ Hrun) as [?|(name' & ? & ?)]; [by left|].
    right. exists name'. split; [by right|done].
Qed.

Lemma init_fields found modules benchmarks target (self : Executor.t) :
  Executor.__init__ found modules benchmarks target = Ok self →
  Executor.all_benchmarks_data self = benchmarks
  ∧ Executor.migrations_modules self = modules
  ∧ ∀ t, target = Some t → Executor.target self = t.
Proof.
  unfold Executor.__init__. intros (names & _ & H)%bind_Ok.
  destruct (last names) as [latest|]; [|done].
  apply bind_Ok in H as (t' & Htarget & ([] & _ & [= <-])%bind_Ok). simpl.
  split_and!; [done..|]. intros t ->. destruct (decide _); by simplify_eq.
Qed.

(** X1: the constructor accepts every folder whose module names carry the
    indexes [1..N] (N at least one) in whatever order [glob] lists them,
    with no target or a target among them: the registry holds the same
    names in index order, the target is the one asked for, or the name of
    index [N] (the last of the registry) when none is given. *)
Theorem init_accepts_contiguous found modules benchmarks target
    (indexes : list Z) (N : nat) :
  mapM get_migration_index found = Ok indexes →
  indexes ≡ₚ seqZ 1 (Z.of_nat N) →
  0 < N →
  (∀ t, target = Some t → t ∈ found) →
  ∃ self,
    Executor.__init__ found modules benchmarks target = Ok self
    ∧ Executor.all_migrations self ≡ₚ found
    ∧ Executor.all_migrations_indexes self = Ok (seqZ 1 (Z.of_nat N))
    ∧ match target with
      | Some t => Executor.target self = t
      | None => last (Executor.all_migrations self) = Some (Executor.target self)
                ∧ get_migration_index (Executor.target self) = Ok (Z.of_nat N)
      end
    ∧ Executor.all_benchmarks_data self = benchmarks.
Proof.
  intros Hindexes Hperm HN Htarget.
  destruct (sorted_names_spec _ _ _ Hindexes Hperm)
    as (names & Hnames & Hfound & Hnodup & Hsorted).
  assert (length names = N) as Hlen.
  { apply mapM_res_length in Hsorted. rewrite length_seqZ in Hsorted. lia. }
  destruct (last names) as [latest|] eqn:Hlast; cycle 1.
  { apply last_None in Hlast. subst names. simpl in Hlen. lia. }
  destruct (mapM_res_last _ _ _ _ Hsorted Hlast) as (index & Hindex & Hlatest).
  rewrite last_seqZ in Hindex by done. injection Hindex as <-.
  assert (Executor.check_indexes ∅ 0 names = Ok ()) as Hcheck.
  { apply check_indexes_contiguous. by rewrite Hlen. }
  unfold Executor.__init__. rewrite Hnames. simpl. rewrite Hlast.
  destruct target as [t|].
  - rewrite decide_True by (rewrite Hfound; by apply Htarget).
    simpl. rewrite Hcheck. simpl. eexists. split; [done|]. simpl.
    by split_and!.
  - simpl. rewrite Hcheck. simpl. eexists. split; [done|]. simpl.
    split_and!; [done..| |done]. rewrite Hlatest. f_equal. lia.
Qed.

Lemma init_accepts_contiguous_witness :
  ∃ self,
    Executor.__init__ ["0002_whatever"; "0001_initial"] (λ _, []) None None = Ok self
    ∧ Executor.all_migrations self ≡ₚ ["0002_whatever"; "0001_initial"]
    ∧ Executor.all_migrations_indexes self = Ok (seqZ 1 (Z.of_nat 2))
    ∧ (last (Executor.all_migrations self) = Some (Executor.target self)
       ∧ get_migration_index (Executor.target self) = Ok (Z.of_nat 2))
    ∧ Executor.all_benchmarks_data self = None.
Proof.
  apply (init_accepts_contiguous ["0002_whatever"; "0001_initial"] (λ _, []) None None
           [2; 1]%Z 2).
  - reflexivity.
  - apply Permutation_swap.
  - lia.
  - intros t [=].
Defined.

(** X2: what the constructor raises.  [NoMigrationFilesFound] exactly for
    an empty folder; [ValueError] exactly when a module name has no integer
    prefix (the error of the first such name); [UnknownTarget] exactly when
    all names parse, the folder is not empty and the target asked for is not
    one of them, whatever the indexes are. *)
Theorem init_errors found modules benchmarks target :
  (Executor.__init__ found modules benchmarks target = Err NoMigrationFilesFound
   ↔ found = [])
  ∧ (∀ literal,
       Executor.__init__ found modules benchmarks target = Err (ValueError literal)
       ↔ mapM get_migration_index found = Err (ValueError literal))
  ∧ (∀ t,
       Executor.__init__ found modules benchmarks target = Err (UnknownTarget t)
       ↔ found ≠ [] ∧ target = Some t ∧ (t ∉ found)
         ∧ ∃ indexes, mapM get_migration_index found = Ok indexes).
Proof.
  unfold Executor.__init__.
  destruct (Executor.sorted_names found) as [names|e] eqn:Hnames; simpl.
  - assert (∃ indexes, mapM get_migration_index found = Ok indexes) as [indexes Hindexes].
    { destruct (mapM get_migration_index found) as [indexes|e] eqn:Hindexes; [eauto|].
      apply sorted_names_Err in Hindexes. congruence. }
    assert (∀ name, name ∈ names → ∃ index, get_migration_index name = Ok index)
      as Hparse.
    { intros name Hname%(sorted_names_members _ _ _ Hnames).
      destruct (index_of_member _ _ _ Hindexes Hname) as (index & ? & _). eauto. }
    assert (∀ e, Executor.check_indexes ∅ 0 names = Err e → ∃ e', e = UserError e')
      as Hcheck.
    { intros e [?|(name & Hname & Herr)]%check_indexes_Err; [done|].
      destruct (Hparse _ Hname). congruence. }
    rewrite Hindexes.
    destruct (last names) as [latest|] eqn:Hlast.
    + assert (found ≠ []) as Hfound.
      { intros ->. injection Hnames as <-. done. }
      destruct target as [t|]; simpl.
      * destruct (decide (t ∈ names)) as [Hin|Hnotin]; simpl.
        -- destruct (Executor.check_indexes ∅ 0 names) as [[]|e] eqn:Hrun; simpl.
           ++ split_and!; [done|done|]. intros t'. split; [done|].
              intros (_ & [= ->] & Hnot & _). contradict Hnot.
              by apply (sorted_names_members _ _ _ Hnames).
           ++ destruct (Hcheck _ eq_refl) as [e' ->].
              split_and!; [done|done|]. intros t'. split; [done|].
              intros (_ & [= ->] & Hnot & _). contradict Hnot.
              by apply (sorted_names_members _ _ _ Hnames).
        -- split_and!; [done|done|]. intros t'. split.
           ++ intros [= ->]. split_and!; [done|done| |eauto].
              by rewrite <-(sorted_names_members _ _ _ Hnames).
           ++ by intros (_ & [= ->] & _).
      * destruct (Executor.check_indexes ∅ 0 names) as [[]|e] eqn:Hrun; simpl.
        -- split_and!; [done|done|]. intros t'. split; [done|]. by intros (_ & [=] & _).
        -- destruct (Hcheck _ eq_refl) as [e' ->].
           split_and!; [done|done|]. intros t'. split; [done|]. by intros (_ & [=] & _).
    + apply last_None in Hlast. subst names. apply sorted_names_nil in Hnames as ->.
      split_and!; [done|done|]. intros t. split; [done|]. by intros (? & _).
  - apply sorted_names_Err in Hnames as Hindexes. rewrite Hindexes.
    destruct (mapM_index_Err _ _ Hindexes) as [literal ->].
    split_and!.
    + split; [done|]. intros ->. done.
    + intros literal'. by split; intros [= ->].
    + intros t. split; [done|]. by intros (_ & _ & _ & ? & [=]).
Qed.

(** X3: a constructed registry has no duplicate, holds exactly the names
    found, is in strictly ascending index order, and contains its target. *)
Theorem init_registry found modules benchmarks target (self : Executor.t) :
  Executor.__init__ found modules benchmarks target = Ok self →
  NoDup (Executor.all_migrations self)
  ∧ (∀ name, name ∈ Executor.all_migrations self ↔ name ∈ found)
  ∧ StronglySorted index_lt (Executor.all_migrations self)
  ∧ Executor.target self ∈ Executor.all_migrations self.
Proof.
  intros Hinit.
  destruct (init_Ok _ _ _ _ _ Hinit) as (Hnames & _ & Htarget & Hcheck).
  pose proof (check_indexes_Ok _ _ _ Hcheck) as Hindexes.
  split_and!.
  - eapply NoDup_by_index; [by apply mapM_res_Ok_lookup|apply NoDup_seqZ].
  - intros name. by apply sorted_names_members.
  - eapply StronglySorted_by_index; [done|apply StronglySorted_seqZ].
  - done.
Qed.

Lemma init_registry_witness :
  ∃ self,
    Executor.__init__ ["0002_whatever"; "0001_initial"] (λ _, []) None None = Ok self
    ∧ NoDup (Executor.all_migrations self)
    ∧ (∀ name, name ∈ Executor.all_migrations self
               ↔ name ∈ ["0002_whatever"; "0001_initial"])
    ∧ StronglySorted index_lt (Executor.all_migrations self)
    ∧ Executor.target self ∈ Executor.all_migrations self.
Proof.
  destruct (Executor.__init__ ["0002_whatever"; "0001_initial"] (λ _, []) None None)
    as [self|e] eqn:Hinit; [|vm_compute in Hinit; discriminate Hinit].
  exists self. split; [done|]. exact (init_registry _ _ _ _ _ Hinit).
Defined.

(** ** Pending migrations *)

Lemma pending_names_Err (self : Executor.t) (file_contents : state) (e : error) :
  Executor.get_pending_migrations_names self file_contents = Err e →
  (e = NotReadyForMigrationsError ∧ get_file_migration_index file_contents = Ok 0%Z)
  ∨ (∃ index, e = MigrationDoesNotExist index
              ∧ get_file_migration_index file_contents = Ok index ∧ index ≠ 0%Z
              ∧ ∃ indexes, Executor.all_migrations_indexes self = Ok indexes
                           ∧ index ∉ indexes)
  ∨ ∃ literal, e = ValueError literal.
Proof.
  unfold Executor.get_pending_migrations_names.
  intros [H|(file_index & Hfile & H)]%bind_Err.
  { apply get_migration_index_Err in H. auto. }
  destruct (decide (file_index = 0%Z)) as [->|]; [injection H as <-; auto|].
  apply bind_Err in H as [H|(indexes & Hindexes & H)].
  { apply mapM_index_Err in H. auto. }
  destruct (decide (file_index ∉ indexes)) as [Hnotin|].
  { injection H as <-. right. left. eauto 10. }
  apply bind_Err in H as [H|(target_index & _ & H)].
  { apply get_migration_index_Err in H. auto. }
  unfold Executor.all_migrations_indexes in Hindexes.
  erewrite pending_loop in H by done. done.
Qed.

Lemma pending_Err (self : Executor.t) (file_contents : state) (e : error) :
  Executor.get_pending_migrations self file_contents = Err e
  ↔ Executor.get_pending_migrations_names self file_contents = Err e.
Proof.
  unfold Executor.get_pending_migrations.
  destruct (Executor.get_pending_migrations_names self file_contents); simpl;
    [by split; intros [=]|by split; intros [= ->]].
Qed.

Lemma pending_Ok (self : Executor.t) (file_contents : state) (pending : list Migration.t) :
  Executor.get_pending_migrations self file_contents = Ok pending
  ↔ ∃ names, Executor.get_pending_migrations_names self file_contents = Ok names
             ∧ pending = Executor.get_migration_instance self <$> names.
Proof.
  unfold Executor.get_pending_migrations.
  destruct (Executor.get_pending_migrations_names self file_contents) as [names|];
    simpl; [|split; [done|by intros (? & ? & _)]].
  split; [intros [= <-]; eauto|by intros (? & [= <-] & ->)].
Qed.

(** The pending names of a constructed registry for a file whose index is in
    the registry. *)
Lemma pending_names_constructed found modules benchmarks target
    (self : Executor.t) (file_contents : state) (file_index : Z) :
  Executor.__init__ found modules benchmarks target = Ok self →
  get_file_migration_index file_contents = Ok file_index →
  (1 ≤ file_index ≤ Z.of_nat (length (Executor.all_migrations self)))%Z →
  ∃ target_index,
    get_migration_index (Executor.target self) = Ok target_index
    ∧ (1 ≤ target_index ≤ Z.of_nat (length (Executor.all_migrations self)))%Z
    ∧ Executor.get_pending_migrations_names self file_contents
      = Ok (filter (index_within file_index target_index) (Executor.all_migrations self)).
Proof.
  intros Hinit Hfile Hrange.
  pose proof (init_indexes _ _ _ _ _ Hinit) as Hindexes.
  destruct (init_Ok _ _ _ _ _ Hinit) as (_ & _ & Htarget & _).
  unfold Executor.all_migrations_indexes in Hindexes.
  destruct (index_of_member _ _ _ Hindexes Htarget) as (target_index & Htidx & Hin).
  apply elem_of_seqZ in Hin.
  exists target_index. split_and!; [done|lia|lia|].
  unfold Executor.get_pending_migrations_names, Executor.all_migrations_indexes.
  rewrite Hfile. simpl. rewrite decide_False by lia.
  rewrite Hindexes. simpl. rewrite decide_False.
  2:{ intros Hnot. apply Hnot, elem_of_seqZ. lia. }
  rewrite Htidx. simpl. by erewrite pending_loop.
Qed.

Lemma filter_within_indexes (lo hi : Z) (names : list string) (indexes : list Z) :
  mapM get_migration_index names = Ok indexes →
  mapM get_migration_index (filter (index_within lo hi) names)
  = Ok (filter (λ index, lo < index ≤ hi)%Z indexes).
Proof.
  intros Hall%mapM_res_Ok_lookup. apply mapM_res_Ok_lookup.
  induction Hall as [|name index names indexes Hindex Hall IH]; [constructor|].
  rewrite !filter_cons.
  destruct (decide (index_within lo hi name)) as [Hin|Hout];
    unfold index_within in *; rewrite Hindex in *.
  - rewrite decide_True by done. by constructor.
  - by rewrite decide_False by done.
Qed.

Lemma filter_seqZ_within (lo hi : Z) (N : nat) :
  (0 ≤ lo)%Z → (hi ≤ Z.of_nat N)%Z →
  filter (λ index, lo < index ≤ hi)%Z (seqZ 1 (Z.of_nat N)) = seqZ (lo + 1) (hi - lo).
Proof.
  intros Hlo Hhi. apply (StronglySorted_unique Z.le).
  - apply StronglySorted_filter, StronglySorted_le_seqZ.
  - destruct (decide (0 ≤ hi - lo)%Z) as [Hle|Hgt].
    + rewrite <-(Z2Nat.id (hi - lo)) by done. apply StronglySorted_le_seqZ.
    + replace (seqZ (lo + 1) (hi - lo)) with (@nil Z); [constructor|].
      symmetry. apply elem_of_nil_inv. intros x Hx%elem_of_seqZ. lia.
  - apply NoDup_Permutation.
    + apply NoDup_filter, NoDup_seqZ.
    + apply NoDup_seqZ.
    + intros x. rewrite list_elem_of_filter, !elem_of_seqZ. lia.
Qed.

(** X4: a file counts as not ready for migrations exactly when the index of
    its marker is 0; this is the case of every file without the marker. *)
Theorem not_ready_iff (self : Executor.t) (file_contents : state) :
  (Executor.get_pending_migrations_names self file_contents
     = Err NotReadyForMigrationsError
   ↔ get_file_migration_index file_contents = Ok 0%Z)
  ∧ (octobus_migration_version file_contents = None →
     Executor.get_pending_migrations_names self file_contents
     = Err NotReadyForMigrationsError).
Proof.
  assert (get_file_migration_index file_contents = Ok 0%Z →
          Executor.get_pending_migrations_names self file_contents
          = Err NotReadyForMigrationsError) as Hzero.
  { intros Hfile. unfold Executor.get_pending_migrations_names. by rewrite Hfile. }
  split; [split; [|done]|].
  - intros [[_ ?]|[(? & [=] & _)|(? & [=])]]%pending_names_Err. done.
  - intros Hmarker. apply Hzero. unfold get_file_migration_index. by rewrite Hmarker.
Qed.

Lemma not_ready_iff_witness :
  Executor.get_pending_migrations_names three_migrations
    (State None None None None (Some "0000_none"))
  = Err NotReadyForMigrationsError.
Proof.
  apply (proj1 (not_ready_iff three_migrations
                  (State None None None None (Some "0000_none")))).
  reflexivity.
Defined.

(** X5: for a constructed registry and a file at index [f] of the registry,
    the pending migrations are those of indexes [f + 1, ..., t] for the
    target index [t], one name per index and in this order; there are
    [t - f] of them, none when the target is not ahead of the file. *)
Theorem pending_indexes found modules benchmarks target
    (self : Executor.t) (file_contents : state) (f : Z) :
  Executor.__init__ found modules benchmarks target = Ok self →
  get_file_migration_index file_contents = Ok f →
  (1 ≤ f ≤ Z.of_nat (length (Executor.all_migrations self)))%Z →
  ∃ t pending,
    get_migration_index (Executor.target self) = Ok t
    ∧ Executor.get_pending_migrations_names self file_contents = Ok pending
    ∧ mapM get_migration_index pending = Ok (seqZ (f + 1) (t - f))
    ∧ length pending = Z.to_nat (t - f).
Proof.
  intros Hinit Hfile Hrange.
  destruct (pending_names_constructed _ _ _ _ _ _ _ Hinit Hfile Hrange)
    as (t & Htarget & Ht & Hpending).
  pose proof (init_indexes _ _ _ _ _ Hinit) as Hindexes.
  unfold Executor.all_migrations_indexes in Hindexes.
  assert (mapM get_migration_index
            (filter (index_within f t) (Executor.all_migrations self))
          = Ok (seqZ (f + 1) (t - f))) as Hfiltered.
  { erewrite filter_within_indexes by done. f_equal. apply filter_seqZ_within; lia. }
  eexists _, _. split_and!; [done..|].
  apply mapM_res_length in Hfiltered. by rewrite <-Hfiltered, length_seqZ.
Qed.

Lemma pending_indexes_witness :
  ∃ self t pending,
    Executor.__init__ ["0003_c"; "0001_initial"; "0002_b"] (λ _, []) None None = Ok self
    ∧ get_migration_index (Executor.target self) = Ok t
    ∧ Executor.get_pending_migrations_names self
        (State None None None None (Some "0001_initial")) = Ok pending
    ∧ mapM get_migration_index pending = Ok (seqZ (1 + 1) (t - 1))
    ∧ length pending = Z.to_nat (t - 1).
Proof.
  destruct (Executor.__init__ ["0003_c"; "0001_initial"; "0002_b"] (λ _, []) None None)
    as [self|e] eqn:Hinit; [|vm_compute in Hinit; discriminate Hinit].
  destruct (pending_indexes _ _ _ _ self
              (State None None None None (Some "0001_initial")) 1%Z Hinit)
    as (t & pending & H); [reflexivity| |by exists self, t, pending].
  vm_compute in Hinit. injection Hinit as <-. simpl. lia.
Defined.

(** ** Exceptions of the conversions and of the operations *)

Lemma or_raise_Err {A} (e e' : error) (o : option A) :
  or_raise e o = Err e' → e' = e.
Proof. destruct o; simpl; congruence. Qed.

Lemma assert_Err (b : bool) (e : error) : assert b = Err e → e = AssertionError.
Proof. destruct b; simpl; unfold assert; congruence. Qed.

Lemma param_values_data_error (v : value) (e : error) :
  param_values v = Err e → data_error e.
Proof.
  destruct v; simpl; try (by intros [= <-]).
  intros (v' & _ & H)%mapM_res_Err. by destruct v'; simplify_eq/=.
Qed.

Lemma explode_data_error result_columns param_names result_lines (e : error) :
  explode result_columns param_names result_lines = Err e → data_error e.
Proof.
  unfold explode. intros [H|([] & _ & H)]%bind_Err.
  { by apply assert_Err in H as ->. }
  apply bind_Err in H as [H|(raw & _ & H)].
  { by apply or_raise_Err in H as ->. }
  destruct raw; try (by injection H as <-).
  apply bind_Err in H as [H|([] & _ & H)].
  { by apply assert_Err in H as ->. }
  apply bind_Err in H as [H|(dims & _ & H)]; [|done].
  apply mapM_res_Err in H as (v & _ & H). by eapply param_values_data_error.
Qed.

Lemma to_octobus_results_data_error all_benchmarks_data old_format_data (e : error) :
  to_octobus_results all_benchmarks_data old_format_data = Err e → data_error e.
Proof.
  unfold to_octobus_results. destruct (results old_format_data) as [results|]; [|done].
  intros [H|(acc & _ & H)]%bind_Err; [|done].
  apply foldlM_Err in H as (acc & [bench_name result_lines] & _ & H).
  unfold to_octobus_bench in H.
  apply bind_Err in H as [H|(benchmarks & _ & H)].
  { by apply or_raise_Err in H as ->. }
  destruct (benchmarks !! bench_name) as [param_names|]; [|done].
  apply bind_Err in H as [H|(result_columns & _ & H)].
  { by apply or_raise_Err in H as ->. }
  apply bind_Err in H as [H|(new_results & _ & H)]; [|done].
  by eapply explode_data_error.
Qed.

Lemma update_param_names_data_error (self : AddBenchParam.t) bench_param_names (e : error) :
  AddBenchParam.update_param_names self bench_param_names = Err e → data_error e.
Proof.
  unfold AddBenchParam.update_param_names.
  destruct (AddBenchParam.given _) as [after|], (AddBenchParam.given _) as [before|].
  - induction bench_param_names as [|param_name rest IH]; simpl; [by intros [= <-]|].
    destruct (decide _); [done|]. destruct (decide _).
    + destruct rest as [|next rest']; [by intros [= <-]|].
      destruct (decide _); [done|by intros [= <-]].
    + intros [H|(rest' & _ & H)]%bind_Err; [by apply IH|done].
  - induction bench_param_names as [|param_name rest IH]; simpl; [by intros [= <-]|].
    destruct (decide _); [done|]. destruct (decide _); [done|].
    intros [H|(rest' & _ & H)]%bind_Err; [by apply IH|done].
  - induction bench_param_names as [|param_name rest IH]; simpl; [by intros [= <-]|].
    destruct (decide _); [done|]. destruct (decide _); [done|].
    intros [H|(rest' & _ & H)]%bind_Err; [by apply IH|done].
  - by destruct (decide _).
Qed.

Lemma forwards_data_error (self : AddBenchParam.t) (st : state) (e : error) :
  AddBenchParam.forwards self st = Err e → data_error e.
Proof.
  unfold AddBenchParam.forwards. intros [H|(param_names & _ & H)]%bind_Err.
  { by apply or_raise_Err in H as ->. }
  apply bind_Err in H as [H|(octobus & _ & H)].
  { by apply or_raise_Err in H as ->. }
  apply bind_Err in H as [H|(acc & _ & H)]; [|done].
  apply foldlM_Err in H as ([names new] & [name bench] & _ & H).
  unfold AddBenchParam.forwards_bench in H.
  destruct (negb _); [done|].
  apply bind_Err in H as [H|(updated & _ & H)]; [|done].
  by eapply update_param_names_data_error.
Qed.

Lemma apply_data_error (migration : Migration.t) (st : state) (e : error) :
  Migration.apply migration st = Err e → data_error e.
Proof.
  unfold Migration.apply. intros (st' & operation & _ & H)%foldlM_Err.
  by eapply forwards_data_error.
Qed.

Lemma collect_params_data_error result param_names asv_params (e : error) :
  collect_params result param_names asv_params = Err e → data_error e.
Proof.
  unfold collect_params. intros (acc & name & _ & H)%foldlM_Err.
  apply bind_Err in H as [H|(param_value & _ & H)]; [|done].
  by apply or_raise_Err in H as ->.
Qed.

Lemma scan_columns_data_error (param_names : res (list string)) result columns acc
    (e : error) :
  (∀ e', param_names = Err e' → data_error e') →
  scan_columns param_names result columns acc = Err e → data_error e.
Proof.
  intros Hnames. revert acc.
  induction columns as [|column columns IH]; intros acc; simpl; [done|].
  intros [H|(asv_params & _ & H)]%bind_Err.
  { destruct (decide (column = "params")); [|done].
    apply bind_Err in H as [H|(names & _ & H)]; [by apply Hnames|].
    by eapply collect_params_data_error. }
  destruct (decide (column ∈ SCALAR_COLUMNS)); [by eapply IH|].
  destruct (result_get result column) as [corresponding_value|]; [|done].
  apply bind_Err in H as [H|(asv_results & _ & H)]; [|by eapply IH].
  unfold column_append in H.
  destruct (od_get column acc.1) as [[]|]; by simplify_eq.
Qed.

Lemma to_asv_results_data_error (data : state) (e : error) :
  octobus_results_to_asv_results data = Err e → data_error e.
Proof.
  unfold octobus_results_to_asv_results.
  destruct (octobus_results data) as [[|entry octobus]|]; [by intros [= <-]| |by intros [= <-]].
  intros [H|(result_columns & _ & H)]%bind_Err.
  { by apply or_raise_Err in H as ->. }
  apply bind_Err in H as [H|(bench_param_names & _ & H)].
  { by apply or_raise_Err in H as ->. }
  apply bind_Err in H as [H|(out & _ & H)]; [|done].
  apply foldlM_Err in H as (out & [benchmark results] & _ & H).
  unfold to_asv_bench in H.
  apply bind_Err in H as [H|(lines & _ & H)]; [|done].
  unfold implode in H. apply bind_Err in H as [H|(asv_results & _ & H)]; [|done].
  unfold collect_columns in H. apply bind_Err in H as [H|(acc & _ & H)]; [|done].
  apply foldlM_Err in H as (acc & result & _ & H).
  eapply scan_columns_data_error; [|done].
  intros e' He'. by apply or_raise_Err in He' as ->.
Qed.

(** ** Migration of one file *)

Lemma migrate_file_noop (self : Executor.t) (file_contents : state) :
  Executor.get_pending_migrations_names self file_contents = Ok [] →
  Executor.migrate_file self file_contents = Ok file_contents.
Proof.
  intros Hpending. unfold Executor.migrate_file, Executor.get_pending_migrations.
  by rewrite Hpending.
Qed.

Lemma initial_file_index (st : state) :
  get_file_migration_index (set_migration_version INITIAL_MIGRATION st) = Ok 1%Z.
Proof. reflexivity. Qed.

(** What [migrate_file] raises: an exception of the data, or
    [MigrationDoesNotExist] for the index of the file, or for index 1 after
    the initial conversion. *)
Lemma migrate_file_Err (self : Executor.t) (file_contents : state) (e : error) :
  Executor.migrate_file self file_contents = Err e →
  data_error e
  ∨ ∃ index indexes,
      e = MigrationDoesNotExist index
      ∧ Executor.all_migrations_indexes self = Ok indexes
      ∧ (index ∉ indexes)
      ∧ (get_file_migration_index file_contents = Ok index ∧ index ≠ 0%Z
         ∨ get_file_migration_index file_contents = Ok 0%Z ∧ index = 1%Z).
Proof.
  unfold Executor.migrate_file. intros [H|([ready pending] & _ & H)]%bind_Err.
  - destruct (Executor.get_pending_migrations self file_contents) as [?|e0] eqn:Hfirst;
      [done|].
    apply pending_Err in Hfirst.
    destruct (pending_names_Err _ _ _ Hfirst)
      as [[-> Hzero]|[(index & -> & Hfile & Hindex & indexes & Hindexes & Hnotin)
                     |[literal ->]]].
    + apply bind_Err in H as [H|(new & _ & H)].
      { left. by eapply to_octobus_results_data_error. }
      apply bind_Err in H as [H|(? & _ & H)]; [|done].
      apply pending_Err in H.
      destruct (pending_names_Err _ _ _ H)
        as [[-> Hzero']|[(index & -> & Hfile & Hindex & indexes & Hindexes & Hnotin)
                        |[literal ->]]].
      * by rewrite initial_file_index in Hzero'.
      * rewrite initial_file_index in Hfile. injection Hfile as <-.
        right. exists 1%Z, indexes. split_and!; auto.
      * by left.
    + injection H as <-. right. exists index, indexes. split_and!; auto.
    + injection H as <-. by left.
  - left. destruct (decide (length pending = 0)); [done|].
    apply bind_Err in H as [H|(migrated & _ & H)].
    + apply foldlM_Err in H as (st & migration & _ & H).
      by eapply apply_data_error.
    + by eapply to_asv_results_data_error.
Qed.

Lemma migrate_file_Ok (self : Executor.t) (file_contents out : state) :
  Executor.migrate_file self file_contents = Ok out →
  (∃ names, Executor.get_pending_migrations_names self out = Ok names ∧ names = [])
  ∨ ∃ ready names migrated lines,
      Executor.get_pending_migrations_names self ready = Ok names
      ∧ out = set_results lines (set_migration_version (Executor.target self) migrated).
Proof.
  unfold Executor.migrate_file. intros ([ready pending] & Hready & H)%bind_Ok.
  assert (Executor.get_pending_migrations self ready = Ok pending) as Hpending.
  { destruct (Executor.get_pending_migrations self file_contents) as [p|e] eqn:Hp.
    - by simplify_eq.
    - destruct e; try done.
      by apply bind_Ok in Hready as (new & Hnew & (p & Hp' & [= <- <-])%bind_Ok). }
  apply pending_Ok in Hpending as (names & Hnames & ->).
  destruct (decide _) as [Hnone|Hsome].
  - left. injection H as <-. exists names. split; [done|].
    rewrite length_fmap in Hnone. by destruct names.
  - right. apply bind_Ok in H as (migrated & _ & Hout).
    destruct (to_asv_results_keeps _ _ Hout) as [lines ->]. eauto 10.
Qed.

(** X6: whatever the registry, [migrate_file] never raises
    [NotReadyForMigrationsError], [NoMigrationFilesFound] or [UnknownTarget]:
    a file that is not ready is converted and given the initial marker, and
    the other two only come from the constructor. *)
Theorem migrate_file_never_raises (self : Executor.t) (file_contents : state) :
  Executor.migrate_file self file_contents ≠ Err NotReadyForMigrationsError
  ∧ Executor.migrate_file self file_contents ≠ Err NoMigrationFilesFound
  ∧ ∀ t, Executor.migrate_file self file_contents ≠ Err (UnknownTarget t).
Proof.
  split_and!; [| |intros t];
    by intros [?|(? & ? & ? & _)]%migrate_file_Err.
Qed.

(** X7: with a constructed registry of [N] migrations, [migrate_file] raises
    [MigrationDoesNotExist] exactly when the index of the file's marker
    is outside [0..N], and then with this index. *)
Theorem migrate_file_unknown_marker found modules benchmarks target
    (self : Executor.t) (file_contents : state) (index : Z) :
  Executor.__init__ found modules benchmarks target = Ok self →
  Executor.migrate_file self file_contents = Err (MigrationDoesNotExist index)
  ↔ get_file_migration_index file_contents = Ok index
    ∧ (index < 0 ∨ Z.of_nat (length (Executor.all_migrations self)) < index)%Z.
Proof.
  intros Hinit.
  pose proof (init_indexes _ _ _ _ _ Hinit) as Hindexes.
  destruct (init_Ok _ _ _ _ _ Hinit) as (_ & Hnonempty & _).
  assert (0 < length (Executor.all_migrations self)) as Hlen.
  { destruct (Executor.all_migrations self); [done|simpl; lia]. }
  split.
  - intros [?|(i & indexes & [= <-] & Hindexes' & Hnotin & Hcase)]%migrate_file_Err;
      [done|].
    rewrite Hindexes in Hindexes'. injection Hindexes' as <-.
    rewrite elem_of_seqZ in Hnotin.
    destruct Hcase as [[Hfile Hindex]|[_ ->]]; [|lia]. split; [done|lia].
  - intros [Hfile Hrange].
    unfold Executor.migrate_file, Executor.get_pending_migrations,
      Executor.get_pending_migrations_names.
    rewrite Hfile. simpl. rewrite decide_False by lia. rewrite Hindexes. simpl.
    rewrite decide_True; [done|]. rewrite elem_of_seqZ. lia.
Qed.

Lemma migrate_file_unknown_marker_witness :
  ∃ self,
    Executor.__init__ ["0002_whatever"; "0001_initial"] (λ _, []) None None = Ok self
    ∧ Executor.migrate_file self (State None None None None (Some "0007_whatever"))
      = Err (MigrationDoesNotExist 7).
Proof.
  destruct (Executor.__init__ ["0002_whatever"; "0001_initial"] (λ _, []) None None)
    as [self|e] eqn:Hinit; [|vm_compute in Hinit; discriminate Hinit].
  exists self. split; [done|].
  apply (migrate_file_unknown_marker _ _ _ _ self _ 7%Z Hinit).
  split; [reflexivity|]. right.
  vm_compute in Hinit. injection Hinit as <-. simpl. lia.
Defined.

(** X8: with a constructed registry, migrating the outcome of a successful
    [migrate_file] again changes nothing. *)
Theorem migrate_file_idempotent found modules benchmarks target
    (self : Executor.t) (file_contents out : state) :
  Executor.__init__ found modules benchmarks target = Ok self →
  Executor.migrate_file self file_contents = Ok out →
  Executor.migrate_file self out = Ok out.
Proof.
  intros Hinit [(names & Hnames & ->)|(ready & names & migrated & lines & _ & ->)]%migrate_file_Ok.
  { by apply migrate_file_noop. }
  apply migrate_file_noop.
  pose proof (init_indexes _ _ _ _ _ Hinit) as Hindexes.
  destruct (init_Ok _ _ _ _ _ Hinit) as (_ & _ & Htarget & _).
  unfold Executor.all_migrations_indexes in Hindexes.
  destruct (index_of_member _ _ _ Hindexes Htarget) as (t & Ht & Hin).
  apply elem_of_seqZ in Hin.
  edestruct (pending_names_constructed _ _ _ _ self
               (set_results lines (set_migration_version (Executor.target self) migrated))
               t Hinit) as (t' & Ht' & _ & ->); [done|lia|].
  rewrite Ht in Ht'. injection Ht' as <-. f_equal.
  apply elem_of_nil_inv. intros x [Hx _]%list_elem_of_filter.
  unfold index_within in Hx. destruct (get_migration_index x); [lia|done].
Qed.

Lemma migrate_file_idempotent_witness :
  ∃ self out,
    Executor.__init__ ["0002_whatever"; "0001_initial"]
      (λ name, if decide (name = "0002_whatever") then [add_max_worker_count] else [])
      None None = Ok self
    ∧ Executor.migrate_file self two_benchmarks = Ok out
    ∧ out ≠ two_benchmarks
    ∧ Executor.migrate_file self out = Ok out.
Proof.
  destruct (Executor.__init__ ["0002_whatever"; "0001_initial"]
              (λ name, if decide (name = "0002_whatever")
                       then [add_max_worker_count] else [])
              None None) as [self|e] eqn:Hinit; [|vm_compute in Hinit; discriminate Hinit].
  destruct (Executor.migrate_file self two_benchmarks) as [out|e] eqn:Hrun.
  - exists self, out. split_and!; [done|done| |].
    + vm_compute in Hinit. injection Hinit as <-.
      intros ->. vm_compute in Hrun. discriminate Hrun.
    + exact (migrate_file_idempotent _ _ _ _ self two_benchmarks out Hinit Hrun).
  - vm_compute in Hinit. injection Hinit as <-. vm_compute in Hrun. discriminate Hrun.
Defined.

(** X9: with a constructed registry, a file whose marker is at the target or
    at a later migration of the registry is returned as it is: nothing is
    unapplied and the marker is not moved back. *)
Theorem migrate_file_not_behind found modules benchmarks target
    (self : Executor.t) (file_contents : state) (f t : Z) :
  Executor.__init__ found modules benchmarks target = Ok self →
  get_file_migration_index file_contents = Ok f →
  get_migration_index (Executor.target self) = Ok t →
  (t ≤ f ≤ Z.of_nat (length (Executor.all_migrations self)))%Z →
  Executor.migrate_file self file_contents = Ok file_contents.
Proof.
  intros Hinit Hfile Ht Hrange. apply migrate_file_noop.
  pose proof (init_indexes _ _ _ _ _ Hinit) as Hindexes.
  destruct (init_Ok _ _ _ _ _ Hinit) as (_ & _ & Htarget & _).
  unfold Executor.all_migrations_indexes in Hindexes.
  destruct (index_of_member _ _ _ Hindexes Htarget) as (t' & Ht' & Hin).
  rewrite Ht in Ht'. injection Ht' as <-. apply elem_of_seqZ in Hin.
  edestruct (pending_names_constructed _ _ _ _ self file_contents f Hinit)
    as (t' & Ht' & _ & ->); [done|lia|].
  rewrite Ht in Ht'. injection Ht' as <-. f_equal.
  apply elem_of_nil_inv. intros x [Hx _]%list_elem_of_filter.
  unfold index_within in Hx. destruct (get_migration_index x); [lia|done].
Qed.

Lemma migrate_file_not_behind_witness :
  ∃ self,
    Executor.__init__ ["0002_whatever"; "0001_initial"] (λ _, []) None
                      (Some "0001_initial") = Ok self
    ∧ Executor.migrate_file self at_second_migration = Ok at_second_migration.
Proof.
  destruct (Executor.__init__ ["0002_whatever"; "0001_initial"] (λ _, []) None
                              (Some "0001_initial"))
    as [self|e] eqn:Hinit; [|vm_compute in Hinit; discriminate Hinit].
  exists self. split; [done|].
  apply (migrate_file_not_behind _ _ _ _ self at_second_migration 2%Z 1%Z Hinit).
  - reflexivity.
  - vm_compute in Hinit. injection Hinit as <-. reflexivity.
  - vm_compute in Hinit. injection Hinit as <-. simpl. lia.
Defined.

Lemma migrate_file_not_ready (self : Executor.t) (file_contents : state) :
  get_file_migration_index file_contents = Ok 0%Z →
  Executor.migrate_file self file_contents
  = (new ← to_octobus_results (Executor.all_benchmarks_data self) file_contents;
     let ready := set_migration_version INITIAL_MIGRATION new in
     names ← Executor.get_pending_migrations_names self ready;
     if decide (length (names : list string) = 0) then Ok ready
     else
       migrated ← foldlM (λ st migration, Migration.apply migration st)
                         (Executor.get_migration_instance self <$> names) ready;
       octobus_results_to_asv_results
         (set_migration_version (Executor.target self) migrated)).
Proof.
  intros Hfile. unfold Executor.migrate_file.
  assert (Executor.get_pending_migrations self file_contents
          = Err NotReadyForMigrationsError) as ->.
  { unfold Executor.get_pending_migrations, Executor.get_pending_migrations_names.
    by rewrite Hfile. }
  destruct (to_octobus_results _ file_contents) as [new|e]; [|done].
  cbn [mbind res_bind]. unfold Executor.get_pending_migrations.
  destruct (Executor.get_pending_migrations_names self _) as [names|e]; [|done].
  cbn [mbind res_bind mret res_ret]. by rewrite length_fmap.
Qed.

(** X10: what [migrate_file] does, with a constructed registry of target
    index [t], to a file that has no marker or a marker of index 0.  The file
    is converted to object form and marked with the initial migration, and
    then only the migrations of indexes [2..t] are applied, in this order:
    the operations of the registry's migration of index 1 never run.  With
    [t = 1] the converted file is returned in object form, under the marker
    of the initial migration; otherwise the outcome is marked with the target
    and converted back to columns. *)
Theorem migrate_file_initial found modules benchmarks target
    (self : Executor.t) (file_contents : state) (t : Z) :
  Executor.__init__ found modules benchmarks target = Ok self →
  get_file_migration_index file_contents = Ok 0%Z →
  get_migration_index (Executor.target self) = Ok t →
  let pending := filter (index_within 1 t) (Executor.all_migrations self) in
  mapM get_migration_index pending = Ok (seqZ 2 (t - 1))
  ∧ Executor.migrate_file self file_contents
    = (new ← to_octobus_results (Executor.all_benchmarks_data self) file_contents;
       let ready := set_migration_version INITIAL_MIGRATION new in
       if decide (t = 1%Z) then Ok ready
       else
         migrated ← foldlM (λ st migration, Migration.apply migration st)
                           (Executor.get_migration_instance self <$> pending) ready;
         octobus_results_to_asv_results
           (set_migration_version (Executor.target self) migrated)).
Proof.
  intros Hinit Hfile Ht pending.
  pose proof (init_indexes _ _ _ _ _ Hinit) as Hindexes.
  destruct (init_Ok _ _ _ _ _ Hinit) as (_ & Hnonempty & Htarget & _).
  unfold Executor.all_migrations_indexes in Hindexes.
  assert (0 < length (Executor.all_migrations self)) as Hlen.
  { destruct (Executor.all_migrations self); [done|simpl; lia]. }
  destruct (index_of_member _ _ _ Hindexes Htarget) as (t' & Ht' & Hin).
  rewrite Ht in Ht'. injection Ht' as <-. apply elem_of_seqZ in Hin.
  assert (mapM get_migration_index pending = Ok (seqZ 2 (t - 1))) as Hpending.
  { unfold pending. erewrite filter_within_indexes by done. f_equal.
    apply (filter_seqZ_within 1 t); lia. }
  split; [done|].
  rewrite migrate_file_not_ready by done.
  destruct (to_octobus_results _ file_contents) as [new|e]; [|done].
  cbn [mbind res_bind].
  edestruct (pending_names_constructed _ _ _ _ self
               (set_migration_version INITIAL_MIGRATION new) 1%Z Hinit)
    as (t' & Ht' & _ & Hnames); [apply initial_file_index|lia|].
  rewrite Ht in Ht'. injection Ht' as <-.
  rewrite Hnames. cbn [mbind res_bind]. fold pending.
  apply mapM_res_length in Hpending. rewrite length_seqZ in Hpending.
  destruct (decide (t = 1%Z)) as [->|Hne].
  - rewrite decide_True by lia. done.
  - rewrite decide_False by lia. done.
Qed.

Lemma migrate_file_initial_witness :
  ∃ self new,
    Executor.__init__ ["0002_whatever"; "0001_initial"]
      (λ name, if decide (name = "0001_initial") then [add_max_worker_count] else [])
      (Some two_by_two_catalog) (Some "0001_initial") = Ok self
    ∧ to_octobus_results (Some two_by_two_catalog) two_by_two = Ok new
    ∧ Executor.migrate_file self two_by_two
      = Ok (set_migration_version INITIAL_MIGRATION new).
Proof.
  destruct (Executor.__init__ ["0002_whatever"; "0001_initial"]
              (λ name, if decide (name = "0001_initial")
                       then [add_max_worker_count] else [])
              (Some two_by_two_catalog) (Some "0001_initial"))
    as [self|e] eqn:Hinit; [|vm_compute in Hinit; discriminate Hinit].
  destruct (to_octobus_results (Some two_by_two_catalog) two_by_two)
    as [new|e] eqn:Hnew; [|vm_compute in Hnew; discriminate Hnew].
  exists self, new. split; [done|]. split; [done|].
  destruct (init_fields _ _ _ _ _ Hinit) as (Hdata & _ & Htarget).
  destruct (migrate_file_initial _ _ _ _ self two_by_two 1%Z Hinit eq_refl) as [_ ->].
  - by rewrite (Htarget _ eq_refl).
  - by rewrite Hdata, Hnew.
Defined.

Lemma forwards_empty (self : AddBenchParam.t) (st : state) :
  octobus_results st = Some [] →
  AddBenchParam.forwards self st
  = if bench_param_names st is None then Err (KeyError "bench_param_names") else Ok st.
Proof.
  intros Hempty. unfold AddBenchParam.forwards. rewrite Hempty.
  destruct st as [? ? ? [names|] ?]; simpl in *; [|done]. by subst.
Qed.

Lemma apply_empty (migrations : list Migration.t) (st : state) :
  octobus_results st = Some [] →
  foldlM (λ st migration, Migration.apply migration st) migrations st
  = match bench_param_names st, migrations ≫= Migration.operations with
    | None, _ :: _ => Err (KeyError "bench_param_names")
    | _, _ => Ok st
    end.
Proof.
  intros Hempty.
  assert (∀ migration,
            Migration.apply migration st
            = match bench_param_names st, Migration.operations migration with
              | None, _ :: _ => Err (KeyError "bench_param_names")
              | _, _ => Ok st
              end) as Hoperations.
  { intros migration. unfold Migration.apply.
    generalize (Migration.operations migration). intros operations.
    destruct (bench_param_names st) as [names|] eqn:Hnames.
    - induction operations as [|operation operations IH]; [done|].
      cbn [foldlM]. rewrite forwards_empty, Hnames by done. apply IH.
    - destruct operations as [|operation operations]; [done|].
      cbn [foldlM]. by rewrite forwards_empty, Hnames by done. }
  destruct (bench_param_names st) as [names|] eqn:Hnames.
  - induction migrations as [|migration migrations IH]; [done|].
    cbn [foldlM]. rewrite Hoperations. apply IH.
  - induction migrations as [|migration migrations IH]; [done|].
    cbn [foldlM]. rewrite bind_cons, Hoperations.
    destruct (Migration.operations migration) as [|operation operations]; [|done].
    cbn [mbind res_bind app]. apply IH.
Qed.

(** X11: with a constructed registry whose target is not its first
    migration, a file with no marker, or a marker of index 0, and no results
    in column form cannot be migrated: its object form is empty, so the call
    ends in the "non-empty octobus_results" [UserError] of the conversion
    back, or before that in [KeyError('bench_param_names')] when the file
    has no table of parameter names and a pending migration has an
    operation. *)
Theorem migrate_file_without_results found modules benchmarks target
    (self : Executor.t) (file_contents : state) (t : Z) :
  Executor.__init__ found modules benchmarks target = Ok self →
  get_file_migration_index file_contents = Ok 0%Z →
  results file_contents = None →
  get_migration_index (Executor.target self) = Ok t →
  t ≠ 1%Z →
  Executor.migrate_file self file_contents
  = Err match bench_param_names file_contents,
              filter (index_within 1 t) (Executor.all_migrations self)
                ≫= Executor.migrations_modules self with
        | None, _ :: _ => KeyError "bench_param_names"
        | _, _ => UserError EmptyOctobusResults
        end.
Proof.
  intros Hinit Hfile Hresults Ht Hne.
  rewrite migrate_file_not_ready by done.
  unfold to_octobus_results. rewrite Hresults. cbn [mbind res_bind].
  set (ready := set_migration_version INITIAL_MIGRATION
                  (set_octobus_results [] file_contents)).
  pose proof (init_indexes _ _ _ _ _ Hinit) as Hindexes.
  destruct (init_Ok _ _ _ _ _ Hinit) as (_ & _ & Htarget & _).
  unfold Executor.all_migrations_indexes in Hindexes.
  destruct (index_of_member _ _ _ Hindexes Htarget) as (t' & Ht' & Hin).
  rewrite Ht in Ht'. injection Ht' as <-. apply elem_of_seqZ in Hin.
  edestruct (pending_names_constructed _ _ _ _ self ready 1%Z Hinit)
    as (t' & Ht' & _ & ->); [apply initial_file_index|lia|].
  rewrite Ht in Ht'. injection Ht' as <-. cbn [mbind res_bind].
  assert (Executor.target self
            ∈ filter (index_within 1 t) (Executor.all_migrations self)) as Hpending.
  { apply list_elem_of_filter. split; [|done]. unfold index_within. rewrite Ht. lia. }
  rewrite decide_False by (intros Hnil%nil_length_inv; rewrite Hnil in Hpending;
                           by apply elem_of_nil in Hpending).
  rewrite apply_empty by done.
  assert (filter (index_within 1 t) (Executor.all_migrations self)
            ≫= Executor.migrations_modules self
          = (Executor.get_migration_instance self
               <$> filter (index_within 1 t) (Executor.all_migrations self))
              ≫= Migration.operations) as <-.
  { generalize (filter (index_within 1 t) (Executor.all_migrations self)).
    intros names. induction names as [|name names IH]; [done|].
    rewrite fmap_cons, !bind_cons, IH. reflexivity. }
  change (bench_param_names ready) with (bench_param_names file_contents).
  destruct (bench_param_names file_contents),
    (filter (index_within 1 t) (Executor.all_migrations self)
       ≫= Executor.migrations_modules self); reflexivity.
Qed.

Lemma migrate_file_without_results_witness :
  ∃ self,
    Executor.__init__ ["0002_whatever"; "0001_initial"]
      (λ name, if decide (name = "0002_whatever") then [add_max_worker_count] else [])
      None None = Ok self
    ∧ Executor.migrate_file self (State None None None None None)
      = Err (KeyError "bench_param_names")
    ∧ Executor.migrate_file self (State None None None (Some []) None)
      = Err (UserError EmptyOctobusResults).
Proof.
  destruct (Executor.__init__ ["0002_whatever"; "0001_initial"]
              (λ name, if decide (name = "0002_whatever")
                       then [add_max_worker_count] else [])
              None None) as [self|e] eqn:Hinit; [|vm_compute in Hinit; discriminate Hinit].
  exists self. split; [done|].
  pose proof (migrate_file_without_results _ _ _ _ self (State None None None None None)
                2%Z Hinit eq_refl eq_refl) as Hfirst.
  pose proof (migrate_file_without_results _ _ _ _ self
                (State None None None (Some []) None) 2%Z Hinit eq_refl eq_refl)
    as Hsecond.
  vm_compute in Hinit. injection Hinit as <-.
  split; [by rewrite Hfirst|by rewrite Hsecond].
Defined.

(** ** Construction of an operation *)

Lemma length_py_set_step (s l : list pyval) :
  length (foldl (λ s a, if py_in a s then s else s ++ [a]) s l) ≤ length s + length l
  ∧ (length (foldl (λ s a, if py_in a s then s else s ++ [a]) s l) < length s + length l
     ↔ ∃ pre a post, l = pre ++ a :: post ∧ py_in a (s ++ pre) = true).
Proof.
  revert s. induction l as [|x l IH]; intros s; cbn [foldl length].
  { split; [lia|]. split; [lia|]. intros (pre & a & post & Hl & _). by destruct pre. }
  destruct (py_in x s) eqn:Hx.
  - destruct (IH s) as [Hle _]. split; [lia|]. split; [|lia].
    intros _. exists [], x, l. by rewrite app_nil_r.
  - destruct (IH (s ++ [x])) as [Hle Hlt]. rewrite length_app in Hle, Hlt.
    cbn [length] in Hle, Hlt. split; [lia|].
    etrans; [|etrans; [apply Hlt|]]; [split; lia|]. split.
    + intros (pre & a & post & -> & Ha). exists (x :: pre), a, post.
      split; [done|]. by rewrite <-app_assoc in Ha.
    + intros (pre & a & post & Hl & Ha). destruct pre as [|y pre].
      * rewrite app_nil_r in Ha. simpl in Hl. injection Hl as -> ->. congruence.
      * simpl in Hl. injection Hl as -> ->. exists pre, a, post.
        split; [done|]. by rewrite <-app_assoc.
Qed.

Lemma py_eqb_None (a : pyval) : py_eqb a PNone = true ↔ a = PNone.
Proof. by destruct a. Qed.

(** X12: what the constructor of [AddBenchParam] accepts.  It raises the
    "values must be unique" error exactly when some value equals, under
    Python's [==], one that stands before it in [values]; otherwise it raises
    the "wrong default" error exactly when the default is not [None] and
    equals none of the values; otherwise it succeeds, with the [repr] of each
    value in the order given and the [repr] of the default. *)
Theorem init_checks_values (_repr_no_address : pyval → string) (name : string)
    (values : list pyval) (default : pyval) (targets : string → bool)
    (insert_after insert_before : option string) :
  let repeated := ∃ pre a post, values = pre ++ a :: post ∧ py_in a pre = true in
  let init := AddBenchParam.__init__ _repr_no_address name values default targets
                                     insert_after insert_before in
  (init = Err (UserError ValuesNotUnique) ↔ repeated)
  ∧ (init = Err (UserError WrongDefault)
     ↔ ¬ repeated ∧ default ≠ PNone ∧ py_in default values = false)
  ∧ (∀ self, init = Ok self
     ↔ ¬ repeated ∧ (default = PNone ∨ py_in default values = true)
       ∧ self = AddBenchParam.Make name (_repr_no_address <$> values)
                                   (_repr_no_address default) targets
                                   insert_after insert_before).
Proof.
  intros repeated init. subst init. unfold AddBenchParam.__init__.
  destruct (length_py_set_step [] values) as [_ Hlt]. simpl in Hlt.
  fold (py_set values) in Hlt. fold repeated in Hlt.
  destruct (bool_decide_reflect (length (py_set values) < length values)) as [Hdup|Hnodup].
  { apply Hlt in Hdup. split_and!; [done| |intros self]; split; try done; by intros []. }
  assert (¬ repeated) as Hnot by (by rewrite <-Hlt).
  destruct (py_eqb default PNone) eqn:Hnone; simpl.
  - apply py_eqb_None in Hnone as ->.
    split_and!; [done| |intros self]; split; try done.
    + by intros (_ & ? & _).
    + intros [= <-]. auto.
    + by intros (_ & _ & ->).
  - assert (default ≠ PNone) as Hdefault.
    { intros ->. done. }
    destruct (py_in default values) eqn:Hin; simpl.
    + split_and!; [done| |intros self]; split; try done.
      * by intros (_ & _ & ?).
      * intros [= <-]. auto.
      * by intros (_ & _ & ->).
    + split_and!; [done| |intros self]; split; try done.
      by intros (_ & [?|?] & _).
Qed.

Lemma init_checks_values_witness :
  AddBenchParam.__init__ repr_plain "max_worker_count" [PInt 1; PBool true] (PInt 1)
                         (λ _, true) None None
  = Err (UserError ValuesNotUnique).
Proof.
  apply (init_checks_values repr_plain "max_worker_count" [PInt 1; PBool true] (PInt 1)
           (λ _, true) None None).
  exists [PInt 1], (PBool true), []. split; reflexivity.
Defined.

(** ** Where the new parameter goes *)

(** X13: when the name differs from the neighbor and does not occur in
    front of it, [update_param_names] puts it right behind the first
    [insert_after], or right in front of the first [insert_before], or
    between the two when [insert_before] follows the first [insert_after];
    with both given and the first [insert_after] at the very end of the
    list, the look at the next entry raises [IndexError]. *)
Theorem update_param_names_inserts (self : AddBenchParam.t) (pre rest : list string) :
  let name := AddBenchParam.name self in
  name ∉ pre →
  (∀ after,
     AddBenchParam.given (AddBenchParam.insert_after self) = Some after →
     AddBenchParam.given (AddBenchParam.insert_before self) = None →
     name ≠ after → after ∉ pre →
     AddBenchParam.update_param_names self (pre ++ after :: rest)
     = Ok (pre ++ after :: name :: rest))
  ∧ (∀ before,
       AddBenchParam.given (AddBenchParam.insert_after self) = None →
       AddBenchParam.given (AddBenchParam.insert_before self) = Some before →
       name ≠ before → before ∉ pre →
       AddBenchParam.update_param_names self (pre ++ before :: rest)
       = Ok (pre ++ name :: before :: rest))
  ∧ (∀ after before,
       AddBenchParam.given (AddBenchParam.insert_after self) = Some after →
       AddBenchParam.given (AddBenchParam.insert_before self) = Some before →
       name ≠ after → after ∉ pre →
       AddBenchParam.update_param_names self (pre ++ after :: before :: rest)
       = Ok (pre ++ after :: name :: before :: rest)
       ∧ AddBenchParam.update_param_names self (pre ++ [after]) = Err IndexError).
Proof.
  intros name Hpre. unfold AddBenchParam.update_param_names. fold name.
  split_and!.
  - intros after -> -> Hname Hafter.
    rewrite insert_behind_fresh by done. simpl.
    rewrite decide_False by done. by rewrite decide_True.
  - intros before -> -> Hname Hbefore.
    rewrite insert_ahead_fresh by done. simpl.
    rewrite decide_False by done. by rewrite decide_True.
  - intros after before -> -> Hname Hafter. split.
    + rewrite insert_between_fresh by done. simpl.
      rewrite decide_False by done. rewrite decide_True by done.
      by rewrite decide_True.
    + rewrite insert_between_fresh by done. simpl.
      rewrite decide_False by done. by rewrite decide_True.
Qed.

Lemma update_param_names_inserts_witness :
  AddBenchParam.update_param_names after_a_before_d (["x"] ++ "a" :: "d" :: ["e"])
  = Ok (["x"] ++ "a" :: "b" :: "d" :: ["e"])
  ∧ AddBenchParam.update_param_names after_a_before_d (["x"] ++ ["a"]) = Err IndexError.
Proof.
  destruct (update_param_names_inserts after_a_before_d ["x"] ["e"]) as (_ & _ & H).
  - apply (bool_decide_unpack _). reflexivity.
  - apply (H "a" "d"); [reflexivity|reflexivity|discriminate|].
    apply (bool_decide_unpack _). reflexivity.
Defined.

Lemma insert_between_Ok (name after before : string) (names names' : list string) :
  AddBenchParam.insert_between name after before names = Ok names' →
  names' = names ∧ name ∈ names
  ∨ ∃ pre post, names = pre ++ post ∧ names' = pre ++ name :: post.
Proof.
  revert names'. induction names as [|param_name rest IH]; intros names'; simpl; [done|].
  destruct (decide (param_name = name)) as [->|].
  { intros [= <-]. left. split; [done|left]. }
  destruct (decide (param_name = after)) as [->|].
  { destruct rest as [|next rest']; [done|]. destruct (decide _); [|done].
    intros [= <-]. right. by exists [after], (next :: rest'). }
  intros (rest' & Hrest' & [= <-])%bind_Ok.
  destruct (IH _ Hrest') as [[-> Hin]|(pre & post & -> & ->)].
  - left. split; [done|by right].
  - right. by exists (param_name :: pre), post.
Qed.

Lemma insert_behind_Ok (name after : string) (names names' : list string) :
  AddBenchParam.insert_behind name after names = Ok names' →
  names' = names ∧ name ∈ names
  ∨ ∃ pre post, names = pre ++ post ∧ names' = pre ++ name :: post.
Proof.
  revert names'. induction names as [|param_name rest IH]; intros names'; simpl; [done|].
  destruct (decide (param_name = name)) as [->|].
  { intros [= <-]. left. split; [done|left]. }
  destruct (decide (param_name = after)) as [->|].
  { intros [= <-]. right. by exists [after], rest. }
  intros (rest' & Hrest' & [= <-])%bind_Ok.
  destruct (IH _ Hrest') as [[-> Hin]|(pre & post & -> & ->)].
  - left. split; [done|by right].
  - right. by exists (param_name :: pre), post.
Qed.

Lemma insert_ahead_Ok (name before : string) (names names' : list string) :
  AddBenchParam.insert_ahead name before names = Ok names' →
  names' = names ∧ name ∈ names
  ∨ ∃ pre post, names = pre ++ post ∧ names' = pre ++ name :: post.
Proof.
  revert names'. induction names as [|param_name rest IH]; intros names'; simpl; [done|].
  destruct (decide (param_name = name)) as [->|].
  { intros [= <-]. left. split; [done|left]. }
  destruct (decide (param_name = before)) as [->|].
  { intros [= <-]. right. by exists [], (before :: rest). }
  intros (rest' & Hrest' & [= <-])%bind_Ok.
  destruct (IH _ Hrest') as [[-> Hin]|(pre & post & -> & ->)].
  - left. split; [done|by right].
  - right. by exists (param_name :: pre), post.
Qed.

Lemma update_param_names_Ok (self : AddBenchParam.t) (names names' : list string) :
  AddBenchParam.update_param_names self names = Ok names' →
  names' = names ∧ AddBenchParam.name self ∈ names
  ∨ ∃ pre post, names = pre ++ post ∧ names' = pre ++ AddBenchParam.name self :: post.
Proof.
  unfold AddBenchParam.update_param_names.
  destruct (AddBenchParam.given _) as [after|], (AddBenchParam.given _) as [before|].
  - apply insert_between_Ok.
  - apply insert_behind_Ok.
  - apply insert_ahead_Ok.
  - destruct (decide _) as [Hin|Hnotin]; intros [= <-]; [by left|].
    right. exists names, []. by rewrite app_nil_r.
Qed.

(** X14: when [update_param_names] succeeds, the list is either left as it
    was, and then it held the name already, or it has the name inserted at
    one place with every other entry kept in order.  Either way the name is
    in the list afterwards and the list is at most one entry longer. *)
Theorem update_param_names_keeps (self : AddBenchParam.t) (names names' : list string) :
  AddBenchParam.update_param_names self names = Ok names' →
  (names' = names ∧ AddBenchParam.name self ∈ names
   ∨ ∃ pre post, names = pre ++ post ∧ names' = pre ++ AddBenchParam.name self :: post)
  ∧ AddBenchParam.name self ∈ names'
  ∧ names `sublist_of` names'
  ∧ length names ≤ length names' ≤ length names + 1.
Proof.
  intros Hrun. split; [by apply update_param_names_Ok|].
  destruct (update_param_names_Ok _ _ _ Hrun) as [[-> Hin]|(pre & post & -> & ->)].
  - split_and!; [done|done|lia|lia].
  - split_and!.
    + set_solver.
    + apply sublist_app; [done|by apply sublist_cons].
    + rewrite !length_app. simpl. lia.
    + rewrite !length_app. simpl. lia.
Qed.

Lemma update_param_names_keeps_witness :
  (["x"; "a"; "b"; "d"] = ["x"; "a"; "d"] ∧ "b" ∈ ["x"; "a"; "d"]
   ∨ ∃ pre post, ["x"; "a"; "d"] = pre ++ post
                 ∧ ["x"; "a"; "b"; "d"] = pre ++ "b" :: post)
  ∧ "b" ∈ ["x"; "a"; "b"; "d"]
  ∧ ["x"; "a"; "d"] `sublist_of` ["x"; "a"; "b"; "d"]
  ∧ length ["x"; "a"; "d"] ≤ length ["x"; "a"; "b"; "d"] ≤ length ["x"; "a"; "d"] + 1.
Proof.
  apply (update_param_names_keeps after_a_before_d ["x"; "a"; "d"] ["x"; "a"; "b"; "d"]).
  reflexivity.
Defined.

(** ** What an operation does to a file *)

Lemma forwards_bench_names (self : AddBenchParam.t) param_names new name bench
    param_names' new' :
  AddBenchParam.forwards_bench self (param_names, new) (name, bench)
    = Ok (param_names', new') →
  if AddBenchParam.is_benchmark_targeted self name
  then ∃ updated,
      AddBenchParam.update_param_names self (default [] (od_get name param_names))
        = Ok updated
      ∧ ∀ k, od_get k param_names'
             = if decide (name = k) then Some updated else od_get k param_names
  else param_names' = param_names.
Proof.
  unfold AddBenchParam.forwards_bench.
  destruct (AddBenchParam.is_benchmark_targeted self name); simpl.
  { rewrite od_get_setdefault. simpl.
    intros (updated & Hupdated & [= <- <-])%bind_Ok.
    exists updated. split; [done|]. intros k.
    rewrite od_set_setdefault. apply od_get_set. }
  by intros [= <- <-].
Qed.

Lemma forwards_loop_names (self : AddBenchParam.t) octobus param_names new
    param_names' new' :
  foldlM (AddBenchParam.forwards_bench self) octobus (param_names, new)
    = Ok (param_names', new') →
  NoDup (od_keys octobus) →
  ∀ name,
    if AddBenchParam.is_benchmark_targeted self name && bool_decide (name ∈ od_keys octobus)
    then ∃ updated,
        AddBenchParam.update_param_names self (default [] (od_get name param_names))
          = Ok updated
        ∧ od_get name param_names' = Some updated
    else od_get name param_names' = od_get name param_names.
Proof.
  revert param_names new.
  induction octobus as [|[bench records] octobus IH]; intros param_names new.
  { intros [= <- <-] _ name. by rewrite andb_false_r. }
  cbn [foldlM]. intros ([names1 new1] & Hstep & Hloop)%bind_Ok.
  unfold od_keys. rewrite fmap_cons. fold (od_keys octobus). cbn [fst].
  intros [Hfresh Hnodup]%NoDup_cons name.
  pose proof (IH _ _ Hloop Hnodup name) as Hrest.
  apply forwards_bench_names in Hstep.
  destruct (AddBenchParam.is_benchmark_targeted self name) eqn:Htargeted; simpl in *.
  - destruct (decide (name = bench)) as [->|Hne].
    + rewrite bool_decide_eq_true_2 by left.
      rewrite bool_decide_eq_false_2 in Hrest by done.
      rewrite Htargeted in Hstep. destruct Hstep as (updated & Hupdated & Hget).
      exists updated. split; [done|]. rewrite Hrest, Hget. by rewrite decide_True.
    + assert (od_get name names1 = od_get name param_names) as Hsame.
      { destruct (AddBenchParam.is_benchmark_targeted self bench); [|by subst].
        destruct Hstep as (updated & _ & ->). by rewrite decide_False. }
      destruct (bool_decide_reflect (name ∈ od_keys octobus)) as [Hin|Hnotin].
      * rewrite bool_decide_eq_true_2 by (by right). by rewrite <-Hsame.
      * rewrite bool_decide_eq_false_2 by set_solver. by rewrite Hrest.
  - rewrite Hrest. destruct (decide (name = bench)) as [->|Hne].
    + rewrite Htargeted in Hstep. by subst.
    + destruct (AddBenchParam.is_benchmark_targeted self bench); [|by subst].
      destruct Hstep as (updated & _ & ->). by rewrite decide_False.
Qed.

(** X15: what a successful [forwards] does to the parameter names of a
    file whose benchmarks are distinct: the list of each targeted benchmark
    that has results is the one [update_param_names] gives (from the empty
    list when it had none), the lists of the other benchmarks are untouched,
    and so are the result lines in column form, the result columns and the
    migration marker. *)
Theorem forwards_updates_names (self : AddBenchParam.t) (st st' : state)
    (octobus : odict (list bench_result)) (names : odict (list string)) :
  octobus_results st = Some octobus →
  bench_param_names st = Some names →
  NoDup (od_keys octobus) →
  AddBenchParam.forwards self st = Ok st' →
  results st' = results st
  ∧ result_columns st' = result_columns st
  ∧ octobus_migration_version st' = octobus_migration_version st
  ∧ ∃ names',
      bench_param_names st' = Some names'
      ∧ ∀ name,
          if AddBenchParam.is_benchmark_targeted self name
             && bool_decide (name ∈ od_keys octobus)
          then ∃ updated,
              AddBenchParam.update_param_names self (default [] (od_get name names))
                = Ok updated
              ∧ od_get name names' = Some updated
          else od_get name names' = od_get name names.
Proof.
  intros Hoctobus Hnames Hnodup. unfold AddBenchParam.forwards.
  rewrite Hoctobus, Hnames. simpl.
  intros ([names' new] & Hloop & [= <-])%bind_Ok. simpl.
  split_and!; [done..|]. exists names'. split; [done|].
  by eapply forwards_loop_names.
Qed.

Lemma forwards_updates_names_witness :
  ∃ st',
    AddBenchParam.forwards add_max_worker_count two_benchmarks = Ok st'
    ∧ results st' = results two_benchmarks
    ∧ result_columns st' = result_columns two_benchmarks
    ∧ octobus_migration_version st' = octobus_migration_version two_benchmarks
    ∧ ∃ names',
        bench_param_names st' = Some names'
        ∧ ∀ name,
            if AddBenchParam.is_benchmark_targeted add_max_worker_count name
               && bool_decide (name ∈ od_keys [("status.mard.track",
                                                  [measured 1 "'test'"; measured 2 "'test2'"]);
                                                 ("other", [measured 3 "'test'"])])
            then ∃ updated,
                AddBenchParam.update_param_names add_max_worker_count
                  (default [] (od_get name [("status.mard.track", ["repo"]);
                                            ("other", ["repo"])]))
                  = Ok updated
                ∧ od_get name names' = Some updated
            else od_get name names'
                 = od_get name [("status.mard.track", ["repo"]); ("other", ["repo"])].
Proof.
  destruct (AddBenchParam.forwards add_max_worker_count two_benchmarks)
    as [st'|e] eqn:Hrun; [|vm_compute in Hrun; discriminate Hrun].
  exists st'. split; [done|].
  apply (forwards_updates_names add_max_worker_count two_benchmarks st' _ _
           eq_refl eq_refl); [|done].
  apply (bool_decide_unpack _). reflexivity.
Defined.

Lemma forwards_bench_total (self : AddBenchParam.t) acc item :
  (∀ names, ∃ names', AddBenchParam.update_param_names self names = Ok names') →
  ∃ acc', AddBenchParam.forwards_bench self acc item = Ok acc'.
Proof.
  intros Htotal. destruct acc as [param_names new], item as [name bench].
  unfold AddBenchParam.forwards_bench.
  destruct (AddBenchParam.is_benchmark_targeted self name); simpl; [|by eexists].
  destruct (Htotal (default [] (od_get name (od_setdefault name [] param_names))))
    as [names' ->].
  by eexists.
Qed.

Lemma forwards_loop_total (self : AddBenchParam.t) octobus acc :
  (∀ names, ∃ names', AddBenchParam.update_param_names self names = Ok names') →
  ∃ acc', foldlM (AddBenchParam.forwards_bench self) octobus acc = Ok acc'.
Proof.
  intros Htotal. revert acc.
  induction octobus as [|item octobus IH]; intros acc; [by eexists|].
  cbn [foldlM]. destruct (forwards_bench_total self acc item Htotal) as [acc' ->].
  simpl. apply IH.
Qed.

(** X16: when [forwards] fails.  A file without the table of parameter
    names, or with it and without the results in object form, gives the
    [KeyError] of that key; every other failure is one of
    [update_param_names]; and an operation with no neighbor given never
    fails on a file that has both tables. *)
Theorem forwards_failures (self : AddBenchParam.t) (st : state) :
  (bench_param_names st = None →
   AddBenchParam.forwards self st = Err (KeyError "bench_param_names"))
  ∧ (is_Some (bench_param_names st) → octobus_results st = None →
     AddBenchParam.forwards self st = Err (KeyError "octobus_results"))
  ∧ (∀ e, AddBenchParam.forwards self st = Err e →
       is_Some (bench_param_names st) → is_Some (octobus_results st) →
       ∃ names, AddBenchParam.update_param_names self names = Err e)
  ∧ (AddBenchParam.given (AddBenchParam.insert_after self) = None →
     AddBenchParam.given (AddBenchParam.insert_before self) = None →
     is_Some (bench_param_names st) → is_Some (octobus_results st) →
     ∃ st', AddBenchParam.forwards self st = Ok st').
Proof.
  unfold AddBenchParam.forwards. split_and!.
  - by intros ->.
  - by intros [names ->] ->.
  - intros e Hrun [names Hnames] [octobus Hoctobus].
    rewrite Hnames, Hoctobus in Hrun. simpl in Hrun.
    apply bind_Err in Hrun as [Hrun|(? & _ & [=])].
    apply foldlM_Err in Hrun as ([param_names new] & [name bench] & _ & Hstep).
    unfold AddBenchParam.forwards_bench in Hstep.
    destruct (negb _); [done|].
    apply bind_Err in Hstep as [Hstep|(? & _ & [=])]. eauto.
  - intros Hafter Hbefore [names ->] [octobus ->]. simpl.
    destruct (forwards_loop_total self octobus (names, [])) as [acc ->]; [|by eexists].
    intros names0. unfold AddBenchParam.update_param_names.
    rewrite Hafter, Hbefore. destruct (decide _); by eexists.
Qed.

Lemma forwards_failures_witness :
  ∃ st', AddBenchParam.forwards add_max_worker_count two_benchmarks = Ok st'.
Proof.
  destruct (forwards_failures add_max_worker_count two_benchmarks) as (_ & _ & _ & H).
  apply H; [reflexivity|reflexivity|by eexists|by eexists].
Defined.

Lemma new_result_params (self : AddBenchParam.t) (original : bench_result) (value : string) :
  params (AddBenchParam.new_result self original value) !! AddBenchParam.name self
  = Some (if decide (value = AddBenchParam.default self)
          then default value (params original !! AddBenchParam.name self)
          else value)
  ∧ ∀ param, param ≠ AddBenchParam.name self →
      params (AddBenchParam.new_result self original value) !! param
      = params original !! param.
Proof.
  destruct (decide (value = AddBenchParam.default self)) as [->|Hother].
  - rewrite new_result_default. simpl.
    destruct (decide (is_Some (params original !! AddBenchParam.name self)))
      as [[old Hold]|Hnone].
    + by rewrite Hold.
    + rewrite lookup_insert_eq. apply eq_None_not_Some in Hnone. rewrite Hnone.
      split; [done|]. intros param Hparam. by rewrite lookup_insert_ne.
  - destruct (new_result_other self original value Hother) as [-> _].
    rewrite lookup_insert_eq. split; [done|].
    intros param Hparam. by rewrite lookup_insert_ne.
Qed.

(** X17: after a successful [forwards] on a file whose benchmarks are
    distinct, the benchmark's list of parameter names holds the new name, and
    the records of a targeted benchmark are the replicas of its original
    records, one for every original record and every value of the
    operation.  The replica of [original] for [value] agrees with [original]
    on every other parameter and holds [value] for the new parameter, except
    that the replica for the default value keeps the value [original] already
    had for it, if any. *)
Theorem forwards_adds_param (self : AddBenchParam.t) (st st' : state)
    (octobus : odict (list bench_result)) (names : odict (list string))
    (name : string) (bench : list bench_result) :
  octobus_results st = Some octobus →
  bench_param_names st = Some names →
  NoDup (od_keys octobus) →
  AddBenchParam.forwards self st = Ok st' →
  AddBenchParam.is_benchmark_targeted self name = true →
  od_get name octobus = Some bench →
  ∃ octobus' names' updated,
    octobus_results st' = Some octobus'
    ∧ bench_param_names st' = Some names'
    ∧ od_get name names' = Some updated
    ∧ AddBenchParam.name self ∈ updated
    ∧ ∃ records,
        od_get name octobus' = Some records
        ∧ (∀ record, record ∈ records →
             ∃ original value,
               original ∈ bench
               ∧ value ∈ AddBenchParam.values self
               ∧ record = AddBenchParam.new_result self original value)
        ∧ (∀ original value,
             original ∈ bench → value ∈ AddBenchParam.values self →
             AddBenchParam.new_result self original value ∈ records
             ∧ params (AddBenchParam.new_result self original value)
                 !! AddBenchParam.name self
               = Some (if decide (value = AddBenchParam.default self)
                       then default value (params original !! AddBenchParam.name self)
                       else value)
             ∧ ∀ param, param ≠ AddBenchParam.name self →
                 params (AddBenchParam.new_result self original value) !! param
                 = params original !! param).
Proof.
  intros Hoctobus Hnames Hnodup Hrun Htargeted Hbench.
  unfold AddBenchParam.forwards in Hrun. rewrite Hoctobus, Hnames in Hrun.
  simpl in Hrun. apply bind_Ok in Hrun as ([names' new] & Hloop & [= <-]).
  pose proof (forwards_loop_names _ _ _ _ _ _ Hloop Hnodup name) as Hupdated.
  rewrite Htargeted, bool_decide_eq_true_2 in Hupdated
    by (by eapply od_get_Some_keys).
  destruct Hupdated as (updated & Hupdated & Hget).
  apply forwards_loop_Ok in Hloop as ->; [|done]. simpl.
  eexists _, names', updated. split_and!; [done|done|done| |].
  { apply update_param_names_Ok in Hupdated as [[-> ?]|(pre & post & _ & ->)]; [done|].
    set_solver. }
  exists (expand self bench). split_and!.
  - pose proof (od_get_fmap (forwards_entry self) octobus name) as Hnew.
    rewrite Hbench in Hnew. simpl in Hnew. unfold forwards_entry in Hnew.
    by rewrite Htargeted in Hnew.
  - intros record (original & (value & -> & Hvalue)%list_elem_of_fmap & Horiginal)
                    %list_elem_of_bind.
    by exists original, value.
  - intros original value Horiginal Hvalue. split_and!.
    + apply list_elem_of_bind. exists original. split; [|done].
      apply list_elem_of_fmap. by exists value.
    + apply new_result_params.
    + apply new_result_params.
Qed.

Lemma forwards_adds_param_witness :
  ∃ st' octobus' names' updated records,
    AddBenchParam.forwards add_max_worker_count two_benchmarks = Ok st'
    ∧ octobus_results st' = Some octobus'
    ∧ bench_param_names st' = Some names'
    ∧ od_get "status.mard.track" names' = Some updated
    ∧ "max_worker_count" ∈ updated
    ∧ od_get "status.mard.track" octobus' = Some records
    ∧ AddBenchParam.new_result add_max_worker_count (measured 2 "'test2'") "2" ∈ records
    ∧ params (AddBenchParam.new_result add_max_worker_count (measured 2 "'test2'") "2")
        !! "max_worker_count" = Some "2"
    ∧ params (AddBenchParam.new_result add_max_worker_count (measured 2 "'test2'") "2")
        !! "repo" = Some "'test2'".
Proof.
  destruct (AddBenchParam.forwards add_max_worker_count two_benchmarks)
    as [st'|e] eqn:Hrun; [|vm_compute in Hrun; discriminate Hrun].
  destruct (forwards_adds_param add_max_worker_count two_benchmarks st' _ _
              "status.mard.track" [measured 1 "'test'"; measured 2 "'test2'"]
              eq_refl eq_refl)
    as (octobus' & names' & updated & H1 & H2 & H3 & H4 & records & H5 & _ & H6);
    [apply (bool_decide_unpack _); reflexivity|done|reflexivity|reflexivity|].
  destruct (H6 (measured 2 "'test2'") "2") as (Hin & Hnew & Hkept).
  { apply list_elem_of_further, list_elem_of_here. }
  { apply (bool_decide_unpack _). reflexivity. }
  exists st', octobus', names', updated, records.
  split_and!; [done..| |].
  - exact Hnew.
  - rewrite (Hkept "repo"); [reflexivity|discriminate].
Defined.

Lemma forwards_bench_untargeted (self : AddBenchParam.t) param_names new name bench :
  AddBenchParam.is_benchmark_targeted self name = false →
  AddBenchParam.forwards_bench self (param_names, new) (name, bench)
  = Ok (param_names, od_set name bench new).
Proof. intros Hnone. unfold AddBenchParam.forwards_bench. by rewrite Hnone. Qed.

Lemma forwards_loop_untargeted (self : AddBenchParam.t) octobus param_names new :
  (∀ name, name ∈ od_keys octobus →
           AddBenchParam.is_benchmark_targeted self name = false) →
  NoDup (od_keys new ++ od_keys octobus) →
  foldlM (AddBenchParam.forwards_bench self) octobus (param_names, new)
  = Ok (param_names, new ++ octobus).
Proof.
  revert new. induction octobus as [|[name bench] octobus IH]; intros new Hnone Hnodup.
  { by rewrite app_nil_r. }
  unfold od_keys in Hnone, Hnodup. rewrite fmap_cons in Hnone, Hnodup.
  fold (od_keys octobus) in Hnone, Hnodup. cbn [fst] in Hnone, Hnodup.
  cbn [foldlM]. rewrite forwards_bench_untargeted by (apply Hnone; left).
  cbn [mbind res_bind].
  assert (name ∉ od_keys new) as Hfresh.
  { apply NoDup_app in Hnodup as (_ & Hdisjoint & _). intros Hin.
    apply (Hdisjoint _ Hin). left. }
  rewrite od_set_fresh by done. rewrite IH.
  - by rewrite <-app_assoc.
  - intros name' Hname'. apply Hnone. by right.
  - unfold od_keys. rewrite fmap_app. fold (od_keys new) (od_keys octobus).
    by rewrite <-app_assoc.
Qed.

(** X18: an operation that targets none of the benchmarks of a file, the
    names of which are distinct, succeeds and leaves the file exactly as it
    was, whatever neighbors it names. *)
Theorem forwards_untargeted (self : AddBenchParam.t) (st : state)
    (octobus : odict (list bench_result)) :
  octobus_results st = Some octobus →
  is_Some (bench_param_names st) →
  NoDup (od_keys octobus) →
  (∀ name, name ∈ od_keys octobus →
           AddBenchParam.is_benchmark_targeted self name = false) →
  AddBenchParam.forwards self st = Ok st.
Proof.
  intros Hoctobus [names Hnames] Hnodup Hnone. unfold AddBenchParam.forwards.
  rewrite Hoctobus, Hnames. simpl.
  rewrite forwards_loop_untargeted by done. simpl.
  destruct st. simpl in *. by subst.
Qed.

Lemma forwards_untargeted_witness :
  AddBenchParam.forwards add_max_worker_count
    (State None None (Some [("other", [measured 3 "'test'"])]) (Some []) None)
  = Ok (State None None (Some [("other", [measured 3 "'test'"])]) (Some []) None).
Proof.
  apply (forwards_untargeted add_max_worker_count
           (State None None (Some [("other", [measured 3 "'test'"])]) (Some []) None)
           [("other", [measured 3 "'test'"])]).
  - reflexivity.
  - by eexists.
  - apply (bool_decide_unpack _). reflexivity.
  - intros name Hname%list_elem_of_singleton. subst name. reflexivity.
Defined.

(** ** From columns to objects *)

Lemma to_octobus_bench_step (benchmarks : catalog) (st : state) (columns : list string)
    (acc : odict (list string) * odict (list bench_result))
    (bench : string) (line : list value) :
  result_columns st = Some columns →
  to_octobus_bench (Some benchmarks) st acc (bench, line)
  = match benchmarks !! bench with
    | None => Ok acc
    | Some param_names =>
        new_results ← explode columns param_names line;
        mret (od_set bench param_names acc.1,
              foldl (λ octobus new_result, od_append bench new_result octobus)
                    acc.2 new_results)
    end.
Proof.
  intros Hcolumns. unfold to_octobus_bench. simpl.
  destruct (benchmarks !! bench); [|done]. by rewrite Hcolumns.
Qed.

Lemma to_octobus_loop_general (benchmarks : catalog) (st : state) (columns : list string)
    (lines : odict (list value)) (names : odict (list string))
    (octobus : odict (list bench_result)) :
  result_columns st = Some columns →
  NoDup (od_keys lines) →
  (∀ k, k ∈ od_keys lines → (k ∉ od_keys names) ∧ (k ∉ od_keys octobus)) →
  (∀ names' octobus',
     foldlM (to_octobus_bench (Some benchmarks) st) lines (names, octobus)
       = Ok (names', octobus') →
     names' = names ++ omap (λ item, (item.1,.) <$> benchmarks !! item.1) lines
     ∧ octobus'
       = octobus
         ++ omap (λ item,
                    param_names ← benchmarks !! item.1;
                    match explode columns param_names item.2 with
                    | Ok (record :: records) => Some (item.1, record :: records)
                    | _ => None
                    end) lines)
  ∧ ((∃ acc, foldlM (to_octobus_bench (Some benchmarks) st) lines (names, octobus) = Ok acc)
     ↔ Forall (λ item, ∀ param_names,
                 benchmarks !! item.1 = Some param_names →
                 ∃ records, explode columns param_names item.2 = Ok records) lines).
Proof.
  intros Hcolumns. revert names octobus.
  induction lines as [|[bench line] lines IH]; intros names octobus Hnodup Hfresh.
  { split.
    - intros names' octobus' [= <- <-]. by rewrite !app_nil_r.
    - split; [constructor|by eexists]. }
  unfold od_keys in Hnodup, Hfresh. rewrite fmap_cons in Hnodup, Hfresh.
  fold (od_keys lines) in Hnodup, Hfresh. cbn [fst] in Hnodup, Hfresh.
  apply NoDup_cons in Hnodup as [Hbench Hnodup].
  destruct (Hfresh bench) as [Hbench_names Hbench_octobus]; [left|].
  cbn [foldlM omap list_omap fst snd]. rewrite Forall_cons. cbn [fst snd].
  rewrite (to_octobus_bench_step _ _ _ _ _ _ Hcolumns). cbn [fst snd].
  destruct (benchmarks !! bench) as [param_names|] eqn:Hknown;
    cbn [fmap option_fmap option_map mbind option_bind].
  - destruct (explode columns param_names line) as [records|e] eqn:Hexplode;
      cbn [mbind res_bind mret res_ret].
    + rewrite od_set_fresh by done.
      assert (foldl (λ octobus new_result, od_append bench new_result octobus)
                    octobus records
              = octobus ++ match records with
                           | [] => []
                           | record :: records => [(bench, record :: records)]
                           end) as ->.
      { destruct records as [|record records]; [by rewrite app_nil_r|].
        by apply od_append_all. }
      edestruct (IH (names ++ [(bench, param_names)])
                    (octobus ++ match records with
                                | [] => []
                                | record :: records => [(bench, record :: records)]
                                end)) as [Hshape Hrun]; [done| |].
      { intros k Hk. destruct (Hfresh k) as [? ?]; [by right|].
        unfold od_keys. rewrite !fmap_app. fold (od_keys names) (od_keys octobus).
        assert (k ≠ bench) by (by intros ->).
        destruct records; set_solver. }
      split.
      * intros names' octobus' Hloop. destruct (Hshape _ _ Hloop) as [-> ->].
        rewrite <-!app_assoc. by destruct records.
      * rewrite Hrun. split; [intros Hall; split; [|done]|by intros [_ ?]].
        intros ? [= <-]. eauto.
    + split; [done|]. split; [by intros [? [=]]|].
      intros [Hhead _]. destruct (Hhead _ eq_refl) as [? ?]. congruence.
  - destruct (IH names octobus) as [Hshape Hrun]; [done| |].
    { intros k Hk. apply Hfresh. by right. }
    split; [done|]. rewrite Hrun. split; [by split|by intros [_ ?]].
Qed.

(** X19: the conversion of a file in column form, for a file that has its
    result columns and whose benchmarks are all distinct.  It succeeds exactly
    when the lines of every benchmark the catalog knows can be exploded.
    Then the benchmarks the catalog does not know are skipped; the known
    ones get the catalog's parameter names, in the order of the file; each
    known one with at least one combination of parameter values gets its
    exploded records; and the results in column form, the result columns and
    the marker are kept. *)
Theorem to_octobus_results_known (benchmarks : catalog) (st : state)
    (columns : list string) (lines : odict (list value)) :
  results st = Some lines →
  result_columns st = Some columns →
  NoDup (od_keys lines) →
  ((∃ out, to_octobus_results (Some benchmarks) st = Ok out)
   ↔ Forall (λ item, ∀ param_names,
               benchmarks !! item.1 = Some param_names →
               ∃ records, explode columns param_names item.2 = Ok records) lines)
  ∧ ∀ out,
      to_octobus_results (Some benchmarks) st = Ok out →
      out = State (Some lines) (Some columns)
              (Some (omap (λ item,
                             param_names ← benchmarks !! item.1;
                             match explode columns param_names item.2 with
                             | Ok (record :: records) => Some (item.1, record :: records)
                             | _ => None
                             end) lines))
              (Some (omap (λ item, (item.1,.) <$> benchmarks !! item.1) lines))
              (octobus_migration_version st).
Proof.
  intros Hresults Hcolumns Hnodup.
  destruct (to_octobus_loop_general benchmarks st columns lines [] [] Hcolumns Hnodup)
    as [Hshape Hrun].
  { intros k _. split; apply not_elem_of_nil. }
  unfold to_octobus_results. rewrite Hresults. split.
  - rewrite <-Hrun. split.
    + intros [out (acc & Hacc & _)%bind_Ok]. eauto.
    + intros [acc ->]. by eexists.
  - intros out ([names' octobus'] & Hloop & [= <-])%bind_Ok.
    destruct (Hshape _ _ Hloop) as [-> ->]. simpl.
    unfold set_octobus_results, set_bench_param_names. simpl.
    by rewrite Hresults, Hcolumns.
Qed.

Lemma to_octobus_results_known_witness :
  ∃ out, to_octobus_results (Some two_by_two_catalog) two_by_two = Ok out.
Proof.
  destruct (to_octobus_results_known two_by_two_catalog two_by_two _ _ eq_refl eq_refl)
    as [Hrun _].
  - apply (bool_decide_unpack _). reflexivity.
  - apply Hrun. repeat constructor. intros param_names Hknown.
    vm_compute in Hknown. injection Hknown as <-.
    destruct (explode _ _ _) as [records|e] eqn:Hexplode; [by eexists|].
    vm_compute in Hexplode. discriminate Hexplode.
Defined.

Lemma length_product {A} (dims : list (list A)) :
  length (product dims) = foldr (λ dim n, length dim * n) 1 dims.
Proof.
  induction dims as [|dim dims IH]; [done|]. cbn [product foldr]. rewrite <-IH.
  induction dim as [|x dim IHdim]; [done|].
  rewrite bind_cons, length_app, length_fmap, IHdim. simpl. lia.
Qed.

(** X20: the records [explode] returns for a benchmark with distinct
    parameter names: one per combination of the value lists of its ['params']
    line, so their number is the product of the sizes of these lists; record
    number [i] maps each parameter name to its value in combination number
    [i], the last parameter varying fastest, and holds the fields matched at
    index [i]. *)
Theorem explode_combinations (result_columns param_names : list string)
    (result_lines : list value) (records : list bench_result) :
  NoDup param_names →
  explode result_columns param_names result_lines = Ok records →
  ∃ raw dims,
    od_get "params" (OrderedDict (zip result_columns result_lines)) = Some (VList raw)
    ∧ mapM param_values raw = Ok dims
    ∧ length dims ≤ length param_names
    ∧ length records = foldr (λ dim n, length dim * n) 1 dims
    ∧ ∀ i record, records !! i = Some record →
        ∃ combo,
          product dims !! i = Some combo
          ∧ (∀ d name, param_names !! d = Some name →
               params record !! name = combo !! d)
          ∧ fields record
            = matched_fields result_columns
                (OrderedDict (zip result_columns result_lines)) i.
Proof.
  intros Hnodup. unfold explode. intros ([] & _ & H)%bind_Ok.
  apply bind_Ok in H as (raw_params & Hraw & H).
  destruct raw_params as [| | | |raw|]; try done.
  apply bind_Ok in H as ([] & Hlen & H).
  apply bind_Ok in H as (dims & Hdims & [= <-]).
  unfold assert in Hlen.
  destruct (bool_decide_reflect (length raw ≤ length param_names)) as [Hle|]; [|done].
  pose proof (mapM_res_length _ _ _ Hdims) as Hlength.
  assert (OrderedDict (zip param_names dims) = zip param_names dims) as Hzip.
  { apply OrderedDict_NoDup. rewrite od_keys_zip. by apply NoDup_take. }
  destruct (od_get "params" _) as [v|] eqn:Hget; [|done].
  injection Hraw as ->. exists raw, dims.
  assert (od_values (zip param_names dims) = dims) as Hvalues by (apply snd_zip; lia).
  rewrite Hzip, od_keys_zip, Hvalues.
  split_and!; [done|done|lia| |].
  { rewrite length_imap, length_fmap. apply length_product. }
  intros i record Hrecord.
  apply list_lookup_imap_Some in Hrecord as (params & Hparams & ->).
  apply list_lookup_fmap_Some in Hparams as (combo & -> & Hcombo).
  exists combo. split_and!; [done| |done]. simpl.
  pose proof (length_product_elem _ _ (list_elem_of_lookup_2 _ _ _ Hcombo)) as Hcombo_len.
  intros d name Hname.
  destruct (decide (d < length dims)) as [Hd|Hd].
  - apply list_to_map_zip_lookup.
    + by apply NoDup_take.
    + rewrite lookup_take_lt by done. done.
    + rewrite length_take. lia.
  - rewrite (lookup_ge_None_2 combo) by lia.
    apply not_elem_of_list_to_map_1. rewrite fst_zip by (rewrite length_take; lia).
    intros [j Hj]%list_elem_of_lookup.
    apply lookup_take_Some in Hj as [Hj Hlt].
    pose proof (NoDup_lookup _ _ _ _ Hnodup Hname Hj). lia.
Qed.

Lemma explode_combinations_witness :
  ∃ (records : list bench_result) (dims : list (list string)),
    explode ["result"; "params"; "version"] ["compression"; "max_worker_count"]
            [VList [VNum 1; VNone; VNum 10; VNone];
             params_column [["'zlib'"; "'zstd'"]; ["1"; "2"]]] = Ok records
    ∧ length dims ≤ length ["compression"; "max_worker_count"]
    ∧ length records = foldr (λ dim n, length dim * n) 1 dims
    ∧ length records = 4.
Proof.
  destruct (explode ["result"; "params"; "version"] ["compression"; "max_worker_count"]
              [VList [VNum 1; VNone; VNum 10; VNone];
               params_column [["'zlib'"; "'zstd'"]; ["1"; "2"]]])
    as [records|e] eqn:Hexplode; [|vm_compute in Hexplode; discriminate Hexplode].
  assert (NoDup ["compression"; "max_worker_count"]) as Hnodup.
  { apply (bool_decide_unpack _). reflexivity. }
  destruct (explode_combinations _ _ _ records Hnodup Hexplode)
    as (raw & dims & _ & _ & Hle & Hlen & _).
  exists records, dims. split_and!; [done..|].
  vm_compute in Hexplode. by injection Hexplode as <-.
Defined.

Lemma explode_Ok_fields (result_columns param_names : list string)
    (result_lines : list value) (records : list bench_result)
    (i : nat) (record : bench_result) :
  explode result_columns param_names result_lines = Ok records →
  records !! i = Some record →
  fields record
  = matched_fields result_columns (OrderedDict (zip result_columns result_lines)) i.
Proof.
  unfold explode. intros ([] & _ & H)%bind_Ok.
  apply bind_Ok in H as (raw_params & _ & H).
  destruct raw_params as [| | | |raw|]; try done.
  apply bind_Ok in H as ([] & _ & H).
  apply bind_Ok in H as (dims & _ & [= <-]).
  by intros (params & _ & ->)%list_lookup_imap_Some.
Qed.

(** X21: the fields of the records [explode] returns, when the result
    columns are distinct.  Record number [i] holds, for the column at
    position [j] other than ['params'], entry [i] of line [j] when that line
    is a list (null when the list is too short), the line itself when it is
    not a list, and nothing when the lines stop before position [j]; it holds
    no other field. *)
Theorem explode_fields (result_columns param_names : list string)
    (result_lines : list value) (records : list bench_result)
    (i : nat) (record : bench_result) :
  NoDup result_columns →
  explode result_columns param_names result_lines = Ok records →
  records !! i = Some record →
  (∀ j column,
     result_columns !! j = Some column → column ≠ "params" →
     fields record !! column
     = match result_lines !! j with
       | Some (VList line) => Some (default VNone (line !! i))
       | other => other
       end)
  ∧ (∀ column, column ∉ result_columns ∨ column = "params" →
               fields record !! column = None).
Proof.
  intros Hnodup Hexplode Hrecord.
  rewrite (explode_Ok_fields _ _ _ _ _ _ Hexplode Hrecord). split.
  - intros j column Hcolumn Hne. rewrite matched_fields_lookup.
    rewrite decide_True by (split; [by eapply list_elem_of_lookup_2|done]).
    unfold matched. rewrite OrderedDict_NoDup.
    + by rewrite (od_get_zip _ _ _ j).
    + rewrite od_keys_zip. by apply NoDup_take.
  - intros column Hcolumn. rewrite matched_fields_lookup.
    rewrite decide_False; [done|]. intros [? ?]. by destruct Hcolumn.
Qed.

Lemma explode_fields_witness :
  ∃ records record,
    explode ["result"; "params"; "version"; "samples"] ["compression"]
            [VList [VNum 1]; params_column [["'zlib'"; "'zstd'"]]; VStr "v1"] = Ok records
    ∧ records !! 1 = Some record
    ∧ fields record !! "result" = Some VNone
    ∧ fields record !! "version" = Some (VStr "v1")
    ∧ fields record !! "samples" = None
    ∧ fields record !! "params" = None.
Proof.
  destruct (explode ["result"; "params"; "version"; "samples"] ["compression"]
              [VList [VNum 1]; params_column [["'zlib'"; "'zstd'"]]; VStr "v1"])
    as [records|e] eqn:Hexplode; [|vm_compute in Hexplode; discriminate Hexplode].
  destruct (records !! 1) as [record|] eqn:Hrecord;
    [|vm_compute in Hexplode; injection Hexplode as <-; discriminate Hrecord].
  assert (NoDup ["result"; "params"; "version"; "samples"]) as Hnodup.
  { apply (bool_decide_unpack _). reflexivity. }
  destruct (explode_fields _ _ _ _ _ _ Hnodup Hexplode Hrecord) as [Hheld Hnone].
  exists records, record. split_and!; [done|done| | | |].
  - by apply (Hheld 0 "result").
  - by apply (Hheld 2 "version").
  - by apply (Hheld 3 "samples").
  - apply Hnone. by right.
Defined.

(** ** From objects to columns *)

Lemma column_append_Ok (column : string) (v : value) (asv_results asv_results' : odict value) :
  column_append column v asv_results = Ok asv_results' →
  asv_results' = od_set column (VList (collected (od_get column asv_results) ++ [v]))
                        asv_results.
Proof.
  unfold column_append. destruct (od_get column asv_results) as [[]|]; simpl; congruence.
Qed.

Lemma scan_columns_lists (param_names : res (list string)) (result : bench_result)
    (columns : list string) (acc : odict value * odict (list string)) :
  (∀ e, param_names = Err e → ∃ key, e = KeyError key) →
  (∀ c, c ∉ SCALAR_COLUMNS →
        od_get c acc.1 = None ∨ ∃ l, od_get c acc.1 = Some (VList l)) →
  match scan_columns param_names result columns acc with
  | Ok acc' => ∀ c, c ∉ SCALAR_COLUMNS →
                    od_get c acc'.1 = None ∨ ∃ l, od_get c acc'.1 = Some (VList l)
  | Err e => ∃ key, e = KeyError key
  end.
Proof.
  intros Hnames. revert acc.
  induction columns as [|column columns IH]; intros acc Hlists; simpl; [done|].
  destruct (if decide (column = "params")
            then names ← param_names; collect_params result names acc.2
            else Ok acc.2) as [asv_params|e] eqn:Hparams; simpl.
  2:{ destruct (decide (column = "params")); [|done].
      apply bind_Err in Hparams as [?|(names & _ & Hparams)]; [by apply Hnames|].
      unfold collect_params in Hparams.
      apply foldlM_Err in Hparams as (? & name & _ & Hparams).
      apply bind_Err in Hparams as [Hparams|(? & _ & [=])].
      apply or_raise_Err in Hparams as ->. eauto. }
  destruct (decide (column ∈ SCALAR_COLUMNS)) as [Hscalar|Hvector].
  - apply IH. simpl. intros c Hc. rewrite od_get_set.
    rewrite decide_False by (by intros ->). by apply Hlists.
  - destruct (result_get result column) as [v|]; [|done].
    unfold column_append.
    destruct (Hlists column Hvector) as [->|[l ->]]; simpl.
    + apply IH. simpl. intros c Hc. rewrite od_get_set.
      destruct (decide (column = c)); [eauto|by apply Hlists].
    + apply IH. simpl. intros c Hc. rewrite od_get_set.
      destruct (decide (column = c)); [eauto|by apply Hlists].
Qed.

Lemma scan_records_lists (param_names : res (list string)) (columns : list string)
    (results : list bench_result) (acc : odict value * odict (list string)) :
  (∀ e, param_names = Err e → ∃ key, e = KeyError key) →
  (∀ c, c ∉ SCALAR_COLUMNS →
        od_get c acc.1 = None ∨ ∃ l, od_get c acc.1 = Some (VList l)) →
  ∀ e, foldlM (λ acc result, scan_columns param_names result columns acc) results acc
       = Err e → ∃ key, e = KeyError key.
Proof.
  intros Hnames. revert acc.
  induction results as [|result results IH]; intros acc Hlists e; simpl; [done|].
  pose proof (scan_columns_lists param_names result columns acc Hnames Hlists) as Hscan.
  destruct (scan_columns param_names result columns acc) as [acc'|e']; simpl.
  - by apply IH.
  - by intros [= <-].
Qed.

Lemma to_asv_bench_Err (result_columns : list string)
    (bench_param_names : odict (list string)) (out : odict (list value))
    (item : string * list bench_result) (e : error) :
  to_asv_bench result_columns bench_param_names out item = Err e →
  ∃ key, e = KeyError key.
Proof.
  destruct item as [benchmark results]. unfold to_asv_bench, implode, collect_columns.
  intros [H|(? & _ & [=])]%bind_Err.
  apply bind_Err in H as [H|(? & _ & [=])].
  apply bind_Err in H as [H|(? & _ & [=])].
  eapply scan_records_lists; [| |done].
  - intros e' He'. apply or_raise_Err in He' as ->. eauto.
  - intros c _. by left.
Qed.

Lemma to_asv_loop_keys (result_columns : list string)
    (bench_param_names : odict (list string))
    (octobus : odict (list bench_result)) (out out' : odict (list value)) :
  foldlM (to_asv_bench result_columns bench_param_names) octobus out = Ok out' →
  NoDup (od_keys out ++ od_keys octobus) →
  od_keys out' = od_keys out ++ od_keys octobus.
Proof.
  revert out. induction octobus as [|[benchmark results] octobus IH]; intros out.
  { intros [= <-] _. by rewrite app_nil_r. }
  cbn [foldlM]. intros (out1 & Hstep & Hloop)%bind_Ok Hnodup.
  unfold to_asv_bench in Hstep. apply bind_Ok in Hstep as (lines & _ & [= <-]).
  unfold od_keys in Hnodup. rewrite fmap_cons in Hnodup. cbn [fst] in Hnodup.
  fold (od_keys out) (od_keys octobus) in Hnodup.
  assert (benchmark ∉ od_keys out) as Hfresh.
  { apply NoDup_app in Hnodup as (_ & Hdisjoint & _). intros Hin.
    apply (Hdisjoint _ Hin). left. }
  apply IH in Hloop.
  - rewrite Hloop, od_keys_set, decide_False by done.
    unfold od_keys. rewrite fmap_cons. cbn [fst]. by rewrite <-app_assoc.
  - rewrite od_keys_set, decide_False by done. by rewrite <-app_assoc.
Qed.

(** X22: when the conversion back to columns fails, and what it keeps.  It
    raises its [UserError] exactly when the results in object form are
    missing or empty; any other failure is a [KeyError] (a missing table, a
    benchmark without parameter names, a record without one of its
    parameters), never the [AttributeError] of an [append] on a scalar.  On
    success only the results in column form change, and they list the same
    benchmarks in the same order. *)
Theorem to_asv_results_failures (data : state) :
  (octobus_results_to_asv_results data = Err (UserError EmptyOctobusResults)
   ↔ octobus_results data = None ∨ octobus_results data = Some [])
  ∧ (∀ e, octobus_results_to_asv_results data = Err e →
       e = UserError EmptyOctobusResults ∨ ∃ key, e = KeyError key)
  ∧ (∀ out octobus,
       octobus_results_to_asv_results data = Ok out →
       octobus_results data = Some octobus →
       NoDup (od_keys octobus) →
       ∃ lines, out = set_results lines data ∧ od_keys lines = od_keys octobus).
Proof.
  assert (∀ e, octobus_results_to_asv_results data = Err e →
            (e = UserError EmptyOctobusResults
             ∧ (octobus_results data = None ∨ octobus_results data = Some []))
            ∨ ∃ key, e = KeyError key) as Herr.
  { unfold octobus_results_to_asv_results. intros e.
    destruct (octobus_results data) as [[|entry octobus]|];
      [intros [= <-]; auto| |intros [= <-]; auto].
    intros [H|(result_columns & _ & H)]%bind_Err.
    { apply or_raise_Err in H as ->. eauto. }
    apply bind_Err in H as [H|(bench_param_names & _ & H)].
    { apply or_raise_Err in H as ->. eauto. }
    apply bind_Err in H as [H|(? & _ & [=])].
    apply foldlM_Err in H as (out & item & _ & H).
    right. by eapply to_asv_bench_Err. }
  split_and!.
  - split.
    + intros [[_ ?]|[? [=]]]%Herr. done.
    + unfold octobus_results_to_asv_results. by intros [->| ->].
  - intros e [[-> _]|?]%Herr; auto.
  - unfold octobus_results_to_asv_results. intros out octobus Hrun Hoctobus Hnodup.
    rewrite Hoctobus in Hrun. destruct octobus as [|entry octobus]; [done|].
    apply bind_Ok in Hrun as (result_columns & _ & Hrun).
    apply bind_Ok in Hrun as (bench_param_names & _ & Hrun).
    apply bind_Ok in Hrun as (lines & Hloop & [= <-]).
    exists lines. split; [done|]. by apply to_asv_loop_keys in Hloop.
Qed.

Lemma to_asv_results_failures_witness :
  ∃ out lines,
    octobus_results_to_asv_results two_benchmarks = Ok out
    ∧ out = set_results lines two_benchmarks
    ∧ od_keys lines = ["status.mard.track"; "other"].
Proof.
  destruct (octobus_results_to_asv_results two_benchmarks) as [out|e] eqn:Hrun;
    [|vm_compute in Hrun; discriminate Hrun].
  destruct (to_asv_results_failures two_benchmarks) as (_ & _ & H).
  destruct (H out _ Hrun eq_refl) as (lines & Hout & Hkeys).
  - apply (bool_decide_unpack _). reflexivity.
  - by exists out, lines.
Defined.

Lemma scan_columns_other (param_names : res (list string)) (result : bench_result)
    (columns : list string) (column : string)
    (acc acc' : odict value * odict (list string)) :
  column ∉ columns →
  scan_columns param_names result columns acc = Ok acc' →
  od_get column acc'.1 = od_get column acc.1.
Proof.
  revert acc. induction columns as [|c columns IH]; intros acc Hnotin; simpl.
  { by intros [= <-]. }
  apply not_elem_of_cons in Hnotin as [Hne Hnotin].
  intros (asv_params & _ & H)%bind_Ok.
  destruct (decide (c ∈ SCALAR_COLUMNS)).
  - apply IH in H as ->; [|done]. simpl. by rewrite od_get_set, decide_False.
  - destruct (result_get result c) as [v|]; [|by simplify_eq].
    apply bind_Ok in H as (asv_results & Happend & H).
    apply IH in H as ->; [|done]. simpl. by erewrite column_append_get.
Qed.

Lemma scan_columns_vector (param_names : res (list string)) (result : bench_result)
    (columns : list string) (column : string)
    (acc acc' : odict value * odict (list string)) :
  column ∉ SCALAR_COLUMNS → NoDup columns →
  scan_columns param_names result columns acc = Ok acc' →
  od_get column acc'.1
  = match result_get result column with
    | Some v =>
        if reaches result column columns
        then Some (VList (collected (od_get column acc.1) ++ [v]))
        else od_get column acc.1
    | None => od_get column acc.1
    end.
Proof.
  intros Hvector. revert acc.
  induction columns as [|c columns IH]; intros acc Hnodup; simpl.
  { intros [= <-]. by destruct (result_get result column). }
  apply NoDup_cons in Hnodup as [Hfresh Hnodup].
  intros (asv_params & _ & H)%bind_Ok.
  destruct (decide (c = column)) as [->|Hne].
  - rewrite decide_False in H by done.
    destruct (result_get result column) as [v|]; [|by simplify_eq].
    apply bind_Ok in H as (asv_results & ->%column_append_Ok & H).
    apply scan_columns_other with (column := column) in H as ->; [|done].
    simpl. by rewrite od_get_set, decide_True.
  - destruct (decide (c ∈ SCALAR_COLUMNS)) as [Hc|Hc].
    + apply IH in H as ->; [|done]. simpl. by rewrite od_get_set, decide_False.
    + destruct (result_get result c) as [v|]; [|simplify_eq; by destruct (result_get _ _)].
      apply bind_Ok in H as (asv_results & Happend & H).
      apply IH in H as ->; [|done]. simpl. by erewrite column_append_get.
Qed.

Lemma scan_records_vector (param_names : res (list string)) (columns : list string)
    (column : string) (results : list bench_result)
    (acc acc' : odict value * odict (list string)) :
  column ∉ SCALAR_COLUMNS → NoDup columns →
  foldlM (λ acc result, scan_columns param_names result columns acc) results acc
    = Ok acc' →
  od_get column acc'.1
  = match filter (λ result, reaches result column columns
                            ∧ is_Some (result_get result column)) results with
    | [] => od_get column acc.1
    | held => Some (VList (collected (od_get column acc.1)
                           ++ ((λ result, column_value result column) <$> held)))
    end.
Proof.
  intros Hvector Hnodup. revert acc'.
  induction results as [|result results IH] using rev_ind; intros acc'.
  { by intros [= <-]. }
  rewrite foldlM_app. intros (acc1 & Hfront & Hlast)%bind_Ok.
  simpl in Hlast. apply bind_Ok in Hlast as (acc2 & Hscan & [= <-]).
  apply (scan_columns_vector _ _ _ column) in Hscan as ->; [|done..].
  rewrite filter_app, filter_cons, filter_nil. rewrite (IH _ Hfront).
  destruct (result_get result column) as [v|] eqn:Hget.
  - assert (column_value result column = v) as Hvalue.
    { unfold column_value. by rewrite Hget. }
    destruct (reaches result column columns) eqn:Hreach.
    + rewrite decide_True by (split; [done|by eexists]).
      destruct (filter _ results) as [|held0 held].
      * simpl. by rewrite Hvalue.
      * cbn [app collected]. rewrite !fmap_cons, fmap_app, fmap_cons, fmap_nil, Hvalue.
        by rewrite <-app_assoc.
    + rewrite decide_False by (by intros [[] _]). by rewrite app_nil_r.
  - rewrite decide_False by (by intros [_ [? [=]]]). by rewrite app_nil_r.
Qed.

(** X23: the line written for a column that is neither scalar nor
    ['params'], when the result columns are all distinct: the list of the
    values of that column in the records that hold it and whose scan gets as
    far as it, in the order of the records; nothing is written for the
    column when there is no such record. *)
Theorem vector_column_collects (result_columns : list string)
    (param_names : res (list string)) (results : list bench_result)
    (asv_results : odict value) (column : string) :
  column ∉ SCALAR_COLUMNS →
  column ≠ "params" →
  NoDup result_columns →
  collect_columns result_columns param_names results = Ok asv_results →
  od_get column asv_results
  = match filter (λ result, reaches result column result_columns
                            ∧ is_Some (fields result !! column)) results with
    | [] => None
    | held => Some (VList ((λ result, default VNone (fields result !! column)) <$> held))
    end.
Proof.
  intros Hvector Hne Hnodup. unfold collect_columns.
  intros (acc & Hloop & [= <-])%bind_Ok.
  rewrite od_get_set, decide_False by done.
  erewrite scan_records_vector by done.
  assert (∀ result, result_get result column = fields result !! column) as Hget.
  { intros result. unfold result_get. by rewrite decide_False. }
  erewrite (list_filter_iff _ (λ result, reaches result column result_columns
                                          ∧ is_Some (fields result !! column))).
  2:{ intros result. by rewrite Hget. }
  assert (∀ held : list bench_result,
            (λ result, column_value result column) <$> held
            = (λ result, default VNone (fields result !! column)) <$> held) as Hmap.
  { intros held. apply list_fmap_ext. intros _ result _.
    unfold column_value. by rewrite Hget. }
  destruct (filter _ results) as [|held0 held]; [done|]. by rewrite Hmap.
Qed.

Lemma vector_column_collects_witness :
  od_get "result"
         [("result", VList [VNum 1; VNum 2]); ("params", VList []); ("version", VStr "b")]
  = match filter (λ result, reaches result "result" ["result"; "params"; "version"]
                            ∧ is_Some (fields result !! "result"))
                 [versioned 1 "a"; versioned 2 "b"] with
    | [] => None
    | held => Some (VList ((λ result, default VNone (fields result !! "result")) <$> held))
    end.
Proof.
  apply (vector_column_collects ["result"; "params"; "version"] (Ok [])).
  - apply (bool_decide_unpack _). reflexivity.
  - discriminate.
  - apply (bool_decide_unpack _). reflexivity.
  - reflexivity.
Defined.

Lemma collect_params_Ok (result : bench_result) (names : list string)
    (asv_params asv_params' : odict (list string)) :
  collect_params result names asv_params = Ok asv_params' →
  ∀ name, name ∈ names → is_Some (params result !! name).
Proof.
  unfold collect_params. revert asv_params.
  induction names as [|name names IH]; intros asv_params; [by intros _ ? ?%elem_of_nil|].
  cbn [foldlM]. intros (asv_params1 & Hstep & Hloop)%bind_Ok.
  apply bind_Ok in Hstep as (param_value & Hvalue & _).
  intros name' [->|Hin]%elem_of_cons; [|by eapply IH].
  destruct (params result !! name); [by eexists|done].
Qed.

Lemma scan_columns_params_other (param_names : res (list string)) (result : bench_result)
    (columns : list string) (acc acc' : odict value * odict (list string)) :
  "params" ∉ columns →
  scan_columns param_names result columns acc = Ok acc' →
  acc'.2 = acc.2.
Proof.
  revert acc. induction columns as [|c columns IH]; intros acc Hnotin; simpl.
  { by intros [= <-]. }
  apply not_elem_of_cons in Hnotin as [Hne Hnotin].
  rewrite decide_False by done. simpl.
  destruct (decide (c ∈ SCALAR_COLUMNS)).
  - by intros ->%IH.
  - destruct (result_get result c) as [v|]; [|by intros [= <-]].
    intros (asv_results & _ & H)%bind_Ok. by apply IH in H as ->.
Qed.

Lemma scan_columns_params (names : list string) (result : bench_result)
    (columns : list string) (acc acc' : odict value * odict (list string)) :
  NoDup columns →
  scan_columns (Ok names) result columns acc = Ok acc' →
  if reaches result "params" columns
  then acc'.2 = foldl (od_update (next_param result)) acc.2 names
       ∧ ∀ name, name ∈ names → is_Some (params result !! name)
  else acc'.2 = acc.2.
Proof.
  revert acc. induction columns as [|c columns IH]; intros acc Hnodup; simpl.
  { by intros [= <-]. }
  apply NoDup_cons in Hnodup as [Hfresh Hnodup].
  destruct (decide (c = "params")) as [->|Hne].
  - simpl. intros (asv_params & Hparams & H)%bind_Ok.
    pose proof (collect_params_Ok _ _ _ _ Hparams) as Hall.
    rewrite collect_params_pure in Hparams by done. injection Hparams as <-.
    split; [|done].
    apply bind_Ok in H as (asv_results & _ & H).
    by apply scan_columns_params_other in H as ->.
  - simpl. destruct (decide (c ∈ SCALAR_COLUMNS)).
    + intros H. by apply IH in H.
    + destruct (result_get result c) as [v|]; [|by intros [= <-]].
      intros (asv_results & _ & H)%bind_Ok. by apply IH in H.
Qed.

Lemma params_fold (names : list string) (reached done_so_far : list bench_result) :
  NoDup names →
  foldl (λ asv_params result, foldl (od_update (next_param result)) asv_params names)
        (if done_so_far is [] then [] else params_of names done_so_far) reached
  = if done_so_far ++ reached is [] then [] else params_of names (done_so_far ++ reached).
Proof.
  intros Hnames. revert done_so_far.
  induction reached as [|result reached IH]; intros done_so_far.
  { by rewrite app_nil_r. }
  cbn [foldl].
  assert (foldl (od_update (next_param result))
                (if done_so_far is [] then [] else params_of names done_so_far) names
          = params_of names (done_so_far ++ [result])) as ->.
  { destruct done_so_far as [|first done_so_far].
    - by rewrite od_update_fresh by (done || set_solver).
    - generalize (first :: done_so_far). intros done0.
      pose proof (od_update_present (next_param result) [] (params_of names done0)) as Hn.
      unfold params_of in *. rewrite od_keys_fmap_key in Hn. simpl in Hn.
      rewrite Hn by done. rewrite <-!list_fmap_compose.
      apply list_fmap_ext. intros _ name _. simpl. f_equal.
      unfold next_param, oset_of. simpl. by rewrite fmap_app, foldl_app. }
  specialize (IH (done_so_far ++ [result])). rewrite <-app_assoc in IH. simpl in IH.
  rewrite <-IH. by destruct done_so_far.
Qed.

Lemma scan_records_params (names columns : list string) (results : list bench_result)
    (acc acc' : odict value * odict (list string)) :
  NoDup columns →
  foldlM (λ acc result, scan_columns (Ok names) result columns acc) results acc
    = Ok acc' →
  acc'.2 = foldl (λ asv_params result,
                    foldl (od_update (next_param result)) asv_params names)
                 acc.2 (filter (λ result, reaches result "params" columns) results)
  ∧ Forall (λ result, ∀ name, name ∈ names → is_Some (params result !! name))
           (filter (λ result, reaches result "params" columns) results).
Proof.
  intros Hnodup. revert acc.
  induction results as [|result results IH]; intros acc.
  { intros [= <-]. split; [done|constructor]. }
  cbn [foldlM]. intros (acc1 & Hscan & Hloop)%bind_Ok.
  apply scan_columns_params in Hscan; [|done].
  destruct (IH _ Hloop) as [-> Hall]. rewrite filter_cons.
  destruct (reaches result "params" columns).
  - rewrite decide_True by done. destruct Hscan as [-> Hparams].
    split; [done|by constructor].
  - rewrite decide_False by (by intros []). by rewrite Hscan.
Qed.

(** X24: the ['params'] line written for a benchmark whose parameter names
    are distinct, when the result columns are distinct: one list per
    parameter name, in the order of the names, each holding the values that
    parameter takes in the records whose scan gets as far as the ['params']
    column, every value once and in the order of its first record; no list
    at all when no record gets that far.  Each of those records holds all the
    parameters. *)
Theorem params_column_collects (result_columns names : list string)
    (results : list bench_result) (asv_results : odict value) :
  NoDup result_columns →
  NoDup names →
  collect_columns result_columns (Ok names) results = Ok asv_results →
  let reached := filter (λ result, reaches result "params" result_columns) results in
  od_get "params" asv_results
  = Some (params_column
            (if reached is [] then []
             else (λ name, oset_of ((λ result, default "" (params result !! name))
                                    <$> reached)) <$> names))
  ∧ Forall (λ result, ∀ name, name ∈ names → is_Some (params result !! name)) reached.
Proof.
  intros Hcolumns Hnames. unfold collect_columns.
  intros (acc & Hloop & [= <-])%bind_Ok. cbv zeta.
  apply scan_records_params in Hloop as [Hparams Hall]; [|done].
  split; [|done]. rewrite od_get_set, decide_True by done. do 2 f_equal.
  rewrite Hparams.
  set (reached := filter (λ result, reaches result "params" result_columns) results).
  simpl.
  pose proof (params_fold names reached [] Hnames) as Hfold. simpl in Hfold.
  rewrite Hfold. destruct reached; [done|].
  unfold od_values, params_of. by rewrite <-list_fmap_compose.
Qed.

Lemma params_column_collects_witness :
  od_get "params"
         [("result", VList [VNum 1; VNum 2; VNum 3]);
          ("params", params_column [["'test'"; "'test2'"]])]
  = Some (params_column
            (if filter (λ result, reaches result "params" ["result"; "params"])
                       [measured 1 "'test'"; measured 2 "'test2'"; measured 3 "'test'"]
                is []
             then []
             else (λ name,
                     oset_of ((λ result, default "" (params result !! name))
                              <$> filter (λ result,
                                            reaches result "params" ["result"; "params"])
                                         [measured 1 "'test'"; measured 2 "'test2'";
                                          measured 3 "'test'"]))
                  <$> ["repo"]))
  ∧ Forall (λ result, ∀ name, name ∈ ["repo"] → is_Some (params result !! name))
           (filter (λ result, reaches result "params" ["result"; "params"])
                   [measured 1 "'test'"; measured 2 "'test2'"; measured 3 "'test'"]).
Proof.
  apply (params_column_collects ["result"; "params"] ["repo"]
           [measured 1 "'test'"; measured 2 "'test2'"; measured 3 "'test'"]).
  - apply (bool_decide_unpack _). reflexivity.
  - apply (bool_decide_unpack _). reflexivity.
  - reflexivity.
Defined.

(** ** The two conversions together *)

Lemma foldlM_ext {A B} (f g : B → A → res B) (l : list A) (b : B) :
  (∀ b x, f b x = g b x) → foldlM f l b = foldlM g l b.
Proof.
  intros Hfg. revert b. induction l as [|x l IH]; intros b; simpl; [done|].
  rewrite Hfg. destruct (g b x); simpl; [apply IH|done].
Qed.

(** X25: under the conditions of the round trip (a catalog that knows every
    benchmark of the file and result lines that are full expansions), the
    file the first conversion returns holds both forms and is a fixed point
    of both conversions: converting it to columns or to objects again gives
    the same file. *)
Theorem converters_stable (benchmarks : catalog) (x : state)
    (columns : list string) (lines : odict (list value)) :
  results x = Some lines →
  result_columns x = Some columns →
  lines ≠ [] →
  NoDup (od_keys lines) →
  Forall (expanded_entry benchmarks columns) lines →
  ∃ converted,
    to_octobus_results (Some benchmarks) x = Ok converted
    ∧ octobus_results_to_asv_results converted = Ok converted
    ∧ to_octobus_results (Some benchmarks) converted = Ok converted
    ∧ results converted = results x.
Proof.
  intros Hresults Hcolumns Hnonempty Hnodup Hall.
  destruct (to_octobus_loop benchmarks columns x lines [] [] Hcolumns Hall)
    as (names & octobus & Hloop & Hentries & Hnames); [done|].
  destruct x as [results0 columns0 octobus0 names0 version0]. simpl in *. subst.
  exists (State (Some lines) (Some columns) (Some octobus) (Some names) version0).
  split_and!.
  - unfold to_octobus_results. simpl. by rewrite Hloop.
  - unfold octobus_results_to_asv_results.
    cbn [octobus_results result_columns bench_param_names].
    destruct octobus as [|entry octobus].
    { apply Forall2_nil_inv_r in Hentries. done. }
    cbn [or_raise mbind res_bind].
    rewrite (to_asv_loop benchmarks columns lines []); [done|done| |done].
    intros bench Hbench. rewrite Hnames. by rewrite decide_True.
  - unfold to_octobus_results. simpl.
    erewrite foldlM_ext; [rewrite Hloop; done|].
    intros acc [bench line].
    by rewrite !(to_octobus_bench_step _ _ columns).
  - done.
Qed.

Lemma converters_stable_witness :
  ∃ converted,
    to_octobus_results (Some two_by_two_catalog) two_by_two = Ok converted
    ∧ octobus_results_to_asv_results converted = Ok converted
    ∧ to_octobus_results (Some two_by_two_catalog) converted = Ok converted
    ∧ results converted = results two_by_two.
Proof.
  apply (converters_stable two_by_two_catalog two_by_two
           ["result"; "params"; "version"; "started_at"; "duration";
            "stats_ci_99_a"; "stats_ci_99_b"]
           [("time_bench",
             [VList [VNum 1; VNone; VNum 10; VNone];
              params_column [["'zlib'"; "'zstd'"]; ["1"; "2"]];
              VStr "version"; VNum 2; VNum 3;
              VList [VNum 4; VNone; VNum 40; VNone]])]).
  - reflexivity.
  - reflexivity.
  - discriminate.
  - apply (bool_decide_unpack _). reflexivity.
  - constructor; [|constructor].
    exists ["compression"; "max_worker_count"], [["'zlib'"; "'zstd'"]; ["1"; "2"]].
    split; [reflexivity|]. constructor.
    + apply (bool_decide_unpack _). reflexivity.
    + simpl. lia.
    + exists 1. split; [simpl; lia|reflexivity].
    + intros column [= <-]. apply (bool_decide_unpack _). reflexivity.
    + split; [|reflexivity]. apply (bool_decide_unpack _). reflexivity.
    + repeat constructor; try discriminate; apply (bool_decide_unpack _); reflexivity.
    + intros i column line Hcolumn Hline.
      destruct i as [|[|[|[|[|[|i]]]]]]; simpl in Hcolumn, Hline;
        try discriminate Hline;
        injection Hcolumn as <-; injection Hline as <-; simpl;
        try discriminate; try reflexivity; eexists; split; reflexivity.
Defined.

(** ** The version check *)

(** X26: what [check_migration_version] answers for a file whose marker
    parses to the index [f].  Outside an update it returns the two indexes
    exactly when [f] is the current index; during an update exactly when [f]
    is not beyond the current index.  It raises the "newer migration" error
    exactly when [f] is beyond the current index, and the "needs to be
    migrated" error exactly when [f] is behind it outside an update.  A
    marker that does not parse lets the [ValueError] through. *)
Theorem check_migration_version_cases (current : Z) (path : string) (data : state)
    (is_update : bool) :
  (∀ f, get_file_migration_index data = Ok f →
     (check_migration_version current path data is_update = Checked current f
      ↔ if is_update then (f ≤ current)%Z else f = current)
     ∧ (check_migration_version current path data is_update
          = NewerMigration path f current
        ↔ (current < f)%Z)
     ∧ (check_migration_version current path data is_update
          = NeedsMigration path f current
        ↔ is_update = false ∧ (f < current)%Z))
  ∧ (∀ e, check_migration_version current path data is_update = Raised e
          ↔ get_file_migration_index data = Err e).
Proof.
  unfold check_migration_version. split.
  - intros f ->.
    destruct is_update; simpl;
      destruct (bool_decide_reflect (f < current)%Z);
      destruct (bool_decide_reflect (f > current)%Z); simpl;
      split_and!;
      (split; [intros H; try discriminate H; try lia; try (split; [done|lia])
              |intros H; first [lia|by subst|by destruct H|destruct H; lia]]).
  - intros e. destruct (get_file_migration_index data) as [f|e'].
    + split; [|done].
      destruct (negb is_update && _); [done|]. by destruct (bool_decide _).
    + split; by intros [= ->].
Qed.

Lemma check_migration_version_cases_witness :
  check_migration_version 2 "results.json" at_second_migration false = Checked 2 2
  ∧ check_migration_version 3 "results.json" at_second_migration false
    = NeedsMigration "results.json" 2 3
  ∧ check_migration_version 3 "results.json" at_second_migration true = Checked 3 2
  ∧ check_migration_version 1 "results.json" at_second_migration true
    = NewerMigration "results.json" 2 1.
Proof.
  split_and!.
  - by apply (proj1 (check_migration_version_cases 2 "results.json"
                       at_second_migration false) 2%Z eq_refl).
  - apply (proj1 (check_migration_version_cases 3 "results.json"
                    at_second_migration false) 2%Z eq_refl). split; [done|lia].
  - apply (proj1 (check_migration_version_cases 3 "results.json"
                    at_second_migration true) 2%Z eq_refl). simpl. lia.
  - apply (proj1 (check_migration_version_cases 1 "results.json"
                    at_second_migration true) 2%Z eq_refl). lia.
Defined.

Lemma basename_no_slash (p : string) : has_slash p = false → basename p = p.
Proof.
  destruct p as [|c p]; [done|]. simpl. by intros ->.
Qed.

Lemma init_default_target found modules benchmarks (self : Executor.t) :
  Executor.__init__ found modules benchmarks None = Ok self →
  last (Executor.all_migrations self) = Some (Executor.target self).
Proof.
  unfold Executor.__init__. intros (names & _ & H)%bind_Ok.
  destruct (last names) as [latest|] eqn:Hlast; [|done]. simpl in H.
  by apply bind_Ok in H as ([] & _ & [= <-]).
Qed.

Lemma pending_names_Ok (self : Executor.t) (file_contents : state) (names : list string) :
  Executor.get_pending_migrations_names self file_contents = Ok names →
  ∃ f indexes,
    get_file_migration_index file_contents = Ok f
    ∧ f ≠ 0%Z
    ∧ Executor.all_migrations_indexes self = Ok indexes
    ∧ f ∈ indexes.
Proof.
  unfold Executor.get_pending_migrations_names.
  intros (f & Hfile & H)%bind_Ok.
  destruct (decide (f = 0%Z)); [done|].
  apply bind_Ok in H as (indexes & Hindexes & H).
  destruct (decide (f ∉ indexes)) as [|Hin]; [done|].
  exists f, indexes. split_and!; [done..|]. by apply dec_stable.
Qed.

(** X27: a registry constructed without a target, from module names that
    hold no ['/'], has the number [N] of its migrations as current index, and
    every file that [migrate_file] returns passes the version check against
    it, inside or outside an update, with [N] as the index of the file. *)
Theorem migrated_file_passes_check found modules benchmarks
    (self : Executor.t) (file_contents out : state) (path : string) (is_update : bool) :
  Executor.__init__ found modules benchmarks None = Ok self →
  (∀ name, name ∈ found → has_slash name = false) →
  Executor.migrate_file self file_contents = Ok out →
  let current := Z.of_nat (length (Executor.all_migrations self)) in
  Executor.current_migration_index self = Ok current
  ∧ get_file_migration_index out = Ok current
  ∧ check_migration_version current path out is_update = Checked current current.
Proof.
  intros Hinit Hplain Hrun current.
  pose proof (init_indexes _ _ _ _ _ Hinit) as Hindexes.
  pose proof (init_default_target _ _ _ _ Hinit) as Hlast.
  destruct (init_Ok _ _ _ _ _ Hinit) as (Hnames & Hnonempty & Htarget & _).
  unfold Executor.all_migrations_indexes in Hindexes.
  assert (0 < length (Executor.all_migrations self)) as Hlen.
  { destruct (Executor.all_migrations self); [done|simpl; lia]. }
  destruct (mapM_res_last _ _ _ _ Hindexes Hlast) as (t & Ht & Htidx).
  rewrite last_seqZ in Ht by done. injection Ht as <-.
  replace (1 + Z.of_nat (length (Executor.all_migrations self)) - 1)%Z
    with current in Htidx by (subst current; lia).
  assert (get_file_migration_index out = Ok current) as Hout.
  { apply migrate_file_Ok in Hrun
      as [(names & Hpending & ->)|(ready & names & migrated & lines & _ & ->)];
      [|done].
    destruct (pending_names_Ok _ _ _ Hpending) as (f & indexes & Hfile & Hf & Hidx & Hin).
    unfold Executor.all_migrations_indexes in Hidx.
    rewrite Hindexes in Hidx. injection Hidx as <-. apply elem_of_seqZ in Hin.
    edestruct (pending_names_constructed _ _ _ _ self out f Hinit Hfile)
      as (t' & Ht' & _ & Hfilter); [lia|].
    rewrite Htidx in Ht'. injection Ht' as <-.
    rewrite Hfilter in Hpending. injection Hpending as Hempty.
    destruct (decide (f = current)) as [->|Hne]; [done|].
    assert (Executor.target self
              ∈ filter (index_within f current) (Executor.all_migrations self)) as Hin'.
    { apply list_elem_of_filter. split; [|done].
      unfold index_within. rewrite Htidx. subst current. lia. }
    rewrite Hempty in Hin'. by apply elem_of_nil in Hin'. }
  split_and!; [|done|].
  - unfold Executor.current_migration_index, Executor.current_migration_name.
    rewrite Hlast. simpl. unfold get_migration_index_from_path.
    rewrite basename_no_slash; [done|].
    apply Hplain. by apply (sorted_names_members _ _ _ Hnames).
  - unfold check_migration_version. rewrite Hout.
    rewrite (bool_decide_eq_false_2 (current < current)%Z) by lia.
    rewrite andb_false_r.
    by rewrite (bool_decide_eq_false_2 (current > current)%Z) by lia.
Qed.

Lemma migrated_file_passes_check_witness :
  ∃ self out,
    Executor.__init__ ["0002_whatever"; "0001_initial"]
      (λ name, if decide (name = "0002_whatever") then [add_max_worker_count] else [])
      None None = Ok self
    ∧ Executor.migrate_file self two_benchmarks = Ok out
    ∧ Executor.current_migration_index self = Ok 2%Z
    ∧ get_file_migration_index out = Ok 2%Z
    ∧ check_migration_version 2 "results.json" out false = Checked 2 2.
Proof.
  destruct (Executor.__init__ ["0002_whatever"; "0001_initial"]
              (λ name, if decide (name = "0002_whatever")
                       then [add_max_worker_count] else [])
              None None) as [self|e] eqn:Hinit; [|vm_compute in Hinit; discriminate Hinit].
  destruct (Executor.migrate_file self two_benchmarks) as [out|e] eqn:Hrun.
  - exists self, out. split; [done|]. split; [done|].
    assert (Z.of_nat (length (Executor.all_migrations self)) = 2%Z) as <-.
    { vm_compute in Hinit. by injection Hinit as <-. }
    apply (migrated_file_passes_check _ _ _ self two_benchmarks out "results.json" false
             Hinit); [|done].
    intros name Hname. repeat (apply elem_of_cons in Hname as [->|Hname]; [done|]).
    by apply elem_of_nil in Hname.
  - vm_compute in Hinit. injection Hinit as <-. vm_compute in Hrun. discriminate Hrun.
Defined.

(** ** Names and paths *)

Lemma has_slash_app (dir name : string) : has_slash (dir +:+ "/" +:+ name) = true.
Proof.
  induction dir as [|c dir IH]; [done|].
  change (has_slash (String c (dir +:+ "/" +:+ name)) = true).
  cbn [has_slash]. rewrite IH. apply orb_true_r.
Qed.

Lemma basename_app (dir name : string) :
  has_slash name = false → basename (dir +:+ "/" +:+ name) = name.
Proof.
  intros Hname. induction dir as [|c dir IH].
  - simpl. by apply basename_no_slash.
  - change (basename (String c (dir +:+ "/" +:+ name)) = name).
    cbn [basename]. rewrite has_slash_app, orb_true_r. apply IH.
Qed.

Lemma split_head_app (prefix rest : string) :
  "_"%char ∉ String.list_ascii_of_string prefix →
  split_head (prefix +:+ "_" +:+ rest) = prefix.
Proof.
  induction prefix as [|c prefix IH]; intros Hprefix; [done|].
  change (split_head (String c (prefix +:+ "_" +:+ rest)) = String c prefix).
  simpl in Hprefix. apply not_elem_of_cons in Hprefix as [Hc Hprefix].
  cbn [split_head]. rewrite decide_False by done. by rewrite IH.
Qed.

(** X28: the index of a migration is read from the part of its name in
    front of the first underscore, whatever follows, and the index of a path
    is that of its last component: the directories and the rest of the name
    play no role. *)
Theorem index_of_path (dir prefix rest : string) :
  "_"%char ∉ String.list_ascii_of_string prefix →
  has_slash prefix = false →
  has_slash rest = false →
  get_migration_index (prefix +:+ "_" +:+ rest) = get_migration_index prefix
  ∧ get_migration_index_from_path (dir +:+ "/" +:+ (prefix +:+ "_" +:+ rest))
    = get_migration_index prefix.
Proof.
  intros Hprefix Hplain Hrest.
  assert (get_migration_index (prefix +:+ "_" +:+ rest) = get_migration_index prefix)
    as Hname.
  { unfold get_migration_index. rewrite split_head_app by done.
    replace (split_head prefix) with prefix; [done|].
    clear Hplain. induction prefix as [|c prefix IH]; [done|]. simpl.
    simpl in Hprefix. apply not_elem_of_cons in Hprefix as [Hc Hprefix].
    rewrite decide_False by done. by rewrite <-IH. }
  split; [done|]. unfold get_migration_index_from_path.
  rewrite basename_app; [done|].
  clear Hname Hprefix. induction prefix as [|c prefix IH]; [done|].
  simpl in *. apply orb_false_elim in Hplain as [-> Hplain]. by apply IH.
Qed.

Lemma index_of_path_witness :
  get_migration_index ("0002" +:+ "_" +:+ "add_param") = get_migration_index "0002"
  ∧ get_migration_index_from_path
      ("/repo/asv_migrations" +:+ "/" +:+ ("0002" +:+ "_" +:+ "add_param"))
    = get_migration_index "0002".
Proof.
  apply (index_of_path "/repo/asv_migrations" "0002" "add_param").
  - apply (bool_decide_unpack _). reflexivity.
  - reflexivity.
  - reflexivity.
Defined.
